(** * nock: the interception registry and the request overrider

    A shallow embedding of [lib/intercept.js] (the registry of interceptors:
    [add], [remove]) and of [lib/request_overrider.js] (the per-request state
    machine: [req.write], [req.end], [req.flushHeaders], [req.abort], the
    closure [end] with its continuations, [parseFullReplyResult] and
    [selectDefaultHeaders]), followed by the properties of the specification
    that are settled against them.

    Conventions of the embedding.
    - JavaScript objects that are compared by identity or mutated while
      shared (interceptors, requests) live in stores indexed by a number;
      arrays of interceptors hold those numbers, so the array that
      [interceptorsFor] hands to a request is the registry's own array.
    - [process.nextTick], promise reactions, [setImmediate] and [setTimeout]
      are four queues of defunctionalised closures ([task]); the event loop
      ([run_next]) takes the next one.
    - Everything a caller can observe ([emit], [response.push], ...) is
      appended to a trace of [event]s.
    - Functions supplied by the user (reply callbacks, functional header
      values, matching predicates) and the helpers of [lib/common.js] and of
      the Node runtime are total functions here: an exception thrown by one
      of them is outside the model.
    - What a listener does when an event is emitted is not part of a step:
      a caller acts between steps ([req_write], [req_end], [req_abort], a
      reply promise that settles, a body stream that emits).
    - Of [lib/intercept.js] the registry operations [add] and [remove] are
      embedded; a request is created with the array of one registry entry,
      as [interceptorsFor] returns it for a key that has interceptors. *)

From Stdlib Require Import Ascii String ZArith QArith_base Lia.
From stdpp Require Import gmap strings list fin_maps.

Set Warnings "-register-all".
Open Scope Z_scope.

(** ** JavaScript values *)

(** A JavaScript number: a finite value (every double is a rational), NaN, or
    an infinity. *)
Inductive number :=
| Finite (q : Q)
| NaN
| Infinity (negative : bool).

(** [Number.isInteger]. *)
Definition Number_isInteger (n : number) : bool :=
  match n with
  | Finite q => (Qnum q mod Z.pos (Qden q) =? 0)
  | NaN | Infinity _ => false
  end.

Abbreviation buffer := (list Byte.byte) (only parsing).

Inductive value :=
| VUndefined
| VNull
| VBool (b : bool)
| VNumber (n : number)
| VString (s : string)
| VBuffer (b : buffer)
| VArray (l : list value)
| VObject (o : list (string * value))
| VFunction (f : nat)
| VStream (s : nat)
| VDelayedBody (ms : Z) (body : value).

Definition VInt (z : Z) : value := VNumber (Finite (Qmake z 1)).

(** [typeof v]. *)
Definition typeof (v : value) : string :=
  match v with
  | VUndefined => "undefined"
  | VNull => "object"
  | VBool _ => "boolean"
  | VNumber _ => "number"
  | VString _ => "string"
  | VBuffer _ | VArray _ | VObject _ | VStream _ | VDelayedBody _ _ => "object"
  | VFunction _ => "function"
  end.

(** Truthiness: what [if (v)] tests. *)
Definition truthy (v : value) : bool :=
  match v with
  | VUndefined | VNull => false
  | VBool b => b
  | VNumber (Finite q) => negb (Qnum q =? 0)
  | VNumber NaN => false
  | VNumber (Infinity _) => true
  | VString s => negb (String.eqb s "")
  | _ => true
  end.

Definition Array_isArray (v : value) : bool :=
  match v with VArray _ => true | _ => false end.

Definition Buffer_isBuffer (v : value) : bool :=
  match v with VBuffer _ => true | _ => false end.

(** [common.isStream]: a user stream or a [DelayedBody] (itself a stream). *)
Definition isStream (v : value) : bool :=
  match v with VStream _ | VDelayedBody _ _ => true | _ => false end.

(** lodash's [_.isObject]: objects, arrays and functions. *)
Definition isObject (v : value) : bool :=
  match v with
  | VBuffer _ | VArray _ | VObject _ | VFunction _ | VStream _
  | VDelayedBody _ _ => true
  | _ => false
  end.

(** [String.prototype.toLowerCase], on the ASCII letters. *)
Definition ascii_toLowerCase (c : ascii) : ascii :=
  let n := nat_of_ascii c in
  if ((65 <=? n) && (n <=? 90))%nat then ascii_of_nat (n + 32) else c.

Fixpoint toLowerCase (s : string) : string :=
  match s with
  | EmptyString => EmptyString
  | String c s' => String (ascii_toLowerCase c) (toLowerCase s')
  end.

(** ** Errors *)

(** An [Error] object with the properties the code sets on it, or any other
    value used as an error (an interceptor's [errorMessage] object, the
    rejection of a reply callback). *)
Inductive exn :=
| Error (message : string) (code : option string) (statusCode : option Z)
| Thrown (v : value).

(** ** Raw headers *)

(** The raw header array [[name1, value1, name2, value2, ...]] is kept as
    the list of its (name, value) pairs, in the order of the array. *)
Abbreviation rawHeaders_t := (list (string * value)) (only parsing).

(** Modelled from the spec: [common.forEachHeader] ([lib/common.js] is not
    among the sources). The spec speaks of "ordered raw header pairs"; the
    callers receive [(value, fieldName, i)] for each pair in order, [i]
    being the index of the name in the flat array. *)
Fixpoint forEachHeader_from {S : Type} (i : nat) (rawHeaders : rawHeaders_t)
    (callback : value -> string -> nat -> S -> S) (s : S) : S :=
  match rawHeaders with
  | [] => s
  | (fieldName, v) :: rest =>
      forEachHeader_from (i + 2)%nat rest callback (callback v fieldName i s)
  end.

Definition forEachHeader {S : Type} := @forEachHeader_from S 0%nat.

(** [selectDefaultHeaders(existingHeaders, defaultHeaders)]: which of the
    default headers are added to the response. *)
Definition selectDefaultHeaders (existingHeaders defaultHeaders : rawHeaders_t)
    : rawHeaders_t :=
  if (List.length defaultHeaders =? 0)%nat then []
  else
    let definedHeaders : gset string :=
      forEachHeader existingHeaders
        (fun _ fieldName _ defined => defined ∪ {[ toLowerCase fieldName ]}) ∅ in
    forEachHeader defaultHeaders
      (fun v fieldName _ result =>
         if decide (toLowerCase fieldName ∈ definedHeaders) then result
         else result ++ [(fieldName, v)])
      [].

(** ** The objects of the two modules *)

(** The response ([IncomingMessage]) that a request synthesises. *)
Module Response.
Record t := mk {
  statusCode : value;
  rawHeaders : rawHeaders_t;
  headers : gmap string value;
  complete : bool;
}.
Definition set_statusCode (v : value) (res : t) : t :=
  mk v (rawHeaders res) (headers res) (complete res).
Definition set_rawHeaders (h : rawHeaders_t) (res : t) : t :=
  mk (statusCode res) h (headers res) (complete res).
Definition set_headers (h : gmap string value) (res : t) : t :=
  mk (statusCode res) (rawHeaders res) h (complete res).
Definition set_complete (b : bool) (res : t) : t :=
  mk (statusCode res) (rawHeaders res) (headers res) b.
(** [new IncomingMessage(...)]: nothing set yet. *)
Definition fresh : t := mk VUndefined [] ∅ false.
End Response.

(** The request options, after [common.normalizeClientRequestArgs]. *)
Module Options.
Record t := mk {
  headers : option (gmap string value);
  auth : option string;
  path : string;
  method : string;
  host : option string;
  port : value;
  proto : string;
  protocol : option string;
}.
Definition set_headers (h : option (gmap string value)) (o : t) : t :=
  mk h (auth o) (path o) (method o) (host o) (port o) (proto o) (protocol o).
Definition set_path (p : string) (o : t) : t :=
  mk (headers o) (auth o) p (method o) (host o) (port o) (proto o) (protocol o).
Definition set_protocol (p : option string) (o : t) : t :=
  mk (headers o) (auth o) (path o) (method o) (host o) (port o) (proto o) p.
End Options.

(** The scope an interceptor belongs to, as far as the two modules read it:
    [shouldPersist()] and [_defaultReplyHeaders]. *)
Module Scope.
Record t := mk {
  id : nat;
  shouldPersist : bool;
  _defaultReplyHeaders : rawHeaders_t;
}.
End Scope.

Module ScopeOptions.
Record t := mk {
  allowUnmocked : bool;
  filteringScope : option (string -> bool);
}.
End ScopeOptions.

(** What a call of a reply callback leads to: [Promise.resolve(fn.call(...))]
    is fulfilled with a value (a plain return value, a promise that is
    already resolved, or the callback of a promisified function invoked with
    a result), rejected, or still pending when [end] returns. *)
Inductive outcome :=
| Fulfilled (v : value)
| Rejected (e : exn)
| Pending.

Record reply_fn := {
  fn_length : nat;                           (* fn.length *)
  fn_call : string -> value -> outcome;      (* fn.call(interceptor, path, body) *)
}.

(** An interceptor, as built by [lib/interceptor.js] and registered by
    [add]. *)
Module Interceptor.
Record t := mk {
  basePath : string;
  scope : Scope.t;
  options_allowUnmocked : bool;              (* options.allowUnmocked *)
  match_ : Options.t -> string -> bool;      (* match(options, body) *)
  matchHostName : Options.t -> bool;
  errorMessage : value;
  statusCode : value;
  rawHeaders : rawHeaders_t;
  headers : gmap string value;
  replyFunction : option reply_fn;
  fullReplyFunction : option reply_fn;
  body : value;
  delayInMs : Z;
  delayConnectionInMs : Z;
  socketDelayInMs : Z;
  (* mutated by the two modules *)
  counter : Z;
  interceptionCounter : Z;
  req : option nat;
  __nock_scope : Scope.t;
  __nock_scopeKey : value;
  __nock_scopeOptions : ScopeOptions.t;
  __nock_scopeHost : value;
  __nock_filteredScope : value;
}.
Definition set_counter (c : Z) (i : t) : t :=
  mk (basePath i) (scope i) (options_allowUnmocked i) (match_ i)
     (matchHostName i) (errorMessage i) (statusCode i) (rawHeaders i)
     (headers i) (replyFunction i) (fullReplyFunction i) (body i)
     (delayInMs i) (delayConnectionInMs i) (socketDelayInMs i)
     c (interceptionCounter i) (req i) (__nock_scope i) (__nock_scopeKey i)
     (__nock_scopeOptions i) (__nock_scopeHost i) (__nock_filteredScope i).
Definition set_interceptionCounter (c : Z) (i : t) : t :=
  mk (basePath i) (scope i) (options_allowUnmocked i) (match_ i)
     (matchHostName i) (errorMessage i) (statusCode i) (rawHeaders i)
     (headers i) (replyFunction i) (fullReplyFunction i) (body i)
     (delayInMs i) (delayConnectionInMs i) (socketDelayInMs i)
     (counter i) c (req i) (__nock_scope i) (__nock_scopeKey i)
     (__nock_scopeOptions i) (__nock_scopeHost i) (__nock_filteredScope i).
Definition set_req (r : option nat) (i : t) : t :=
  mk (basePath i) (scope i) (options_allowUnmocked i) (match_ i)
     (matchHostName i) (errorMessage i) (statusCode i) (rawHeaders i)
     (headers i) (replyFunction i) (fullReplyFunction i) (body i)
     (delayInMs i) (delayConnectionInMs i) (socketDelayInMs i)
     (counter i) (interceptionCounter i) r (__nock_scope i)
     (__nock_scopeKey i) (__nock_scopeOptions i) (__nock_scopeHost i)
     (__nock_filteredScope i).
(** The five assignments of [add]. *)
Definition set_registration (s : Scope.t) (key : string)
    (so : ScopeOptions.t) (host : value) (i : t) : t :=
  mk (basePath i) (scope i) (options_allowUnmocked i) (match_ i)
     (matchHostName i) (errorMessage i) (statusCode i) (rawHeaders i)
     (headers i) (replyFunction i) (fullReplyFunction i) (body i)
     (delayInMs i) (delayConnectionInMs i) (socketDelayInMs i)
     (counter i) 0 (req i) s (VString key) so host (__nock_filteredScope i).
(** Modelled from the spec: [getTotalDelay()] ([lib/interceptor.js] is not
    among the sources). "Total delay: sum of configured connection delay
    and body delay". *)
Definition getTotalDelay (i : t) : Z := delayInMs i + delayConnectionInMs i.
End Interceptor.

(** One entry of [allInterceptors]: [{ key, scopes, allowUnmocked }]. *)
Module Entry.
Record t := mk {
  key : string;
  scopes : list nat;
  allowUnmocked : bool;
}.
Definition set_scopes (l : list nat) (e : t) : t := mk (key e) l (allowUnmocked e).
Definition set_allowUnmocked (b : bool) (e : t) : t := mk (key e) (scopes e) b.
End Entry.

(** Which continuation a pending reply callback will resume. *)
Inductive continuation := K_responseBody | K_fullResponse.

(** The state of one overridden request: the fields of [req] that the module
    reads or writes, the variables of the closure [RequestOverrider], and the
    variables of the one activation of [end] ([end] runs at most once per
    request, guarded by [ended]). *)
Module Request.
Record t := mk {
  (* the req object *)
  aborted : option Z;                       (* req.aborted: a timestamp *)
  outgoingHeaders : gmap string value;      (* setHeader / getHeader *)
  path : string;
  method : string;
  headers : gmap string value;              (* req.headers *)
  isClientRequest : bool;                   (* req instanceof ClientRequest *)
  socket_authorized : bool;                 (* req.socket.authorized *)
  (* the closure of RequestOverrider *)
  options : Options.t;
  interceptors : string;     (* the scopes array of this registry entry *)
  requestBodyBuffers : list buffer;
  ended : bool;
  response : Response.t;
  (* the activation of end *)
  interceptor : option nat;
  responseBuffers : option (list value);
  awaiting : option (continuation * nat);   (* a reply promise is pending *)
  piping : bool;               (* data/end/error listeners on the body *)
  flowing : bool;              (* the body stream was resumed *)
}.
Definition set_aborted (a : option Z) (q : t) : t :=
  mk a (outgoingHeaders q) (path q) (method q) (headers q)
     (isClientRequest q) (socket_authorized q) (options q) (interceptors q)
     (requestBodyBuffers q) (ended q) (response q) (interceptor q)
     (responseBuffers q) (awaiting q) (piping q) (flowing q).
Definition set_outgoingHeaders (h : gmap string value) (q : t) : t :=
  mk (aborted q) h (path q) (method q) (headers q)
     (isClientRequest q) (socket_authorized q) (options q) (interceptors q)
     (requestBodyBuffers q) (ended q) (response q) (interceptor q)
     (responseBuffers q) (awaiting q) (piping q) (flowing q).
Definition set_headers (h : gmap string value) (q : t) : t :=
  mk (aborted q) (outgoingHeaders q) (path q) (method q) h
     (isClientRequest q) (socket_authorized q) (options q) (interceptors q)
     (requestBodyBuffers q) (ended q) (response q) (interceptor q)
     (responseBuffers q) (awaiting q) (piping q) (flowing q).
Definition set_options (o : Options.t) (q : t) : t :=
  mk (aborted q) (outgoingHeaders q) (path q) (method q) (headers q)
     (isClientRequest q) (socket_authorized q) o (interceptors q)
     (requestBodyBuffers q) (ended q) (response q) (interceptor q)
     (responseBuffers q) (awaiting q) (piping q) (flowing q).
Definition set_requestBodyBuffers (l : list buffer) (q : t) : t :=
  mk (aborted q) (outgoingHeaders q) (path q) (method q) (headers q)
     (isClientRequest q) (socket_authorized q) (options q) (interceptors q)
     l (ended q) (response q) (interceptor q)
     (responseBuffers q) (awaiting q) (piping q) (flowing q).
Definition set_ended (b : bool) (q : t) : t :=
  mk (aborted q) (outgoingHeaders q) (path q) (method q) (headers q)
     (isClientRequest q) (socket_authorized q) (options q) (interceptors q)
     (requestBodyBuffers q) b (response q) (interceptor q)
     (responseBuffers q) (awaiting q) (piping q) (flowing q).
Definition set_response (res : Response.t) (q : t) : t :=
  mk (aborted q) (outgoingHeaders q) (path q) (method q) (headers q)
     (isClientRequest q) (socket_authorized q) (options q) (interceptors q)
     (requestBodyBuffers q) (ended q) res (interceptor q)
     (responseBuffers q) (awaiting q) (piping q) (flowing q).
Definition set_interceptor (i : option nat) (q : t) : t :=
  mk (aborted q) (outgoingHeaders q) (path q) (method q) (headers q)
     (isClientRequest q) (socket_authorized q) (options q) (interceptors q)
     (requestBodyBuffers q) (ended q) (response q) i
     (responseBuffers q) (awaiting q) (piping q) (flowing q).
Definition set_responseBuffers (l : option (list value)) (q : t) : t :=
  mk (aborted q) (outgoingHeaders q) (path q) (method q) (headers q)
     (isClientRequest q) (socket_authorized q) (options q) (interceptors q)
     (requestBodyBuffers q) (ended q) (response q) (interceptor q)
     l (awaiting q) (piping q) (flowing q).
Definition set_awaiting (k : option (continuation * nat)) (q : t) : t :=
  mk (aborted q) (outgoingHeaders q) (path q) (method q) (headers q)
     (isClientRequest q) (socket_authorized q) (options q) (interceptors q)
     (requestBodyBuffers q) (ended q) (response q) (interceptor q)
     (responseBuffers q) k (piping q) (flowing q).
Definition set_piping (b : bool) (q : t) : t :=
  mk (aborted q) (outgoingHeaders q) (path q) (method q) (headers q)
     (isClientRequest q) (socket_authorized q) (options q) (interceptors q)
     (requestBodyBuffers q) (ended q) (response q) (interceptor q)
     (responseBuffers q) (awaiting q) b (flowing q).
Definition set_flowing (b : bool) (q : t) : t :=
  mk (aborted q) (outgoingHeaders q) (path q) (method q) (headers q)
     (isClientRequest q) (socket_authorized q) (options q) (interceptors q)
     (requestBodyBuffers q) (ended q) (response q) (interceptor q)
     (responseBuffers q) (awaiting q) (piping q) b.
End Request.

(** ** The event loop and what a caller observes *)

(** The closures that the module hands to [process.nextTick], to a promise,
    to [setImmediate] or to [setTimeout], each with the variables it
    captured. *)
Inductive task :=
| T_socket (r : nat)       (* RequestOverrider: emit socket, connect, ... *)
| T_continue (r : nat)     (* setHeader: req.emit('continue') *)
| T_drain (r : nat)        (* req.write: req.emit('drain') *)
| T_error (r : nat) (e : exn)       (* emitError: req.emit('error', error) *)
| T_emitError (r : nat) (e : exn)   (* emitError as timer or rejection handler *)
| T_continueWithResponseBody (r interceptor : nat) (responseBody : value)
| T_continueWithFullResponse (r interceptor : nat) (fullReplyResult : value)
| T_respond (r interceptor : nat) (responseBody : value)
| T__respond (r interceptor : nat) (responseBody : value)
| T_emitChunk (r interceptor : nat).

Inductive event :=
| Req_emit_socket (r : nat)
| Socket_emit_connect (r : nat)
| Socket_emit_secureConnect (r : nat)
| Req_emit_continue (r : nat)
| Req_emit_drain (r : nat)
| Req_emit_finish (r : nat)
| Req_emit_end (r : nat)
| Req_emit_abort (r : nat)
| Req_emit_error (r : nat) (e : exn)
| Req_emit_response (r : nat) (res : Response.t)
| Response_push (r : nat) (chunk : value)       (* [VNull] ends the body *)
| Response_emit_close (r : nat) (e : exn)
| Response_emit_error (r : nat) (e : exn)
| Socket_destroy (r : nat)
| Socket_applyDelay (r : nat) (ms : Z)
| Scope_emit_request (scope : nat) (r : nat) (i : nat) (requestBody : string)
| Scope_emit_replied (scope : nat) (r : nat) (i : nat)
| GlobalEmitter_emit_no_match (r : nat)
| ClientRequest_end (r : nat) (o : Options.t) (body : buffer)
| Body_pause (r : nat)
| Body_resume (r : nat).

Record World := mkWorld {
  allInterceptors : gmap string Entry.t;      (* intercept.js *)
  interceptorObjects : gmap nat Interceptor.t;
  requestObjects : gmap nat Request.t;
  nextTickQueue : list task;
  microtaskQueue : list task;
  immediateQueue : list task;
  timerQueue : list (Z * task);               (* due time, callback *)
  now : Z;
  trace : list event;
}.

Definition set_allInterceptors (m : gmap string Entry.t) (w : World) : World :=
  mkWorld m (interceptorObjects w) (requestObjects w) (nextTickQueue w)
    (microtaskQueue w) (immediateQueue w) (timerQueue w) (now w) (trace w).
Definition set_interceptorObjects (m : gmap nat Interceptor.t) (w : World) : World :=
  mkWorld (allInterceptors w) m (requestObjects w) (nextTickQueue w)
    (microtaskQueue w) (immediateQueue w) (timerQueue w) (now w) (trace w).
Definition set_requestObjects (m : gmap nat Request.t) (w : World) : World :=
  mkWorld (allInterceptors w) (interceptorObjects w) m (nextTickQueue w)
    (microtaskQueue w) (immediateQueue w) (timerQueue w) (now w) (trace w).
Definition set_nextTickQueue (q : list task) (w : World) : World :=
  mkWorld (allInterceptors w) (interceptorObjects w) (requestObjects w) q
    (microtaskQueue w) (immediateQueue w) (timerQueue w) (now w) (trace w).
Definition set_microtaskQueue (q : list task) (w : World) : World :=
  mkWorld (allInterceptors w) (interceptorObjects w) (requestObjects w)
    (nextTickQueue w) q (immediateQueue w) (timerQueue w) (now w) (trace w).
Definition set_immediateQueue (q : list task) (w : World) : World :=
  mkWorld (allInterceptors w) (interceptorObjects w) (requestObjects w)
    (nextTickQueue w) (microtaskQueue w) q (timerQueue w) (now w) (trace w).
Definition set_timerQueue (q : list (Z * task)) (w : World) : World :=
  mkWorld (allInterceptors w) (interceptorObjects w) (requestObjects w)
    (nextTickQueue w) (microtaskQueue w) (immediateQueue w) q (now w) (trace w).
Definition set_now (t : Z) (w : World) : World :=
  mkWorld (allInterceptors w) (interceptorObjects w) (requestObjects w)
    (nextTickQueue w) (microtaskQueue w) (immediateQueue w) (timerQueue w) t
    (trace w).
Definition set_trace (l : list event) (w : World) : World :=
  mkWorld (allInterceptors w) (interceptorObjects w) (requestObjects w)
    (nextTickQueue w) (microtaskQueue w) (immediateQueue w) (timerQueue w)
    (now w) l.

(** References are never dangling in JavaScript; a lookup of an object that
    the store does not hold yields these. *)
Definition no_scope : Scope.t := Scope.mk 0 false [].

#[global] Instance Interceptor_inhabited : Inhabited Interceptor.t :=
  populate (Interceptor.mk "" no_scope false (fun _ _ => false) (fun _ => false)
              VUndefined VUndefined [] ∅ None None VUndefined 0 0 0 0 0 None
              no_scope VUndefined (ScopeOptions.mk false None) VUndefined
              VUndefined).

#[global] Instance Request_inhabited : Inhabited Request.t :=
  populate (Request.mk None ∅ "" "" ∅ false false
              (Options.mk None None "" "" None VUndefined "" None) ""
              [] false Response.fresh None None None false false).

Definition the_interceptor (w : World) (i : nat) : Interceptor.t :=
  interceptorObjects w !!! i.
Definition the_request (w : World) (r : nat) : Request.t :=
  requestObjects w !!! r.

Definition update_interceptor (i : nat) (f : Interceptor.t -> Interceptor.t)
    (w : World) : World :=
  set_interceptorObjects (<[i := f (the_interceptor w i)]> (interceptorObjects w)) w.
Definition update_request (r : nat) (f : Request.t -> Request.t)
    (w : World) : World :=
  set_requestObjects (<[r := f (the_request w r)]> (requestObjects w)) w.
Definition update_response (r : nat) (f : Response.t -> Response.t)
    (w : World) : World :=
  update_request r (fun q => Request.set_response (f (Request.response q)) q) w.

(** [req.aborted] as a condition. *)
Definition req_aborted (w : World) (r : nat) : bool :=
  bool_decide (is_Some (Request.aborted (the_request w r))).

Definition emit (e : event) (w : World) : World :=
  set_trace (trace w ++ [e]) w.

Definition process_nextTick (t : task) (w : World) : World :=
  set_nextTickQueue (nextTickQueue w ++ [t]) w.
(** The reaction of a promise that is already settled. *)
Definition promise_then (t : task) (w : World) : World :=
  set_microtaskQueue (microtaskQueue w ++ [t]) w.
Definition setImmediate (t : task) (w : World) : World :=
  set_immediateQueue (immediateQueue w ++ [t]) w.
(** A timer fires no sooner than one millisecond after it was set. *)
Definition setTimeout (t : task) (ms : Z) (w : World) : World :=
  set_timerQueue (timerQueue w ++ [(now w + Z.max 1 ms, t)]) w.

(** [emitError]: the error is emitted on the next tick. *)
Definition emitError (r : nat) (error : exn) (w : World) : World :=
  process_nextTick (T_error r error) w.

(** ** Helpers that the two files use but do not define *)

(** [lib/common.js], [lib/socket.js] and the Node runtime ([Buffer], [JSON],
    [zlib], string coercion, calls of user functions). *)
Class Env := {
  Buffer_from : value -> value -> buffer;         (* Buffer.from(data, enc) *)
  Buffer_toString : buffer -> string -> string;   (* buf.toString(enc) *)
  String_of : value -> string;                    (* String(v) *)
  JSON_parse : string -> value;
  JSON_stringify : value -> value;
  zlib_gunzipSync : buffer -> buffer;
  zlib_inflateSync : buffer -> buffer;
  isUtf8Representable : buffer -> bool;
  isContentEncoded : gmap string value -> bool;
  isJSONContent : gmap string value -> bool;
  contentEncoding : gmap string value -> string -> bool;
  headersFieldNamesToLowerCase : gmap string value -> gmap string value;
  headersInputToRawArray : value -> exn + rawHeaders_t;
  headersArrayToObject : rawHeaders_t -> gmap string value;
  stringifyRequest : Options.t -> string -> string;
  Socket_authorized : string -> bool;             (* new Socket({ proto }) *)
  (* a functional header value called with (req, response, responseBody) *)
  call_header_function : nat -> nat -> Response.t -> value -> value;
  (* a callback passed to req.end, called without arguments *)
  call_callback : nat -> World -> World;
}.

(** ** lib/intercept.js: the registry *)

Definition update_entry (key : string) (f : Entry.t -> Entry.t) (w : World)
    : World :=
  set_allInterceptors (alter f key (allInterceptors w)) w.

(** [add(key, interceptor, scope, scopeOptions, host)]. *)
Definition add (key : string) (interceptor : nat) (scope : Scope.t)
    (scopeOptions : ScopeOptions.t) (host : value) (w : World) : World :=
  let w :=
    match allInterceptors w !! key with
    | Some _ => w
    | None =>
        set_allInterceptors (<[key := Entry.mk key [] false]> (allInterceptors w)) w
    end in
  let w :=
    update_interceptor interceptor
      (Interceptor.set_registration scope key scopeOptions host) w in
  let w :=
    if ScopeOptions.allowUnmocked scopeOptions
    then update_entry key (Entry.set_allowUnmocked true) w
    else w in
  update_entry key (fun e => Entry.set_scopes (Entry.scopes e ++ [interceptor]) e) w.

(** [interceptors.some((x, i) => x === interceptor ? interceptors.splice(i, 1)
    : false)]: the first occurrence is spliced out and the scan stops. *)
Fixpoint splice_first (interceptor : nat) (interceptors : list nat) : list nat :=
  match interceptors with
  | [] => []
  | thisInterceptor :: rest =>
      if (thisInterceptor =? interceptor)%nat then rest
      else thisInterceptor :: splice_first interceptor rest
  end.

(** [remove(interceptor)]. *)
Definition remove (interceptor : nat) (w : World) : World :=
  let ic := the_interceptor w interceptor in
  if Scope.shouldPersist (Interceptor.__nock_scope ic) then w
  else
    (* --interceptor.counter > 0 *)
    let c := Interceptor.counter ic - 1 in
    let w := update_interceptor interceptor (Interceptor.set_counter c) w in
    if 0 <? c then w
    else
      let basePath := Interceptor.basePath ic in
      update_entry basePath
        (fun e => Entry.set_scopes (splice_first interceptor (Entry.scopes e)) e) w.

(** [(allInterceptors[key] && allInterceptors[key].scopes) || []]. *)
Definition scopes_at (w : World) (key : string) : list nat :=
  match allInterceptors w !! key with
  | Some e => Entry.scopes e
  | None => []
  end.

(** The array of interceptors a request was created with: the [scopes] array
    of its registry entry, as it is now. *)
Definition interceptors_of (w : World) (r : nat) : list nat :=
  scopes_at w (Request.interceptors (the_request w r)).

(** ** lib/request_overrider.js *)

(** [v === n] for a number literal [n]. *)
Definition is_number (v : value) (n : Z) : bool :=
  match v with
  | VNumber (Finite q) => Qeq_bool q (inject_Z n)
  | _ => false
  end.

(** [s.split(':')[0]]. *)
Fixpoint split_colon_0 (s : string) : string :=
  match s with
  | EmptyString => EmptyString
  | String c s' => if Ascii.eqb c ":" then EmptyString else String c (split_colon_0 s')
  end.

Section RequestOverrider.
Context {env : Env}.

(** [getHeader(request, name)]. *)
Definition getHeader (w : World) (r : nat) (name : string) : value :=
  default VUndefined (Request.outgoingHeaders (the_request w r) !! toLowerCase name).

(** [setHeader(request, name, value)]. *)
Definition setHeader (r : nat) (name : string) (v : value) (w : World) : World :=
  let w :=
    update_request r
      (fun q => Request.set_outgoingHeaders
                  (<[toLowerCase name := v]> (Request.outgoingHeaders q)) q) w in
  if String.eqb name "expect" &&
     match v with VString s => String.eqb s "100-continue" | _ => false end
  then setImmediate (T_continue r) w
  else w.

(** [setRequestHeaders(req, options, interceptor)], [options] being the
    request's own. *)
Definition setRequestHeaders (r : nat) (interceptor : nat) (w : World) : World :=
  let ic := the_interceptor w interceptor in
  if truthy (Interceptor.__nock_filteredScope ic) &&
     truthy (Interceptor.__nock_scopeHost ic)
  then
    let w :=
      update_request r
        (fun q =>
           let o := Request.options q in
           Request.set_options
             (Options.set_headers
                (Some (<["host" := Interceptor.__nock_scopeHost ic]>
                         (default ∅ (Options.headers o)))) o) q) w in
    setHeader r "host" (Interceptor.__nock_scopeHost ic) w
  else
    let o := Request.options (the_request w r) in
    match Options.host o with
    | Some host =>
        if negb (String.eqb host "") && negb (truthy (getHeader w r "host"))
        then
          let hostHeader :=
            if is_number (Options.port o) 80 || is_number (Options.port o) 443
            then split_colon_0 host else host in
          setHeader r "host" (VString hostHeader) w
        else w
    | None => w
    end.

(** [_.forOwn(headers, (val, key) => setHeader(req, key, val))]. *)
Definition setHeaders_forOwn (r : nat) (h : gmap string value) (w : World)
    : World :=
  map_fold (fun key val w => setHeader r key val w) w h.

(** [RequestOverrider(req, options, interceptors, remove)] for the request
    object [r]; [remove] is the registry's. The statements up to the
    definition of [req.write] are run; the methods follow below. *)
Definition RequestOverrider (r : nat) (isClientRequest : bool)
    (options : Options.t) (interceptors : string) (w : World) : World :=
  let q :=
    Request.mk None ∅ (Options.path options) (Options.method options) ∅
      isClientRequest (Socket_authorized (Options.proto options))
      options interceptors [] false Response.fresh
      None None None false false in
  let w := set_requestObjects (<[r := q]> (requestObjects w)) w in
  let w :=
    match Options.headers options with
    | Some h =>
        let h := headersFieldNamesToLowerCase h in
        let w :=
          update_request r
            (fun q => Request.set_options
                        (Options.set_headers (Some h) (Request.options q)) q) w in
        setHeaders_forOwn r h w
    | None => w
    end in
  let w :=
    let o := Request.options (the_request w r) in
    match Options.auth o with
    | Some auth =>
        if negb (String.eqb auth "") &&
           match Options.headers o with
           | None => true
           | Some h => negb (truthy (default VUndefined (h !! "authorization")))
           end
        then
          setHeader r "Authorization"
            (VString ("Basic " +:+
                      Buffer_toString (Buffer_from (VString auth) VUndefined) "base64")) w
        else w
    | None => w
    end in
  process_nextTick (T_socket r) w.

(** [parseJSONRequestBody(req, requestBody)]. *)
Definition parseJSONRequestBody (w : World) (r : nat) (requestBody : string)
    : value :=
  let h := Request.headers (the_request w r) in
  if String.eqb requestBody "" || negb (isJSONContent h) then VString requestBody
  else
    let requestBody :=
      if contentEncoding h "gzip" then
        Buffer_toString (zlib_gunzipSync (Buffer_from (VString requestBody) (VString "hex"))) "utf8"
      else if contentEncoding h "deflate" then
        Buffer_toString (zlib_inflateSync (Buffer_from (VString requestBody) (VString "hex"))) "utf8"
      else requestBody in
    JSON_parse requestBody.

(** [Number.isInteger(status)]. *)
Definition isInteger (v : value) : bool :=
  match v with VNumber n => Number_isInteger n | _ => false end.

(** [parseFullReplyResult(response, fullReplyResult)]: the body, or the
    error thrown, and the response as the call leaves it. *)
Definition parseFullReplyResult (response : Response.t) (fullReplyResult : value)
    : (value + exn) * Response.t :=
  match fullReplyResult with
  | VArray l =>
      if (3 <? List.length l)%nat then
        (inr (Error "The array returned from the .reply callback contains too many values" None None),
         response)
      else
        (* const [status, body = '', headers] = fullReplyResult *)
        let status := nth 0 l VUndefined in
        let body :=
          match nth 1 l VUndefined with
          | VUndefined => VString ""
          | b => b
          end in
        let headers := nth 2 l VUndefined in
        if negb (isInteger status) then
          (inr (Error ("Invalid " +:+ typeof status +:+ " value for status code") None None),
           response)
        else
          let response := Response.set_statusCode status response in
          match headersInputToRawArray headers with
          | inl e => (inr e, response)
          | inr raw =>
              (inl body,
               Response.set_rawHeaders (Response.rawHeaders response ++ raw) response)
          end
  | _ =>
      (inr (Error "A single function provided to .reply MUST return an array" None None),
       response)
  end.

(** The three statements that follow a served match (lines 284-286 and
    442-444): [interceptor.interceptionCounter++; remove(interceptor);
    interceptor.discard()]. [discard] re-opens the file of a file-backed
    body when the interceptor stays registered; it touches nothing that
    is modelled. *)
Definition count_and_remove (interceptor : nat) (w : World) : World :=
  let w :=
    update_interceptor interceptor
      (fun ic => Interceptor.set_interceptionCounter
                   (Interceptor.interceptionCounter ic + 1) ic) w in
  remove interceptor w.

(** [emitChunk], the callback of [setImmediate] in [_respond]. *)
Definition emitChunk (r interceptor : nat) (w : World) : World :=
  let responseBuffers := default [] (Request.responseBuffers (the_request w r)) in
  (* const chunk = responseBuffers.shift() *)
  let chunk := hd VUndefined responseBuffers in
  let w := update_request r (Request.set_responseBuffers (Some (tl responseBuffers))) w in
  if truthy chunk then
    let w := emit (Response_push r chunk) w in
    setImmediate (T_emitChunk r interceptor) w
  else
    let w := emit (Response_push r VNull) w in
    let w := update_response r (Response.set_complete true) w in
    emit (Scope_emit_replied
            (Scope.id (Interceptor.scope (the_interceptor w interceptor)))
            r interceptor) w.

(** [_respond]. *)
Definition _respond (r interceptor : nat) (responseBody : value) (w : World)
    : World :=
  if req_aborted w r then w
  else
    let w := emit (Req_emit_response r (Request.response (the_request w r))) w in
    if isStream responseBody then
      let w := emit (Body_resume r) w in
      update_request r (Request.set_flowing true) w
    else
      (* responseBuffers = responseBuffers || [] *)
      let responseBuffers := default [] (Request.responseBuffers (the_request w r)) in
      let responseBuffers :=
        match responseBody with
        | VUndefined => responseBuffers
        | _ => responseBuffers ++ [responseBody]
        end in
      let w := update_request r (Request.set_responseBuffers (Some responseBuffers)) w in
      setImmediate (T_emitChunk r interceptor) w.

(** [respond]. *)
Definition respond (r interceptor : nat) (responseBody : value) (w : World)
    : World :=
  if req_aborted w r then w
  else
    let ic := the_interceptor w interceptor in
    let w :=
      if negb (Interceptor.socketDelayInMs ic =? 0) && (0 <? Interceptor.socketDelayInMs ic)
      then emit (Socket_applyDelay r (Interceptor.socketDelayInMs ic)) w
      else w in
    if negb (Interceptor.delayConnectionInMs ic =? 0) && (0 <? Interceptor.delayConnectionInMs ic)
    then
      let w := emit (Socket_applyDelay r (Interceptor.delayConnectionInMs ic)) w in
      setTimeout (T__respond r interceptor responseBody) (Interceptor.delayConnectionInMs ic) w
    else _respond r interceptor responseBody w.

(** The first block of [continueWithResponseBody] (lines 399-440): the
    response body is transformed if there is one. *)
Definition transformResponseBody (r interceptor : nat) (responseBody : value)
    (w : World) : value * World :=
  match responseBody with
  | VUndefined => (responseBody, w)
  | _ =>
      let ic := the_interceptor w interceptor in
      let responseBody :=
        if negb (Interceptor.delayInMs ic =? 0)
        then VDelayedBody (Interceptor.getTotalDelay ic) responseBody
        else responseBody in
      if isStream responseBody then
        (* pause(), and the listeners for data, end and error *)
        let w := emit (Body_pause r) w in
        (responseBody, update_request r (Request.set_piping true) w)
      else if negb (Buffer_isBuffer responseBody) then
        match responseBody with
        | VString _ => (VBuffer (Buffer_from responseBody VUndefined), w)
        | _ =>
            (JSON_stringify responseBody,
             update_response r
               (fun res => Response.set_rawHeaders
                  (Response.rawHeaders res ++ [("Content-Type", VString "application/json")])
                  res) w)
        end
      else (responseBody, w)
  end.

(** Functional header values are evaluated in place: [rawHeaders[i + 1] =
    value(req, response, responseBody)]. *)
Definition evaluateFunctionalHeaders (r : nat) (responseBody : value)
    (response : Response.t) : Response.t :=
  forEachHeader (Response.rawHeaders response)
    (fun v fieldName i response =>
       match v with
       | VFunction f =>
           Response.set_rawHeaders
             (<[Nat.div2 i := (fieldName, call_header_function f r response responseBody)]>
                (Response.rawHeaders response))
             response
       | _ => response
       end)
    response.

(** [continueWithResponseBody(responseBody)]. *)
Definition continueWithResponseBody (r interceptor : nat) (responseBody : value)
    (w : World) : World :=
  let '(responseBody, w) := transformResponseBody r interceptor responseBody w in
  let w := count_and_remove interceptor w in
  if req_aborted w r then w
  else
    let ic := the_interceptor w interceptor in
    let w :=
      update_response r
        (fun res =>
           Response.set_rawHeaders
             (Response.rawHeaders res ++
              selectDefaultHeaders (Response.rawHeaders res)
                (Scope._defaultReplyHeaders (Interceptor.scope ic)))
             res) w in
    let w := update_response r (evaluateFunctionalHeaders r responseBody) w in
    let w :=
      update_response r
        (fun res => Response.set_headers (headersArrayToObject (Response.rawHeaders res)) res)
        w in
    process_nextTick (T_respond r interceptor responseBody) w.

(** [continueWithFullResponse(fullReplyResult)]. *)
Definition continueWithFullResponse (r interceptor : nat) (fullReplyResult : value)
    (w : World) : World :=
  let '(result, response) :=
    parseFullReplyResult (Request.response (the_request w r)) fullReplyResult in
  let w := update_response r (fun _ => response) w in
  match result with
  | inr innerErr => emitError r innerErr w
  | inl responseBody => continueWithResponseBody r interceptor responseBody w
  end.

(** [Promise.resolve(fn.call(...)).then(k).catch(emitError)]. *)
Definition Promise_resolve_then_catch (r interceptor : nat) (o : outcome)
    (k : continuation) (w : World) : World :=
  match o with
  | Fulfilled v =>
      promise_then
        match k with
        | K_responseBody => T_continueWithResponseBody r interceptor v
        | K_fullResponse => T_continueWithFullResponse r interceptor v
        end w
  | Rejected e => promise_then (T_emitError r e) w
  | Pending => update_request r (Request.set_awaiting (Some (k, interceptor))) w
  end.

(** The matcher of [end]: [interceptors.find(i => i.match(options,
    requestBody))]. *)
Definition find_interceptor (w : World) (r : nat) (requestBody : string)
    : option nat :=
  List.find
    (fun i => Interceptor.match_ (the_interceptor w i)
                (Request.options (the_request w r)) requestBody)
    (interceptors_of w r).

(** [end], from "interceptor identified, starting mocking" on. *)
Definition end_mocking (r interceptor : nat) (requestBody : string)
    (isBinaryRequestBodyBuffer : bool) (w : World) : World :=
  (* We again set request headers, now for our matched interceptor. *)
  let w := setRequestHeaders r interceptor w in
  let w := update_interceptor interceptor (Interceptor.set_req (Some r)) w in
  let w := update_request r (fun q => Request.set_headers (Request.outgoingHeaders q) q) w in
  let ic := the_interceptor w interceptor in
  let w := emit (Scope_emit_request (Scope.id (Interceptor.scope ic)) r interceptor requestBody) w in
  match Interceptor.errorMessage ic with
  | VUndefined =>
      let w :=
        update_response r
          (fun res => Response.set_rawHeaders (Interceptor.rawHeaders ic)
                        (Response.set_statusCode (Interceptor.statusCode ic) res)) w in
      match Interceptor.replyFunction ic, Interceptor.fullReplyFunction ic with
      | Some fn, _ =>
          let parsedRequestBody := parseJSONRequestBody w r requestBody in
          (* a function of three parameters is promisified *)
          Promise_resolve_then_catch r interceptor
            (fn_call fn (Options.path (Request.options (the_request w r))) parsedRequestBody)
            K_responseBody w
      | None, Some fn =>
          let parsedRequestBody := parseJSONRequestBody w r requestBody in
          Promise_resolve_then_catch r interceptor
            (fn_call fn (Options.path (Request.options (the_request w r))) parsedRequestBody)
            K_fullResponse w
      | None, None =>
          if isContentEncoded (Interceptor.headers ic) && negb (isStream (Interceptor.body ic))
          then
            if negb (Interceptor.delayInMs ic =? 0) then
              emitError r
                (Error "Response delay of the body is currently not supported with content-encoded responses."
                   None None) w
            else
              let bufferData :=
                match Interceptor.body ic with
                | VArray l => l
                | b => [b]
                end in
              let responseBuffers :=
                map (fun data => VBuffer (Buffer_from data (VString "hex"))) bufferData in
              let w := update_request r (Request.set_responseBuffers (Some responseBuffers)) w in
              continueWithResponseBody r interceptor VUndefined w
          else
            let responseBody := Interceptor.body ic in
            let responseBody :=
              match responseBody with
              | VString s =>
                  if isBinaryRequestBodyBuffer then
                    let b := Buffer_from responseBody (VString "hex") in
                    (* a Buffer is never falsy *)
                    if (0 <? String.length s)%nat && (List.length b =? 0)%nat
                    then VBuffer (Buffer_from (Interceptor.body ic) (VString "utf8"))
                    else VBuffer b
                  else responseBody
              | _ => responseBody
              end in
            continueWithResponseBody r interceptor responseBody w
      end
  | errorMessage =>
      let w := count_and_remove interceptor w in
      let ic := the_interceptor w interceptor in
      let error :=
        if isObject errorMessage then Thrown errorMessage
        else Error (String_of errorMessage) None None in
      setTimeout (T_emitError r error) (Interceptor.getTotalDelay ic) w
  end.

(** [end], up to the matcher (lines 213-243): the request is marked as
    ended, path, headers and protocol are put back into the options, and
    the request headers are set for each interceptor. *)
Definition end_prepare (r : nat) (w : World) : World :=
  let w := update_request r (Request.set_ended true) w in
  let w :=
    update_request r
      (fun q =>
         let o := Request.options q in
         Request.set_options
           (Options.set_protocol (Some (Options.proto o +:+ ":"))
              (Options.set_headers (Some (Request.outgoingHeaders q))
                 (Options.set_path (Request.path q) o))) q) w in
  foldl (fun w interceptor => setRequestHeaders r interceptor w) w
    (interceptors_of w r).

(** The request body as [end] sees it. *)
Definition end_requestBodyBuffer (w : World) (r : nat) : buffer :=
  List.concat (Request.requestBodyBuffers (the_request w r)).
Definition end_isBinaryRequestBodyBuffer (w : World) (r : nat) : bool :=
  isUtf8Representable (end_requestBodyBuffer w r).
Definition end_requestBody (w : World) (r : nat) : string :=
  if end_isBinaryRequestBodyBuffer w r
  then Buffer_toString (end_requestBodyBuffer w r) "hex"
  else Buffer_toString (end_requestBodyBuffer w r) "utf8".

(** [end], when no interceptor matches. *)
Definition end_no_match (r : nat) (requestBody : string)
    (requestBodyBuffer : buffer) (w : World) : World :=
  let options := Request.options (the_request w r) in
  let w := emit (GlobalEmitter_emit_no_match r) w in
  let allowUnmocked :=
    existsb
      (fun i => Interceptor.matchHostName (the_interceptor w i) options &&
                Interceptor.options_allowUnmocked (the_interceptor w i))
      (interceptors_of w r) in
  if allowUnmocked && Request.isClientRequest (the_request w r) then
    (* new ClientRequest(options), then newReq.end(requestBodyBuffer) *)
    emit (ClientRequest_end r options requestBodyBuffer) w
  else
    emitError r
      (Error ("Nock: No match for request " +:+ stringifyRequest options requestBody)
         None (Some 404)) w.

(** [end]. *)
Definition end_ (r : nat) (w : World) : World :=
  let requestBodyBuffer := end_requestBodyBuffer w r in
  let isBinaryRequestBodyBuffer := end_isBinaryRequestBodyBuffer w r in
  let requestBody := end_requestBody w r in
  let w := end_prepare r w in
  let interceptor := find_interceptor w r requestBody in
  let w := update_request r (Request.set_interceptor interceptor) w in
  match interceptor with
  | None => end_no_match r requestBody requestBodyBuffer w
  | Some interceptor =>
      end_mocking r interceptor requestBody isBinaryRequestBodyBuffer w
  end.

(** [req.write(buffer, encoding, callback)]: the returned value and the
    world after the call. A callback is any function of the world. *)
Definition req_write (r : nat) (buffer encoding : value)
    (callback : option (World -> World)) (w : World) : bool * World :=
  let w :=
    if negb (req_aborted w r) then
      let w :=
        if truthy buffer then
          let buffer :=
            match buffer with
            | VBuffer b => b
            | _ => Buffer_from buffer encoding
            end in
          update_request r
            (fun q => Request.set_requestBodyBuffers
                        (Request.requestBodyBuffers q ++ [buffer]) q) w
        else w in
      match callback with
      | Some callback => callback w
      | None => w
      end
    else emitError r (Error "Request aborted" None None) w in
  let w := setImmediate (T_drain r) w in
  (false, w).

(** A function value called as a callback; other values are not
    functions. *)
Definition call_if_function (callback : value) (w : World) : World :=
  match callback with
  | VFunction f => call_callback f w
  | _ => w
  end.

(** [req.end(chunk, encoding, callback)]. *)
Definition req_end (r : nat) (chunk encoding callback : value) (w : World)
    : World :=
  let '(chunk, encoding, callback) :=
    match chunk, encoding with
    | VFunction _, _ => (VNull, encoding, chunk)
    | _, VFunction _ => (chunk, VNull, encoding)
    | _, _ => (chunk, encoding, callback)
    end in
  let w :=
    if negb (req_aborted w r) && negb (Request.ended (the_request w r)) then
      snd (req_write r chunk encoding
             (Some (fun w =>
                      let w := call_if_function callback w in
                      let w := end_ r w in
                      let w := emit (Req_emit_finish r) w in
                      emit (Req_emit_end r) w)) w)
    else w in
  if req_aborted w r then emitError r (Error "Request aborted" None None) w
  else w.

(** [req.flushHeaders()]. *)
Definition req_flushHeaders (r : nat) (w : World) : World :=
  let w :=
    if negb (req_aborted w r) && negb (Request.ended (the_request w r))
    then end_ r w else w in
  if req_aborted w r then emitError r (Error "Request aborted" None None) w
  else w.

(** [req.abort()]. *)
Definition req_abort (r : nat) (w : World) : World :=
  if req_aborted w r then w
  else
    (* req.aborted = Date.now() *)
    let w := update_request r (Request.set_aborted (Some (now w))) w in
    let w := if negb (Request.ended (the_request w r)) then end_ r w else w in
    let w := emit (Response_emit_close r (Error "" (Some "aborted") None)) w in
    let w := emit (Socket_destroy r) w in
    let w := emit (Req_emit_abort r) w in
    emitError r (Error "socket hang up" (Some "ECONNRESET") None) w.

(** ** Running the event loop *)

Definition run_task (t : task) (w : World) : World :=
  match t with
  | T_socket r =>
      let w := emit (Req_emit_socket r) w in
      let w := emit (Socket_emit_connect r) w in
      if Request.socket_authorized (the_request w r)
      then emit (Socket_emit_secureConnect r) w else w
  | T_continue r => emit (Req_emit_continue r) w
  | T_drain r => emit (Req_emit_drain r) w
  | T_error r e => emit (Req_emit_error r e) w
  | T_emitError r e => emitError r e w
  | T_continueWithResponseBody r i v => continueWithResponseBody r i v w
  | T_continueWithFullResponse r i v => continueWithFullResponse r i v w
  | T_respond r i v => respond r i v w
  | T__respond r i v => _respond r i v w
  | T_emitChunk r i => emitChunk r i w
  end.

(** The timer that is due first (the earliest set among equals). *)
Fixpoint next_timer (q : list (Z * task)) : option ((Z * task) * list (Z * task)) :=
  match q with
  | [] => None
  | t :: rest =>
      match next_timer rest with
      | Some (t', rest') =>
          if fst t' <? fst t then Some (t', t :: rest') else Some (t, rest)
      | None => Some (t, rest)
      end
  end.

(** One turn of the loop: the next-tick queue is served before the promise
    reactions, those before the immediates, and a timer fires when nothing
    else is ready. An idle loop stays as it is. *)
Definition run_next (w : World) : World :=
  match nextTickQueue w with
  | t :: rest => run_task t (set_nextTickQueue rest w)
  | [] =>
      match microtaskQueue w with
      | t :: rest => run_task t (set_microtaskQueue rest w)
      | [] =>
          match immediateQueue w with
          | t :: rest => run_task t (set_immediateQueue rest w)
          | [] =>
              match next_timer (timerQueue w) with
              | Some ((due, t), rest) =>
                  run_task t (set_now (Z.max (now w) due) (set_timerQueue rest w))
              | None => w
              end
          end
      end
  end.

Fixpoint run (n : nat) (w : World) : World :=
  match n with
  | O => w
  | S n => run n (run_next w)
  end.

Definition idle (w : World) : Prop :=
  nextTickQueue w = [] /\ microtaskQueue w = [] /\ immediateQueue w = [] /\
  timerQueue w = [].

(** ** What the environment does between turns *)

(** The promise of a pending reply callback settles. *)
Definition reply_settles (r : nat) (result : value + exn) (w : World) : World :=
  match Request.awaiting (the_request w r) with
  | Some (k, interceptor) =>
      let w := update_request r (Request.set_awaiting None) w in
      match result with
      | inl v => Promise_resolve_then_catch r interceptor (Fulfilled v) k w
      | inr e => Promise_resolve_then_catch r interceptor (Rejected e) k w
      end
  | None => w
  end.

(** The listeners that [continueWithResponseBody] puts on a body stream;
    a paused stream emits nothing. *)
Definition body_emits_data (r : nat) (d : value) (w : World) : World :=
  let q := the_request w r in
  if Request.piping q && Request.flowing q then emit (Response_push r d) w
  else w.

Definition body_emits_end (r : nat) (w : World) : World :=
  let q := the_request w r in
  if Request.piping q && Request.flowing q then
    let w := emit (Response_push r VNull) w in
    update_response r (Response.set_complete true) w
  else w.

Definition body_emits_error (r : nat) (err : exn) (w : World) : World :=
  let q := the_request w r in
  if Request.piping q then emit (Response_emit_error r err) w else w.

End RequestOverrider.

(** ** A reference environment

    Simple stand-ins for the helpers of [Env], to run the code on concrete
    inputs. *)
Module Reference.

Definition hex_value (c : ascii) : option N :=
  let n := N_of_ascii c in
  if ((48 <=? n) && (n <=? 57))%N then Some (n - 48)%N
  else if ((97 <=? n) && (n <=? 102))%N then Some (n - 87)%N
  else if ((65 <=? n) && (n <=? 70))%N then Some (n - 55)%N
  else None.

(** Decoding stops at the first pair that is not hexadecimal. *)
Fixpoint hex_decode (s : string) : buffer :=
  match s with
  | String a (String b rest) =>
      match hex_value a, hex_value b with
      | Some x, Some y =>
          match Byte.of_N (16 * x + y) with
          | Some byte => byte :: hex_decode rest
          | None => []
          end
      | _, _ => []
      end
  | _ => []
  end.

Definition hex_digit (n : N) : ascii :=
  if (n <? 10)%N then ascii_of_N (48 + n) else ascii_of_N (87 + n).

Fixpoint hex_encode (b : buffer) : string :=
  match b with
  | [] => EmptyString
  | byte :: rest =>
      let n := Byte.to_N byte in
      String (hex_digit (n / 16)) (String (hex_digit (n mod 16)) (hex_encode rest))
  end.

Definition is_string (v : value) (s : string) : bool :=
  match v with VString s' => String.eqb s' s | _ => false end.

Definition lookup_header (h : gmap string value) (name : string) : value :=
  default VUndefined (h !! name).

Definition raw_of_array : list value -> option rawHeaders_t :=
  fix go l :=
    match l with
    | [] => Some []
    | VString name :: v :: rest =>
        match go rest with
        | Some raw => Some ((name, v) :: raw)
        | None => None
        end
    | _ => None
    end.

#[export] Instance env : Env := {|
  Buffer_from v enc :=
    match v with
    | VBuffer b => b
    | VString s => if is_string enc "hex" then hex_decode s else list_byte_of_string s
    | _ => []
    end;
  Buffer_toString b enc :=
    if String.eqb enc "hex" then hex_encode b else string_of_list_byte b;
  String_of v := match v with VString s => s | _ => typeof v end;
  JSON_parse s := VString s;
  JSON_stringify v :=
    match v with
    | VNull => VString "null"
    | VBool true => VString "true"
    | VBool false => VString "false"
    | VObject [] => VString "{}"
    | VArray [] => VString "[]"
    | VFunction _ => VUndefined
    | _ => VString "{...}"
    end;
  zlib_gunzipSync b := b;
  zlib_inflateSync b := b;
  isUtf8Representable b := forallb (fun byte => (Byte.to_N byte <? 128)%N) b;
  isContentEncoded h :=
    match lookup_header h "content-encoding" with
    | VString s => negb (String.eqb s "")
    | _ => false
    end;
  isJSONContent h := is_string (lookup_header h "content-type") "application/json";
  contentEncoding h enc := is_string (lookup_header h "content-encoding") enc;
  headersFieldNamesToLowerCase h :=
    list_to_map (map (fun kv => (toLowerCase (fst kv), snd kv)) (map_to_list h));
  headersInputToRawArray v :=
    match v with
    | VUndefined => inr []
    | VObject o => inr o
    | VArray l =>
        match raw_of_array l with
        | Some raw => inr raw
        | None =>
            inl (Error "Raw headers must be provided as an array with an even number of items. [fieldName, value, ...]" None None)
        end
    | _ =>
        inl (Error "Headers must be provided as an array of raw values, a Map, or a plain Object." None None)
    end;
  headersArrayToObject raw :=
    foldl (fun h kv => <[toLowerCase (fst kv) := snd kv]> h) ∅ raw;
  stringifyRequest o body := Options.method o +:+ " " +:+ Options.path o;
  Socket_authorized proto := String.eqb proto "https";
  call_header_function f r res body := VString "computed";
  call_callback f w := w;
|}.

(** An empty world: nothing registered, no request, an idle loop. *)
Definition empty_world : World := mkWorld ∅ ∅ ∅ [] [] [] [] 0 [].

(** An interceptor for [GET http://x.test/a] that replies 200, before it
    is registered. *)
Definition interceptor_for (scope : Scope.t) (rawHeaders : list (string * value))
    (replyFunction fullReplyFunction : option reply_fn) (body : value)
    (delayInMs counter : Z) : Interceptor.t :=
  Interceptor.mk "http://x.test" scope false
    (fun o _ => String.eqb (Options.method o) "GET" && String.eqb (Options.path o) "/a")
    (fun o => match Options.host o with Some h => String.eqb h "x.test" | None => false end)
    VUndefined
    match fullReplyFunction with Some _ => VNull | None => VInt 200 end
    rawHeaders (headersArrayToObject rawHeaders)
    replyFunction fullReplyFunction body delayInMs 0 0 counter 0 None
    scope VUndefined (ScopeOptions.mk false None) VUndefined VUndefined.

Definition scope0 : Scope.t := Scope.mk 0 false [].

(** [.reply(200, body)], to be used [counter] times. *)
Definition static_reply (body : value) (counter : Z) : Interceptor.t :=
  interceptor_for scope0 [] None None body 0 counter.

(** [.reply(200, () => body)], to be used [counter] times. *)
Definition callback_reply (body : value) (counter : Z) : Interceptor.t :=
  interceptor_for scope0 []
    (Some {| fn_length := 2; fn_call := fun _ _ => Fulfilled body |}) None
    VUndefined 0 counter.

(** [.reply(200, chunks, { 'Content-Encoding': 'gzip' })], with a body
    delay. *)
Definition encoded_reply (chunks : value) (delayInMs : Z) : Interceptor.t :=
  interceptor_for scope0 [("Content-Encoding", VString "gzip")] None None
    chunks delayInMs 1.

Definition get_a : Options.t :=
  Options.mk None None "/a" "GET" (Some "x.test") (VInt 80) "http" None.

(** [interceptor] is created as object 0 and registered; nothing else is. *)
Definition world_with (interceptor : Interceptor.t) : World :=
  add "http://x.test" 0 (Interceptor.scope interceptor) (ScopeOptions.mk false None)
    (VString "x.test")
    (set_interceptorObjects {[ 0%nat := interceptor ]} empty_world).

(** Two interceptors, objects 0 and 1, registered in this order. *)
Definition world_with_two (first second : Interceptor.t) : World :=
  add "http://x.test" 1 (Interceptor.scope second) (ScopeOptions.mk false None)
    (VString "x.test")
    (add "http://x.test" 0 (Interceptor.scope first) (ScopeOptions.mk false None)
       (VString "x.test")
       (set_interceptorObjects {[ 0%nat := first; 1%nat := second ]} empty_world)).

(** Request [r] for [GET http://x.test/a] is created. *)
Definition request (r : nat) (w : World) : World :=
  RequestOverrider r true get_a "http://x.test" w.

(** [req.end()]. *)
Definition ended (r : nat) (w : World) : World :=
  req_end r VUndefined VUndefined VUndefined w.

(** Request 1 is created and its socket events have been emitted: the
    loop is idle. *)
Definition one_request (interceptor : Interceptor.t) : World :=
  run 1 (request 1 (world_with interceptor)).

(** The requests that were given a response, in the order of the events. *)
Fixpoint responded (tr : list event) : list nat :=
  match tr with
  | [] => []
  | Req_emit_response r _ :: tr => r :: responded tr
  | _ :: tr => responded tr
  end.

(** What was pushed to the response of [r], in the order of the events. *)
Fixpoint pushed (r : nat) (tr : list event) : list value :=
  match tr with
  | [] => []
  | Response_push r' chunk :: tr =>
      if (r' =? r)%nat then chunk :: pushed r tr else pushed r tr
  | _ :: tr => pushed r tr
  end.

(** The events from the first [abort] of [r] on. *)
Fixpoint since_abort (r : nat) (tr : list event) : list event :=
  match tr with
  | [] => []
  | Req_emit_abort r' :: tr' =>
      if (r' =? r)%nat then tr else since_abort r tr'
  | _ :: tr => since_abort r tr
  end.

End Reference.

(** * Properties *)

(** ** Notions used to state them *)

(** A header of that name, compared without regard to case, is present. *)
Definition header_present (name : string) (hs : rawHeaders_t) : Prop :=
  exists name' v, (name', v) ∈ hs /\ toLowerCase name' = toLowerCase name.

#[global] Instance header_present_dec name hs : Decision (header_present name hs).
Proof.
  refine (cast_if (decide (Exists (fun p => toLowerCase (fst p) = toLowerCase name) hs))).
  - abstract (apply Exists_exists in e as [[n' v] [Hin Heq]]; by exists n', v).
  - abstract (intros (n' & v & Hin & Heq); apply n, Exists_exists; by exists (n', v)).
Defined.

(** The raw headers of the response of request [r]. *)
Definition rawHeaders_of (w : World) (r : nat) : list (string * value) :=
  Response.rawHeaders (Request.response (the_request w r)).

(** The fields of an interceptor that [remove] and the request leave alone. *)
Definition static (ic : Interceptor.t) : Interceptor.t :=
  Interceptor.set_req None
    (Interceptor.set_interceptionCounter 0 (Interceptor.set_counter 0 ic)).

(** Only the request objects differ. *)
Definition only_requests_differ (w w' : World) : Prop :=
  allInterceptors w' = allInterceptors w /\
  interceptorObjects w' = interceptorObjects w /\
  nextTickQueue w' = nextTickQueue w /\
  microtaskQueue w' = microtaskQueue w /\
  immediateQueue w' = immediateQueue w /\
  timerQueue w' = timerQueue w /\
  now w' = now w /\
  trace w' = trace w.

(** A request without what [end] rewrites before it looks for a match:
    the options, the headers, [ended] and the matched interceptor. *)
Definition skeleton (q : Request.t) : Request.t :=
  Request.set_interceptor None
    (Request.set_ended false
       (Request.set_headers ∅
          (Request.set_outgoingHeaders ∅
             (Request.set_options (Options.mk None None "" "" None VUndefined "" None) q)))).

(** The error of a body delay on a content-encoded reply. *)
Definition unsupported_delay : exn :=
  Error "Response delay of the body is currently not supported with content-encoded responses."
    None None.


(** What the steps of a response depend on, and what they change: the four
    queues, the trace, the request not being aborted, its pending buffers,
    and the interceptor as it was registered. *)
Definition looks_like (r i : nat) (ic : Interceptor.t) (w : World)
    (ticks micro imm : list task) (timers : list (Z * task))
    (tr : list event) (buffers : option (list value)) : Prop :=
  nextTickQueue w = ticks /\
  microtaskQueue w = micro /\
  immediateQueue w = imm /\
  timerQueue w = timers /\
  trace w = tr /\
  req_aborted w r = false /\
  Request.responseBuffers (the_request w r) = buffers /\
  static (the_interceptor w i) = static ic.

(** An artificial delay applied to the socket. *)
Definition is_delay (r : nat) (e : event) : Prop := exists ms, e = Socket_applyDelay r ms.

(** ** Notions for the further properties *)

(** One world follows another: no request changed its [aborted] mark, no
    request that had ended is open again, the trace only grew, and a
    response event was only emitted for a request that was not aborted. *)
Definition follows (w w' : World) : Prop :=
  (forall r, Request.aborted (the_request w' r) = Request.aborted (the_request w r)) /\
  (forall r, Request.ended (the_request w r) = true ->
             Request.ended (the_request w' r) = true) /\
  exists evs,
    trace w' = trace w ++ evs /\
    forall r res, Req_emit_response r res ∈ evs -> req_aborted w r = false.

(** The responses that were emitted for request [r], in the order of the
    events. *)
Fixpoint responses_to (r : nat) (tr : list event) : list Response.t :=
  match tr with
  | [] => []
  | Req_emit_response r' res :: tr =>
      if (r' =? r)%nat then res :: responses_to r tr else responses_to r tr
  | _ :: tr => responses_to r tr
  end.

(** [req.write(b)] for each buffer of [bs] in turn, without callback. *)
Definition write_buffers {env : Env} (r : nat) (bs : list (list Byte.byte)) (w : World)
    : World :=
  foldl (fun w b => snd (req_write r (VBuffer b) VUndefined None w)) w bs.

(** The error of a request that no interceptor accepts. *)
Definition no_match_error {env : Env} (o : Options.t) (requestBody : string) : exn :=
  Error ("Nock: No match for request " +:+ stringifyRequest o requestBody) None (Some 404).

(** [interceptors.some(i => i.matchHostName(options) && i.options.allowUnmocked)]
    when request [r] ends in [w]. *)
Definition some_allowUnmocked {env : Env} (r : nat) (w : World) : bool :=
  existsb
    (fun i => Interceptor.matchHostName (the_interceptor w i)
                (Request.options (the_request (end_prepare r w) r)) &&
              Interceptor.options_allowUnmocked (the_interceptor w i))
    (interceptors_of w r).

(** A string body is sent as [Buffer.from(body)], a buffer as it is. *)
Definition body_chunk {env : Env} (body : value) : value :=
  match body with
  | VString _ => VBuffer (Buffer_from body VUndefined)
  | _ => body
  end.

(** The registry and every interceptor are as before, apart from the
    request an interceptor last matched. *)
Definition untouched_registry (w w' : World) : Prop :=
  allInterceptors w' = allInterceptors w /\
  forall j, Interceptor.set_req None (the_interceptor w' j) =
            Interceptor.set_req None (the_interceptor w j).

(** The 'request' event of the scope of interceptor [i], for request [r]
    ending in [w]. *)
Definition request_event {env : Env} (w : World) (r i : nat) : event :=
  Scope_emit_request (Scope.id (Interceptor.scope (the_interceptor w i))) r i
    (end_requestBody w r).

(** The world is as [w] is, apart from the request objects and the request
    that interceptor [i] matched last. *)
Definition matched (r i : nat) (w w' : World) : Prop :=
  allInterceptors w' = allInterceptors w /\
  interceptorObjects w' =
    <[i := Interceptor.set_req (Some r) (the_interceptor w i)]> (interceptorObjects w) /\
  nextTickQueue w' = nextTickQueue w /\
  microtaskQueue w' = microtaskQueue w /\
  immediateQueue w' = immediateQueue w /\
  timerQueue w' = timerQueue w /\
  now w' = now w /\
  trace w' = trace w /\
  req_aborted w' r = req_aborted w r /\
  Request.responseBuffers (the_request w' r) = Request.responseBuffers (the_request w r) /\
  Request.awaiting (the_request w' r) = Request.awaiting (the_request w r).

(** The reply of interceptor [ic] is computed by the callback [fn], and
    [k] continues with its result. *)
Definition replies_with (ic : Interceptor.t) (fn : reply_fn) (k : continuation) : Prop :=
  Interceptor.errorMessage ic = VUndefined /\
  match k with
  | K_responseBody => Interceptor.replyFunction ic = Some fn
  | K_fullResponse =>
      Interceptor.replyFunction ic = None /\ Interceptor.fullReplyFunction ic = Some fn
  end.

(** The reply of interceptor [ic] is its recorded body, sent as it is. *)
Definition replies_plainly (ic : Interceptor.t) : Prop :=
  Interceptor.errorMessage ic = VUndefined /\
  Interceptor.replyFunction ic = None /\
  Interceptor.fullReplyFunction ic = None.


(** A header value that asks for a 'continue' event. *)
Definition expects_continue (v : option value) : bool :=
  match v with
  | Some (VString s) => String.eqb s "100-continue"
  | _ => false
  end.

(** The headers of the options as [RequestOverrider] uses them. *)
Definition option_headers {env : Env} (options : Options.t) : gmap string value :=
  match Options.headers options with
  | Some h => headersFieldNamesToLowerCase h
  | None => ∅
  end.

(** [Authorization: Basic ...] is added for [options.auth] unless the
    options bring their own. *)
Definition basic_auth {env : Env} (options : Options.t) : option value :=
  match Options.auth options with
  | Some auth =>
      if negb (String.eqb auth "") &&
         negb (truthy (default VUndefined (option_headers options !! "authorization")))
      then Some (VString ("Basic " +:+
                          Buffer_toString (Buffer_from (VString auth) VUndefined) "base64"))
      else None
  | None => None
  end.

(** [allInterceptors[key].allowUnmocked], falsy where there is no entry
    and where the flag was never set. *)
Definition entry_allowUnmocked (w : World) (key : string) : bool :=
  match allInterceptors w !! key with
  | Some e => Entry.allowUnmocked e
  | None => false
  end.

(** The reply of [ic] is sent as a stream: its body is one, or it is
    wrapped into a [DelayedBody]. *)
Definition streams {env : Env} (ic : Interceptor.t) : Prop :=
  isStream (Interceptor.body ic) = true \/
  (isContentEncoded (Interceptor.headers ic) = false /\
   Interceptor.delayInMs ic <> 0 /\
   Interceptor.body ic <> VUndefined).

(** ** lib/intercept.js: the interceptors of a request *)

(** [String.prototype.toUpperCase], on the ASCII letters. *)
Definition ascii_toUpperCase (c : ascii) : ascii :=
  let n := nat_of_ascii c in
  if ((97 <=? n) && (n <=? 122))%nat then ascii_of_nat (n - 32) else c.

Fixpoint toUpperCase (s : string) : string :=
  match s with
  | EmptyString => EmptyString
  | String c s' => String (ascii_toUpperCase c) (toUpperCase s')
  end.

(** What [lib/intercept.js] uses of [lib/common.js], of [lib/interceptor.js]
    and of regular expressions. *)
Class Lib := {
  (* common.normalizeRequestOptions(options), which works in place *)
  normalizeRequestOptions : Options.t -> Options.t;
  (* common.matchStringOrRegexp(target, pattern) *)
  matchStringOrRegexp : string -> string -> bool;
  (* interceptor.matchAddress(options) *)
  matchAddress : Interceptor.t -> Options.t -> bool;
  (* interceptor._key *)
  Interceptor__key : Interceptor.t -> string;
  (* new RegExp(source).test(s) *)
  RegExp_test : string -> string -> bool;
  (* matcher.test(v), for a matcher that was passed in *)
  call_test : value -> value -> bool;
}.

(** [options.proto = proto]. *)
Definition Options_set_proto (p : string) (o : Options.t) : Options.t :=
  Options.mk (Options.headers o) (Options.auth o) (Options.path o) (Options.method o)
    (Options.host o) (Options.port o) p (Options.protocol o).

(** [scope.__nock_filteredScope = v]. *)
Definition Interceptor_set___nock_filteredScope (v : value) (i : Interceptor.t)
    : Interceptor.t :=
  Interceptor.mk (Interceptor.basePath i) (Interceptor.scope i)
    (Interceptor.options_allowUnmocked i) (Interceptor.match_ i)
    (Interceptor.matchHostName i) (Interceptor.errorMessage i) (Interceptor.statusCode i)
    (Interceptor.rawHeaders i) (Interceptor.headers i) (Interceptor.replyFunction i)
    (Interceptor.fullReplyFunction i) (Interceptor.body i) (Interceptor.delayInMs i)
    (Interceptor.delayConnectionInMs i) (Interceptor.socketDelayInMs i)
    (Interceptor.counter i) (Interceptor.interceptionCounter i) (Interceptor.req i)
    (Interceptor.__nock_scope i) (Interceptor.__nock_scopeKey i)
    (Interceptor.__nock_scopeOptions i) (Interceptor.__nock_scopeHost i) v.

(** [`${options.host}`]. *)
Definition host_text (o : Options.t) : string := default "undefined" (Options.host o).

(** [`${options.proto}://${options.host}`]. *)
Definition basePath_of (o : Options.t) : string :=
  Options.proto o +:+ "://" +:+ host_text o.

(** The array that [interceptorsFor] returns: the [scopes] array of the
    entry [key] (the array itself), or the array made up for an entry that
    has no interceptor left and allows unmocked requests, whose one element
    has [options.allowUnmocked] and a [matchAddress] that returns false. *)
Inductive matchingInterceptor :=
| Scopes_of (key : string)
| Only_allowUnmocked.

(** [filteringScope && filteringScope(basePath)] for an interceptor. *)
Definition filteringScope_accepts (w : World) (basePath : string) (scope : nat) : bool :=
  match ScopeOptions.filteringScope
          (Interceptor.__nock_scopeOptions (the_interceptor w scope)) with
  | Some filteringScope => filteringScope basePath
  | None => false
  end.

(** The two loops of [interceptorsFor]: [_.each(allInterceptors, ...)] over
    the entries in the order [keys] of their keys, and inside it
    [_.each(interceptor.scopes, ...)]; both stop at the first hit. *)
Fixpoint interceptorsFor_each {lib : Lib} (keys : list string) (basePath : string)
    (w : World) : option matchingInterceptor * World :=
  match keys with
  | [] => (None, w)
  | key :: keys =>
      match allInterceptors w !! key with
      | None => interceptorsFor_each keys basePath w
      | Some interceptor =>
          match List.find (filteringScope_accepts w basePath) (Entry.scopes interceptor) with
          | Some scope =>
              (Some (Scopes_of key),
               update_interceptor scope
                 (fun ic => Interceptor_set___nock_filteredScope
                              (Interceptor.__nock_scopeKey ic) ic) w)
          | None =>
              if matchStringOrRegexp basePath (Entry.key interceptor) then
                if (List.length (Entry.scopes interceptor) =? 0)%nat &&
                   Entry.allowUnmocked interceptor
                then (Some Only_allowUnmocked, w)
                else (Some (Scopes_of key), w)
              else interceptorsFor_each keys basePath w
          end
      end
  end.

(** [interceptorsFor(options)], [keys] being the keys of [allInterceptors]
    in the order of the object: the array found, if any, the options as
    they were normalized, and the world. *)
Definition interceptorsFor {lib : Lib} (keys : list string) (options : Options.t)
    (w : World) : option matchingInterceptor * Options.t * World :=
  let options := normalizeRequestOptions options in
  let basePath := basePath_of options in
  let '(matchingInterceptor, w) := interceptorsFor_each keys basePath w in
  (matchingInterceptor, options, w).

(** The loop of [removeInterceptor]: the first interceptor with the key is
    spliced out. *)
Fixpoint splice_key {lib : Lib} (w : World) (key : string) (scopes : list nat)
    : list nat :=
  match scopes with
  | [] => []
  | interceptor :: rest =>
      if String.eqb (Interceptor__key (the_interceptor w interceptor)) key then rest
      else interceptor :: splice_key w key rest
  end.

(** The first half of [removeInterceptor(options)], for an interceptor or
    for request options: the base URL and the key that are looked for. *)
Definition removeInterceptor_target {lib : Lib} (options : nat + Options.t) (w : World)
    : string * string :=
  match options with
  | inl interceptor =>
      (Interceptor.basePath (the_interceptor w interceptor),
       Interceptor__key (the_interceptor w interceptor))
  | inr options =>
      let proto := if String.eqb (Options.proto options) "" then "http"
                   else Options.proto options in
      let options := normalizeRequestOptions options in
      let baseUrl := proto +:+ "://" +:+ host_text options in
      let method := if String.eqb (Options.method options) "" then "GET"
                    else toUpperCase (Options.method options) in
      (baseUrl,
       method +:+ " " +:+ baseUrl +:+
       (if String.eqb (Options.path options) "" then "/" else Options.path options))
  end.

(** [removeInterceptor(options)]: the returned value and the world.
    [interceptor.scope.remove] works on the scope's own table, which is not
    part of the registry. *)
Definition removeInterceptor {lib : Lib} (options : nat + Options.t) (w : World)
    : bool * World :=
  let '(baseUrl, key) := removeInterceptor_target options w in
  match allInterceptors w !! baseUrl with
  | Some e =>
      if (0 <? List.length (Entry.scopes e))%nat then
        (true,
         update_entry baseUrl
           (fun e => Entry.set_scopes (splice_key w key (Entry.scopes e)) e) w)
      else (false, w)
  | None => (false, w)
  end.

(** ** lib/intercept.js: real requests *)

(** The value of [allowNetConnect] when it is set: [new RegExp(matcher)],
    the matcher that was passed in, or [/.*/]. *)
Inductive netConnectMatcher :=
| New_RegExp (source : string)
| Given_matcher (matcher : value)
| Every_host.

(** [_.isObject(matcher) && _.isFunction(matcher.test)]. *)
Definition has_test_function (matcher : value) : bool :=
  match matcher with
  | VObject o =>
      match List.find (fun p => String.eqb (fst p) "test") o with
      | Some (_, VFunction _) => true
      | _ => false
      end
  | _ => false
  end.

(** [enableNetConnect(matcher)]: the new value of [allowNetConnect]. *)
Definition enableNetConnect (matcher : value) : option netConnectMatcher :=
  match matcher with
  | VString s => Some (New_RegExp s)
  | _ => if has_test_function matcher then Some (Given_matcher matcher) else Some Every_host
  end.

(** [disableNetConnect()]: the new value of [allowNetConnect]. *)
Definition disableNetConnect : option netConnectMatcher := None.

(** [allowNetConnect.test(options.host)]; [/.*/] matches every text. *)
Definition netConnectMatcher_test {lib : Lib} (m : netConnectMatcher) (o : Options.t) : bool :=
  match m with
  | New_RegExp source => RegExp_test source (host_text o)
  | Given_matcher matcher =>
      call_test matcher
        match Options.host o with Some h => VString h | None => VUndefined end
  | Every_host => true
  end.

(** [isEnabledForNetConnect(options)]: the answer and the options as they
    were normalized. *)
Definition isEnabledForNetConnect {lib : Lib} (allowNetConnect : option netConnectMatcher)
    (options : Options.t) : bool * Options.t :=
  let options := normalizeRequestOptions options in
  (match allowNetConnect with
   | Some m => netConnectMatcher_test m options
   | None => false
   end, options).

(** [isOff()] and [isOn()], [NOCK_OFF] being [process.env.NOCK_OFF]. *)
Definition isOff (NOCK_OFF : option string) : bool :=
  match NOCK_OFF with Some s => String.eqb s "true" | None => false end.
Definition isOn (NOCK_OFF : option string) : bool := negb (isOff NOCK_OFF).

(** The double quote. *)
Definition quote : string := String (ascii_of_nat 34) EmptyString.

(** [new NetConnectNotAllowedError(host, path)]. *)
Definition NetConnectNotAllowedError (o : Options.t) : exn :=
  Error ("Nock: Disallowed net connect for " +:+ quote +:+ host_text o +:+
         Options.path o +:+ quote)
    (Some "ENETUNREACH") None.

(** [new ErroringClientRequest(error)], the new object being [r]. *)
Definition ErroringClientRequest (r : nat) (error : exn) (w : World) : World :=
  process_nextTick (T_error r error) w.

(** What the override of [http.request] and [https.request] returns. *)
Inductive request_made :=
(* overriddenRequest(options, callback), the request function of the
   module; for https, http.ClientRequest is the original one for the call *)
| Real_request (options : Options.t) (withOriginalClientRequest : bool)
(* new http.ClientRequest(options, callback) *)
| Mocked_request (options : Options.t)
(* new ErroringClientRequest(error) *)
| Failing_request (error : exn).

(** The argument of the 'no match' event of the global emitter. *)
Inductive no_match := No_match_for_request | No_match_for_options.

(** The function that [activate] passes to [common.overrideRequests], for
    options that are not empty: the request that is returned, the 'no
    match' event if there is one, and the world. [r] is the object made when
    the request fails. *)
Definition activate_request {lib : Lib} (keys : list string) (NOCK_OFF : option string)
    (allowNetConnect : option netConnectMatcher) (r : nat) (proto : string)
    (options : Options.t) (w : World) : request_made * option no_match * World :=
  let options := Options_set_proto proto options in
  let '(interceptors, options, w) := interceptorsFor keys options w in
  match (if isOn NOCK_OFF then interceptors else None) with
  | Some interceptors =>
      let matches :=
        match interceptors with
        | Scopes_of key =>
            existsb (fun i => matchAddress (the_interceptor w i) options) (scopes_at w key)
        | Only_allowUnmocked => false
        end in
      let allowUnmocked :=
        match interceptors with
        | Scopes_of key =>
            existsb (fun i => Interceptor.options_allowUnmocked (the_interceptor w i))
              (scopes_at w key)
        | Only_allowUnmocked => true
        end in
      if negb matches && allowUnmocked
      then (Real_request options (String.eqb proto "https"), Some No_match_for_request, w)
      else (Mocked_request options, None, w)
  | None =>
      let '(enabled, options') := isEnabledForNetConnect allowNetConnect options in
      if isOff NOCK_OFF then (Real_request options false, Some No_match_for_options, w)
      else if enabled then (Real_request options' false, Some No_match_for_options, w)
      else
        (Failing_request (NetConnectNotAllowedError options'), Some No_match_for_options,
         ErroringClientRequest r (NetConnectNotAllowedError options') w)
  end.

(** An entry is hit by a base path: one of its interceptors has a
    filtering scope that accepts it, or its key matches. *)
Definition hits {lib : Lib} (w : World) (basePath : string) (key : string) : bool :=
  match allInterceptors w !! key with
  | Some e =>
      existsb (filteringScope_accepts w basePath) (Entry.scopes e) ||
      matchStringOrRegexp basePath (Entry.key e)
  | None => false
  end.

(** [scope.__nock_filteredScope = scope.__nock_scopeKey] on interceptor
    [scope]. *)
Definition mark_filtered (scope : nat) (w : World) : World :=
  update_interceptor scope
    (fun ic => Interceptor_set___nock_filteredScope (Interceptor.__nock_scopeKey ic) ic) w.

(** ** [http.ClientRequest] and its override *)

(** A value of [http.ClientRequest]: Node's, or an [OverriddenClientRequest]
    that inherits from what [http.ClientRequest] was when it was defined. *)
Inductive ClientRequest_t :=
| Node_ClientRequest
| OverriddenClientRequest (super : ClientRequest_t).

Module Http.
Record t := mk {
  ClientRequest : ClientRequest_t;                    (* http.ClientRequest *)
  originalClientRequest : option ClientRequest_t;     (* the module's variable *)
  overrideRequests : nat;         (* how often common.overrideRequests was called *)
}.
End Http.





(** Interceptor [i] was not reached through a filtering scope, or its scope
    has no host: [setRequestHeaders] treats it as any other. *)
Definition unfiltered (w : World) (i : nat) : Prop :=
  truthy (Interceptor.__nock_filteredScope (the_interceptor w i)) &&
  truthy (Interceptor.__nock_scopeHost (the_interceptor w i)) = false.

(** The host header that [setRequestHeaders] makes up from the options. *)
Definition default_host_header (o : Options.t) (host : string) : string :=
  if is_number (Options.port o) 80 || is_number (Options.port o) 443
  then split_colon_0 host else host.

(** What a pass of [setRequestHeaders] over unfiltered interceptors keeps. *)
Definition host_pass (r : nat) (hostHeader : value) (w0 w : World) : Prop :=
  interceptorObjects w = interceptorObjects w0 /\
  allInterceptors w = allInterceptors w0 /\
  Request.options (the_request w r) = Request.options (the_request w0 r) /\
  (Request.outgoingHeaders (the_request w r) = Request.outgoingHeaders (the_request w0 r) \/
   Request.outgoingHeaders (the_request w r) =
     <["host" := hostHeader]> (Request.outgoingHeaders (the_request w0 r))).

(** A body that is serialized: an object, an array, a number, a boolean or
    null (a function too, for which [JSON.stringify] has no text). *)
Definition serialized (body : value) : bool :=
  match body with
  | VUndefined | VString _ | VBuffer _ | VStream _ | VDelayedBody _ _ => false
  | _ => true
  end.

(** ** More cases in the reference environment *)
Module Cases.
Import Reference.


(** [.reply(200, body)] of a scope with [allowUnmocked], to be used once. *)
Definition unmocked_reply (body : value) : Interceptor.t :=
  Interceptor.mk "http://x.test" scope0 true
    (fun o _ => String.eqb (Options.method o) "GET" && String.eqb (Options.path o) "/a")
    (fun o => match Options.host o with Some h => String.eqb h "x.test" | None => false end)
    VUndefined (VInt 200) [] ∅ None None body 0 0 0 1 0 None
    scope0 VUndefined (ScopeOptions.mk true None) VUndefined VUndefined.

(** A reply callback that leads to [o], whatever the request. *)
Definition replying (o : outcome) : reply_fn := {| fn_length := 2; fn_call := fun _ _ => o |}.

(** [.reply(200, fn)] and [.reply(fn)], to be used once. *)
Definition body_callback (o : outcome) : Interceptor.t :=
  interceptor_for scope0 [] (Some (replying o)) None VUndefined 0 1.
Definition full_callback (o : outcome) : Interceptor.t :=
  interceptor_for scope0 [] None (Some (replying o)) VUndefined 0 1.

Definition get_b : Options.t :=
  Options.mk None None "/b" "GET" (Some "x.test") (VInt 80) "http" None.

(** Request 1, for [GET http://x.test/b], is created and its socket events
    have been emitted. *)
Definition one_request_b (interceptor : Interceptor.t) : World :=
  run 1 (RequestOverrider 1 true get_b "http://x.test" (world_with interceptor)).

(** [GET /a] with the headers [Expect: 100-continue] and credentials. *)
Definition get_a_expecting : Options.t :=
  Options.mk (Some {[ "Expect" := VString "100-continue" ]}) (Some "user:pass")
    "/a" "GET" (Some "x.test") (VInt 80) "https" None.

(** [interceptor] is created as object 0 and not registered. *)
Definition unregistered (interceptor : Interceptor.t) : World :=
  set_interceptorObjects {[ 0%nat := interceptor ]} empty_world.

End Cases.

(** ** Cases for [lib/intercept.js] *)
Module Registry.
Import Reference.
Import Cases.

(** Stand-ins for the helpers of [Lib]: options that are normalized
    already, keys matched as strings, the address matched as the request
    is, and a regular expression that searches for its source. *)
#[export] Instance lib : Lib := {|
  normalizeRequestOptions o := o;
  matchStringOrRegexp target pattern := String.eqb target pattern;
  matchAddress ic o := Interceptor.match_ ic o "";
  Interceptor__key ic := "GET " +:+ Interceptor.basePath ic +:+ "/a";
  RegExp_test source s :=
    match String.index 0 source s with Some _ => true | None => false end;
  call_test _ _ := false;
|}.

(** The options of a scope that also answers for [http://y.test]. *)
Definition also_y : ScopeOptions.t :=
  ScopeOptions.mk false (Some (fun basePath => String.eqb basePath "http://y.test")).

(** [interceptor] is object 0, registered for [http://x.test] by a scope
    with the options [scopeOptions]. *)
Definition registered (scopeOptions : ScopeOptions.t) (interceptor : Interceptor.t)
    : World :=
  add "http://x.test" 0 scope0 scopeOptions (VString "x.test") (unregistered interceptor).

(** The same after the interceptor was used. *)
Definition used_up (scopeOptions : ScopeOptions.t) (interceptor : Interceptor.t) : World :=
  remove 0 (registered scopeOptions interceptor).



End Registry.

(** ** Facts about the stores *)


Lemma the_request_update_request (r : nat) f (w : World) :
  the_request (update_request r f w) r = f (the_request w r).
Proof. unfold the_request, update_request. simpl. apply lookup_total_insert_eq. Qed.

Lemma the_request_update_request_ne (r r' : nat) f (w : World) :
  r <> r' -> the_request (update_request r f w) r' = the_request w r'.
Proof.
  intros Hne. unfold the_request, update_request. simpl.
  by apply lookup_total_insert_ne.
Qed.

Lemma the_request_update_response (r : nat) f (w : World) :
  the_request (update_response r f w) r =
  Request.set_response (f (Request.response (the_request w r))) (the_request w r).
Proof. unfold update_response. by rewrite the_request_update_request. Qed.

Lemma the_interceptor_update_interceptor (i : nat) f (w : World) :
  the_interceptor (update_interceptor i f w) i = f (the_interceptor w i).
Proof. unfold the_interceptor, update_interceptor. simpl. apply lookup_total_insert_eq. Qed.

Lemma the_interceptor_update_interceptor_ne (i j : nat) f (w : World) :
  i <> j -> the_interceptor (update_interceptor i f w) j = the_interceptor w j.
Proof.
  intros Hne. unfold the_interceptor, update_interceptor. simpl.
  by apply lookup_total_insert_ne.
Qed.

Lemma requestObjects_remove (i : nat) (w : World) :
  requestObjects (remove i w) = requestObjects w.
Proof.
  unfold remove. destruct (Scope.shouldPersist _); [done|].
  simpl. by destruct (0 <? _).
Qed.

Lemma requestObjects_count_and_remove (i : nat) (w : World) :
  requestObjects (count_and_remove i w) = requestObjects w.
Proof. unfold count_and_remove. by rewrite requestObjects_remove. Qed.

Lemma the_request_count_and_remove (i r : nat) (w : World) :
  the_request (count_and_remove i w) r = the_request w r.
Proof. unfold the_request. by rewrite requestObjects_count_and_remove. Qed.

(** ** Raw headers *)

Lemma definedHeaders_spec (l : rawHeaders_t) (i : nat) (s : gset string) (x : string) :
  x ∈ forEachHeader_from i l
        (fun _ fieldName _ defined => defined ∪ {[ toLowerCase fieldName ]}) s <->
  x ∈ s \/ exists name v, (name, v) ∈ l /\ toLowerCase name = x.
Proof.
  revert i s. induction l as [|[n v] l IH]; intros i s; simpl.
  - split; [by left|]. intros [?|(? & ? & Hin & _)]; [done|]. by apply elem_of_nil in Hin.
  - rewrite IH. rewrite elem_of_union, elem_of_singleton. split.
    + intros [[? | ->] | (n' & v' & Hin & <-)]; [by left| |].
      * right. exists n, v. split; [apply list_elem_of_here|done].
      * right. exists n', v'. split; [by apply list_elem_of_further|done].
    + intros [?|(n' & v' & Hin & <-)]; [by left; left|].
      apply elem_of_cons in Hin as [[= -> ->]|Hin]; [by left; right|].
      right. by exists n', v'.
Qed.

Lemma selected_spec (D : gset string) (l : rawHeaders_t) (i : nat) (acc : rawHeaders_t) :
  forEachHeader_from i l
    (fun v fieldName _ result =>
       if decide (toLowerCase fieldName ∈ D) then result else result ++ [(fieldName, v)])
    acc
  = acc ++ filter (fun p => toLowerCase (fst p) ∉ D) l.
Proof.
  revert i acc. induction l as [|[n v] l IH]; intros i acc; cbn [forEachHeader_from].
  - by rewrite filter_nil, app_nil_r.
  - rewrite IH, filter_cons. cbn [fst].
    destruct (decide (toLowerCase n ∈ D)) as [Hin|Hnin].
    + by rewrite decide_False by (intros Hn; by apply Hn).
    + rewrite decide_True by done. by rewrite <- app_assoc.
Qed.


Lemma selectDefaultHeaders_filter (existing defaults : rawHeaders_t) :
  selectDefaultHeaders existing defaults =
  filter (fun p => ~ header_present (fst p) existing) defaults.
Proof.
  unfold selectDefaultHeaders.
  destruct defaults as [|d defaults]; [done|].
  cbn [List.length Nat.eqb]. unfold forEachHeader. rewrite selected_spec. simpl.
  apply list_filter_iff. intros [n v]. simpl.
  rewrite definedHeaders_spec. unfold header_present. split.
  - intros Hn (n' & v' & Hin & Heq). apply Hn. right. by exists n', v'.
  - intros Hn [Hin|(n' & v' & Hin & Heq)]; [set_solver|]. apply Hn. by exists n', v'.
Qed.


Lemma the_request_emit e w r : the_request (emit e w) r = the_request w r.
Proof. reflexivity. Qed.
Lemma the_request_process_nextTick t w r :
  the_request (process_nextTick t w) r = the_request w r.
Proof. reflexivity. Qed.

Lemma is_function_dec (v : value) :
  {f | v = VFunction f} + {forall f, v <> VFunction f}.
Proof. destruct v; try (right; intros f' Hf; discriminate). left. by eexists. Defined.

Section FunctionalHeaders.
Context {env : Env}.

Lemma evaluateFunctionalHeaders_from (r : nat) (body : value) :
  forall (hs : list (string * value)) (k : nat) (res : Response.t),
    drop k (Response.rawHeaders res) = hs ->
    let res' :=
      forEachHeader_from (2 * k) hs
        (fun v fieldName i response =>
           match v with
           | VFunction f =>
               Response.set_rawHeaders
                 (<[Nat.div2 i := (fieldName, call_header_function f r response body)]>
                    (Response.rawHeaders response))
                 response
           | _ => response
           end) res in
    List.length (Response.rawHeaders res') = List.length (Response.rawHeaders res) /\
    forall j name v,
      Response.rawHeaders res !! j = Some (name, v) ->
      exists v', Response.rawHeaders res' !! j = Some (name, v') /\
                 (typeof v <> "function" -> v' = v).
Proof.
  induction hs as [|[n0 v0] rest IH]; intros k res Hdrop; cbn [forEachHeader_from].
  - split; [done|]. intros j name v Hj. by exists v.
  - assert (Hk : Response.rawHeaders res !! k = Some (n0, v0)).
    { pose proof (lookup_drop (Response.rawHeaders res) k 0) as Hl.
      rewrite Hdrop, Nat.add_0_r in Hl. by rewrite <- Hl. }
    assert (Hrest : drop (S k) (Response.rawHeaders res) = rest).
    { pose proof (drop_drop (Response.rawHeaders res) 1 k) as Hd.
      rewrite Hdrop, Nat.add_1_r in Hd. by rewrite <- Hd. }
    replace (2 * k + 2)%nat with (2 * S k)%nat by lia.
    replace (Nat.div2 (2 * k)) with k
      by (symmetry; rewrite Nat.div2_double; reflexivity).
    destruct (is_function_dec v0) as [[f ->]|Hnf].
    + set (res1 := Response.set_rawHeaders _ res).
      assert (Hdrop1 : drop (S k) (Response.rawHeaders res1) = rest).
      { unfold res1. simpl. rewrite drop_insert_lt by lia. done. }
      destruct (IH (S k) res1 Hdrop1) as [IHlen IHget].
      split.
      { rewrite IHlen. unfold res1. simpl. apply length_insert. }
      intros j name v Hj.
      destruct (decide (j = k)) as [->|Hne].
      * rewrite Hk in Hj. injection Hj as <- <-.
        destruct (IHget k n0
                    (call_header_function f r res body)) as (v' & Hv' & _).
        { unfold res1. simpl. apply list_lookup_insert_eq.
          by apply lookup_lt_Some in Hk. }
        exists v'. split; [done|]. intros Hf. by destruct Hf.
      * apply (IHget j name v).
        unfold res1. simpl. rewrite list_lookup_insert_ne by done. done.
    + assert (Heq : match v0 with
                    | VFunction f =>
                        Response.set_rawHeaders
                          (<[k := (n0, call_header_function f r res body)]>
                             (Response.rawHeaders res)) res
                    | _ => res
                    end = res) by (destruct v0; try done; by destruct (Hnf f)).
      rewrite Heq. by apply (IH (S k) res Hrest).
Qed.
End FunctionalHeaders.

Section FunctionalHeaderNames.
Context {env : Env}.

Lemma evaluateFunctionalHeaders_spec (r : nat) (body : value) (res : Response.t) :
  let res' := evaluateFunctionalHeaders r body res in
  List.length (Response.rawHeaders res') = List.length (Response.rawHeaders res) /\
  forall j name v,
    Response.rawHeaders res !! j = Some (name, v) ->
    exists v', Response.rawHeaders res' !! j = Some (name, v') /\
               (typeof v <> "function" -> v' = v).
Proof.
  apply (evaluateFunctionalHeaders_from r body (Response.rawHeaders res) 0 res).
  reflexivity.
Qed.

Lemma evaluateFunctionalHeaders_names (r : nat) (body : value) (res : Response.t) :
  map fst (Response.rawHeaders (evaluateFunctionalHeaders r body res)) =
  map fst (Response.rawHeaders res).
Proof.
  destruct (evaluateFunctionalHeaders_spec r body res) as [Hlen Hget].
  apply list_eq. intros j. rewrite !list_lookup_fmap.
  destruct (Response.rawHeaders res !! j) as [[n v]|] eqn:Hj.
  - destruct (Hget j n v Hj) as (v' & -> & _). done.
  - apply lookup_ge_None in Hj. rewrite <- Hlen in Hj.
    apply lookup_ge_None in Hj. by rewrite Hj.
Qed.
End FunctionalHeaderNames.


Section Consumption.
Context {env : Env}.

Lemma static_remove (i j : nat) (w : World) :
  static (the_interceptor (remove i w) j) = static (the_interceptor w j).
Proof.
  unfold remove. destruct (Scope.shouldPersist _); [done|].
  assert (Hupd : forall c, static (the_interceptor
                   (update_interceptor i (Interceptor.set_counter c) w) j)
                 = static (the_interceptor w j)).
  { intros c. destruct (decide (i = j)) as [->|Hne].
    - by rewrite the_interceptor_update_interceptor.
    - by rewrite the_interceptor_update_interceptor_ne. }
  destruct (0 <? _); apply Hupd.
Qed.

Lemma static_count_and_remove (i j : nat) (w : World) :
  static (the_interceptor (count_and_remove i w) j) = static (the_interceptor w j).
Proof.
  unfold count_and_remove. rewrite static_remove.
  destruct (decide (i = j)) as [->|Hne].
  - by rewrite the_interceptor_update_interceptor.
  - by rewrite the_interceptor_update_interceptor_ne.
Qed.

Lemma scope_count_and_remove (i j : nat) (w : World) :
  Interceptor.scope (the_interceptor (count_and_remove i w) j) =
  Interceptor.scope (the_interceptor w j).
Proof.
  change (Interceptor.scope (static (the_interceptor (count_and_remove i w) j)) =
          Interceptor.scope (static (the_interceptor w j))).
  by rewrite static_count_and_remove.
Qed.

Lemma transformResponseBody_request (r i : nat) (body : value) (w : World) :
  let w1 := snd (transformResponseBody r i body w) in
  interceptorObjects w1 = interceptorObjects w /\
  allInterceptors w1 = allInterceptors w /\
  Request.aborted (the_request w1 r) = Request.aborted (the_request w r) /\
  exists extra,
    rawHeaders_of w1 r = rawHeaders_of w r ++ extra.
Proof.
  unfold transformResponseBody, rawHeaders_of.
  destruct body; simpl;
    repeat match goal with
           | |- context [if ?b then _ else _] => destruct b; simpl
           end;
    rewrite ?the_request_update_response, ?the_request_update_request;
    simpl; repeat split; eauto using app_nil_r.
  all: by exists [].
Qed.
End Consumption.

Section HeaderFinalization.
Context {env : Env}.

Lemma continueWithResponseBody_rawHeaders (r i : nat) (body : value) (w : World) :
  let w1 := snd (transformResponseBody r i body w) in
  let raw1 := rawHeaders_of w1 r in
  let raw' := rawHeaders_of (continueWithResponseBody r i body w) r in
  if req_aborted w r then raw' = raw1
  else
    exists res,
      Response.rawHeaders res =
        raw1 ++ selectDefaultHeaders raw1
                  (Scope._defaultReplyHeaders (Interceptor.scope (the_interceptor w i))) /\
      raw' = Response.rawHeaders
               (evaluateFunctionalHeaders r (fst (transformResponseBody r i body w)) res).
Proof.
  cbv zeta. unfold continueWithResponseBody.
  destruct (transformResponseBody_request r i body w) as (Hio & _ & Hab & _).
  destruct (transformResponseBody r i body w) as [body1 w1] eqn:Ht.
  simpl in Hio, Hab. simpl fst. simpl snd.
  assert (Hab' : req_aborted (count_and_remove i w1) r = req_aborted w r).
  { unfold req_aborted. by rewrite the_request_count_and_remove, Hab. }
  rewrite Hab'. destruct (req_aborted w r).
  - unfold rawHeaders_of. by rewrite the_request_count_and_remove.
  - rewrite scope_count_and_remove.
    assert (Hic : the_interceptor w1 i = the_interceptor w i)
      by (unfold the_interceptor; by rewrite Hio).
    rewrite Hic.
    unfold rawHeaders_of.
    rewrite the_request_process_nextTick.
    rewrite !the_request_update_response. simpl.
    rewrite the_request_count_and_remove.
    eexists (Response.set_rawHeaders _ (Request.response (the_request w1 r))).
    split; [reflexivity|]. reflexivity.
Qed.

(** C8. Header finalization in [continueWithResponseBody] keeps every
    pre-existing raw header pair at its position (only a functional value
    is replaced, in place, by its result), and appends exactly those scope
    default headers whose name, compared case-insensitively, is not
    already present, in the order of the defaults. *)
Theorem header_finalization (r i : nat) (body : value) (w : World) :
  let raw := rawHeaders_of w r in
  let raw1 := rawHeaders_of (snd (transformResponseBody r i body w)) r in
  let raw' := rawHeaders_of (continueWithResponseBody r i body w) r in
  let defaults :=
    Scope._defaultReplyHeaders (Interceptor.scope (the_interceptor w i)) in
  (forall k name v,
     raw !! k = Some (name, v) ->
     exists v', raw' !! k = Some (name, v') /\ (typeof v <> "function" -> v' = v)) /\
  map fst raw' =
    map fst raw1 ++
    (if req_aborted w r then []
     else map fst (filter (fun p => ~ header_present (fst p) raw1) defaults)) /\
  (forall existing,
     selectDefaultHeaders existing defaults =
     filter (fun p => ~ header_present (fst p) existing) defaults).
Proof.
  intros raw raw1 raw' defaults.
  pose proof (continueWithResponseBody_rawHeaders r i body w) as Hc.
  destruct (transformResponseBody_request r i body w) as (_ & _ & _ & extra & Hextra).
  fold raw raw1 in Hextra. fold raw1 raw' defaults in Hc. cbv zeta in Hc.
  split; [|split].
  - intros k name v Hk.
    assert (Hk1 : raw1 !! k = Some (name, v))
      by (rewrite Hextra; by apply lookup_app_l_Some).
    destruct (req_aborted w r).
    + rewrite Hc. by exists v.
    + destruct Hc as (res & Hres & ->).
      apply evaluateFunctionalHeaders_spec.
      rewrite Hres. by apply lookup_app_l_Some.
  - destruct (req_aborted w r).
    + by rewrite Hc, app_nil_r.
    + destruct Hc as (res & Hres & ->).
      rewrite evaluateFunctionalHeaders_names, Hres, map_app.
      by rewrite selectDefaultHeaders_filter.
  - intros existing. apply selectDefaultHeaders_filter.
Qed.
End HeaderFinalization.

Section JsonBody.
Context {env : Env}.

(** C9, as amended. A reply body that is present, is neither a buffer,
    a stream nor a string, and has no body delay, is serialized with
    [JSON.stringify], and the pair [Content-Type: application/json] is
    appended to the raw headers whatever they already hold. *)
Theorem json_body_content_type (r i : nat) (body : value) (w : World) :
  body <> VUndefined ->
  Buffer_isBuffer body = false ->
  isStream body = false ->
  typeof body <> "string" ->
  Interceptor.delayInMs (the_interceptor w i) = 0 ->
  fst (transformResponseBody r i body w) = JSON_stringify body /\
  rawHeaders_of (snd (transformResponseBody r i body w)) r =
    rawHeaders_of w r ++ [("Content-Type", VString "application/json")].
Proof.
  intros Hu Hb Hs Ht Hd. unfold transformResponseBody, rawHeaders_of.
  rewrite Hd. simpl.
  destruct body; try done; simpl;
    by rewrite the_request_update_response.
Qed.
End JsonBody.

Section FullReply.
Context {env : Env}.

Lemma set_response_same (q : Request.t) :
  Request.set_response (Request.response q) q = q.
Proof. by destruct q. Qed.

(** C5. A full-reply result that is not an array, has more than three
    elements or has a status that is not an integer makes
    [parseFullReplyResult] throw and leaves the response as it was; all
    that [continueWithFullResponse] then does is to schedule the error
    for the next tick: no event, no chunk. On an array of at most three
    elements with an integer status and convertible headers, the status
    is set to the first element, the body is the second one or the empty
    string, and the headers are appended to the raw headers. *)
Theorem full_reply_result (response : Response.t) (fullReplyResult : value) :
  (* a result of the wrong shape *)
  ((Array_isArray fullReplyResult = false \/
    exists l, fullReplyResult = VArray l /\
              (3 < List.length l \/ isInteger (nth 0 l VUndefined) = false)%nat) ->
   exists e,
     parseFullReplyResult response fullReplyResult = (inr e, response) /\
     forall (r i : nat) (w : World),
       Request.response (the_request w r) = response ->
       let w' := continueWithFullResponse r i fullReplyResult w in
       trace w' = trace w /\
       nextTickQueue w' = nextTickQueue w ++ [T_error r e] /\
       microtaskQueue w' = microtaskQueue w /\
       immediateQueue w' = immediateQueue w /\
       timerQueue w' = timerQueue w /\
       the_request w' r = the_request w r /\
       forall w0, trace (run_task (T_error r e) w0) = trace w0 ++ [Req_emit_error r e]) /\
  (* a result of the right shape *)
  (forall l raw,
     fullReplyResult = VArray l ->
     (List.length l <= 3)%nat ->
     isInteger (nth 0 l VUndefined) = true ->
     headersInputToRawArray (nth 2 l VUndefined) = inr raw ->
     let body :=
       match nth 1 l VUndefined with
       | VUndefined => VString ""
       | body => body
       end in
     let response' :=
       Response.mk (nth 0 l VUndefined) (Response.rawHeaders response ++ raw)
         (Response.headers response) (Response.complete response) in
     parseFullReplyResult response fullReplyResult = (inl body, response') /\
     forall (r i : nat) (w : World),
       Request.response (the_request w r) = response ->
       continueWithFullResponse r i fullReplyResult w =
       continueWithResponseBody r i body (update_response r (fun _ => response') w)).
Proof.
  split.
  - intros Hbad.
    assert (He : exists e, parseFullReplyResult response fullReplyResult = (inr e, response)).
    { destruct Hbad as [Hna|(l & -> & Hl)].
      - destruct fullReplyResult; try discriminate; simpl; eauto.
      - simpl. destruct (3 <? List.length l)%nat eqn:Hlen; [eauto|].
        destruct Hl as [Hl|Hl]; [apply Nat.ltb_ge in Hlen; lia|].
        rewrite Hl. simpl. eauto. }
    destruct He as [e He]. exists e. split; [done|].
    intros r i w Hres. unfold continueWithFullResponse.
    rewrite Hres, He. cbv beta iota zeta.
    repeat split; try reflexivity.
    unfold emitError. rewrite the_request_process_nextTick.
    rewrite the_request_update_response, <- Hres. apply set_response_same.
  - intros l raw -> Hlen Hint Hraw body response'.
    assert (Hparse : parseFullReplyResult response (VArray l) = (inl body, response')).
    { simpl.
      assert ((3 <? List.length l)%nat = false) as -> by (apply Nat.ltb_ge; lia).
      rewrite Hint. simpl. by rewrite Hraw. }
    split; [exact Hparse|].
    intros r i w Hres. unfold continueWithFullResponse. by rewrite Hres, Hparse.
Qed.
End FullReply.

Section Matcher.
Context {env : Env}.

Lemma find_Some_first {A} (f : A -> bool) (l : list A) (x : A) :
  List.find f l = Some x <->
  exists before after,
    l = before ++ x :: after /\ f x = true /\ forall y, y ∈ before -> f y = false.
Proof.
  induction l as [|a l IH]; simpl.
  - split; [done|]. intros (before & after & Hl & _). by destruct before.
  - destruct (f a) eqn:Ha.
    + split.
      * intros [= ->]. exists [], l. split; [done|]. split; [done|].
        intros y Hy. by apply elem_of_nil in Hy.
      * intros (before & after & Hl & Hx & Hbefore).
        destruct before as [|b before]; simpl in Hl.
        -- by injection Hl as ->.
        -- injection Hl as -> ->. rewrite Hbefore in Ha; [done|]. apply list_elem_of_here.
    + rewrite IH. split.
      * intros (before & after & -> & Hx & Hbefore).
        exists (a :: before), after. split; [done|]. split; [done|].
        intros y [->|Hy]%elem_of_cons; auto.
      * intros (before & after & Hl & Hx & Hbefore).
        destruct before as [|b before]; simpl in Hl.
        -- injection Hl as -> ->. congruence.
        -- injection Hl as -> ->. exists before, after. split; [done|]. split; [done|].
           intros y Hy. apply Hbefore. by apply list_elem_of_further.
Qed.

Lemma find_None_all {A} (f : A -> bool) (l : list A) :
  List.find f l = None <-> forall y, y ∈ l -> f y = false.
Proof.
  induction l as [|a l IH]; simpl.
  - split; [|done]. intros _ y Hy. by apply elem_of_nil in Hy.
  - destruct (f a) eqn:Ha.
    + split; [done|]. intros Hall. rewrite Hall in Ha; [done|]. apply list_elem_of_here.
    + rewrite IH. split.
      * intros Hall y [->|Hy]%elem_of_cons; auto.
      * intros Hall y Hy. apply Hall. by apply list_elem_of_further.
Qed.

Lemma scopes_at_add (key : string) (i : nat) (scope : Scope.t)
    (so : ScopeOptions.t) (host : value) (w : World) :
  scopes_at (add key i scope so host w) key = scopes_at w key ++ [i].
Proof.
  unfold add, scopes_at.
  destruct (allInterceptors w !! key) as [e|] eqn:He;
    destruct (ScopeOptions.allowUnmocked so); simpl;
    rewrite ?lookup_alter_eq, ?lookup_insert_eq, ?He; simpl; done.
Qed.

(** C4. The matcher of [end] returns the first interceptor of the array
    whose predicate accepts the request, and none only if all reject; of
    two accepting interceptors the earlier one is found when nothing
    before it accepts; [add] appends to the array, so the order of the
    array is the order of registration; and [end] dispatches on what the
    matcher found. *)
Theorem matcher_first_registered (w : World) (r : nat) (requestBody : string) :
  let accepts i :=
    Interceptor.match_ (the_interceptor w i) (Request.options (the_request w r))
      requestBody in
  (forall i,
     find_interceptor w r requestBody = Some i <->
     exists before after,
       interceptors_of w r = before ++ i :: after /\
       accepts i = true /\ forall j, j ∈ before -> accepts j = false) /\
  (find_interceptor w r requestBody = None <->
   forall j, j ∈ interceptors_of w r -> accepts j = false) /\
  (forall a b before between after,
     interceptors_of w r = before ++ a :: between ++ b :: after ->
     (forall j, j ∈ before -> accepts j = false) ->
     accepts a = true -> accepts b = true ->
     find_interceptor w r requestBody = Some a) /\
  (forall key i scope so host,
     scopes_at (add key i scope so host w) key = scopes_at w key ++ [i]) /\
  (forall r0 w0,
     end_ r0 w0 =
     let w1 := end_prepare r0 w0 in
     let found := find_interceptor w1 r0 (end_requestBody w0 r0) in
     let w2 := update_request r0 (Request.set_interceptor found) w1 in
     match found with
     | Some i =>
         end_mocking r0 i (end_requestBody w0 r0)
           (end_isBinaryRequestBodyBuffer w0 r0) w2
     | None =>
         end_no_match r0 (end_requestBody w0 r0) (end_requestBodyBuffer w0 r0) w2
     end).
Proof.
  intros accepts. unfold find_interceptor. fold accepts.
  split; [|split; [|split; [|split]]].
  - intros i. change (fun i0 => Interceptor.match_ _ _ _) with accepts.
    apply find_Some_first.
  - apply find_None_all.
  - intros a b before between after Hl Hbefore Ha Hb.
    apply find_Some_first. by exists before, (between ++ b :: after).
  - intros. apply scopes_at_add.
  - reflexivity.
Qed.
End Matcher.

Section Write.
Context {env : Env}.

End Write.


Lemma only_requests_differ_refl w : only_requests_differ w w.
Proof. by repeat split. Qed.

Lemma only_requests_differ_trans w1 w2 w3 :
  only_requests_differ w1 w2 -> only_requests_differ w2 w3 ->
  only_requests_differ w1 w3.
Proof.
  unfold only_requests_differ.
  intros (?&?&?&?&?&?&?&?) (?&?&?&?&?&?&?&?). repeat split; congruence.
Qed.

Lemma only_requests_differ_update_request r f w :
  only_requests_differ w (update_request r f w).
Proof. by repeat split. Qed.

Section Frames.
Context {env : Env}.

Lemma setRequestHeaders_frame (r i : nat) (w : World) :
  only_requests_differ w (setRequestHeaders r i w).
Proof.
  unfold setRequestHeaders.
  destruct (truthy _ && truthy _); [by repeat split|].
  destruct (Options.host _); [|apply only_requests_differ_refl].
  destruct (negb _ && negb _); [|apply only_requests_differ_refl].
  by repeat split.
Qed.

Lemma setRequestHeaders_fold_frame (r : nat) (l : list nat) (w : World) :
  only_requests_differ w
    (foldl (fun w interceptor => setRequestHeaders r interceptor w) w l).
Proof.
  revert w. induction l as [|i l IH]; intros w; simpl.
  - apply only_requests_differ_refl.
  - eapply only_requests_differ_trans; [apply setRequestHeaders_frame|apply IH].
Qed.

Lemma end_prepare_frame (r : nat) (w : World) :
  only_requests_differ w (end_prepare r w).
Proof.
  unfold end_prepare.
  eapply only_requests_differ_trans; [|apply setRequestHeaders_fold_frame].
  by repeat split.
Qed.

Lemma the_interceptor_frame (w w' : World) (i : nat) :
  only_requests_differ w w' -> the_interceptor w' i = the_interceptor w i.
Proof. intros (_ & Hio & _). unfold the_interceptor. by rewrite Hio. Qed.


Lemma end_mocking_content_encoded_delay (r i : nat) (requestBody : string)
    (isBinary : bool) (w : World) :
  let ic := the_interceptor w i in
  Interceptor.errorMessage ic = VUndefined ->
  Interceptor.replyFunction ic = None ->
  Interceptor.fullReplyFunction ic = None ->
  isContentEncoded (Interceptor.headers ic) = true ->
  isStream (Interceptor.body ic) = false ->
  Interceptor.delayInMs ic <> 0 ->
  let w' := end_mocking r i requestBody isBinary w in
  trace w' = trace w ++ [Scope_emit_request (Scope.id (Interceptor.scope ic)) r i requestBody] /\
  nextTickQueue w' = nextTickQueue w ++ [T_error r unsupported_delay] /\
  microtaskQueue w' = microtaskQueue w /\
  immediateQueue w' = immediateQueue w /\
  timerQueue w' = timerQueue w.
Proof.
  intros ic Hem Hrf Hfrf Hce Hst Hd. unfold end_mocking.
  pose proof (setRequestHeaders_frame r i w) as Hf.
  set (wa := setRequestHeaders r i w) in *.
  set (wc := update_request r _ (update_interceptor i _ wa)).
  assert (Hic : the_interceptor wc i = Interceptor.set_req (Some r) ic).
  { unfold wc. change (the_interceptor (update_interceptor i (Interceptor.set_req (Some r)) wa) i
                       = Interceptor.set_req (Some r) ic).
    rewrite the_interceptor_update_interceptor.
    by rewrite (the_interceptor_frame w wa). }
  rewrite Hic. cbv zeta.
  cbn [Interceptor.errorMessage Interceptor.replyFunction Interceptor.fullReplyFunction
       Interceptor.headers Interceptor.body Interceptor.delayInMs Interceptor.scope
       Interceptor.set_req].
  fold ic. rewrite Hem, Hrf, Hfrf, Hce, Hst.
  assert ((Interceptor.delayInMs ic =? 0) = false) as -> by (by apply Z.eqb_neq).
  cbn [andb negb]. cbv beta iota.
  destruct Hf as (_ & _ & Hq1 & Hq2 & Hq3 & Hq4 & _ & Htr).
  unfold unsupported_delay.
  repeat split; simpl; congruence.
Qed.
End Frames.


Section Skeleton.
Context {env : Env}.

Lemma skeleton_update_request (r r' : nat) f (w : World) :
  (forall q, skeleton (f q) = skeleton q) ->
  skeleton (the_request (update_request r f w) r') = skeleton (the_request w r').
Proof.
  intros Hf. destruct (decide (r = r')) as [->|Hne].
  - by rewrite the_request_update_request.
  - by rewrite the_request_update_request_ne.
Qed.

Lemma skeleton_setHeader (r r' : nat) (name : string) (v : value) (w : World) :
  skeleton (the_request (setHeader r name v w) r') = skeleton (the_request w r').
Proof.
  unfold setHeader.
  destruct (String.eqb name "expect" && _);
    [change (the_request (setImmediate ?t ?w) r') with (the_request w r')|];
    by apply skeleton_update_request.
Qed.

Lemma skeleton_setRequestHeaders (r i r' : nat) (w : World) :
  skeleton (the_request (setRequestHeaders r i w) r') = skeleton (the_request w r').
Proof.
  unfold setRequestHeaders.
  destruct (truthy _ && truthy _).
  - rewrite skeleton_setHeader. by apply skeleton_update_request.
  - destruct (Options.host _); [|done].
    destruct (negb _ && negb _); [|done]. apply skeleton_setHeader.
Qed.

Lemma skeleton_setRequestHeaders_fold (r r' : nat) (l : list nat) (w : World) :
  skeleton (the_request
              (foldl (fun w interceptor => setRequestHeaders r interceptor w) w l) r')
  = skeleton (the_request w r').
Proof.
  revert w. induction l as [|i l IH]; intros w; simpl; [done|].
  by rewrite IH, skeleton_setRequestHeaders.
Qed.

Lemma skeleton_end_prepare (r r' : nat) (w : World) :
  skeleton (the_request (end_prepare r w) r') = skeleton (the_request w r').
Proof.
  unfold end_prepare. rewrite skeleton_setRequestHeaders_fold.
  rewrite skeleton_update_request by done.
  by apply skeleton_update_request.
Qed.

End Skeleton.

Section EncodedDelay.
Context {env : Env}.

(** C7. When [end] matches an interceptor with a static reply whose
    headers are content-encoded, whose body is not a stream and which has
    a body delay, all it leaves behind is the error on the next tick:
    nothing else is scheduled and no response is emitted; from an idle
    loop, the error is the only event that follows. *)
Theorem content_encoded_with_delay_is_an_error (r i : nat) (w : World) :
  let ic := the_interceptor w i in
  find_interceptor (end_prepare r w) r (end_requestBody w r) = Some i ->
  Interceptor.errorMessage ic = VUndefined ->
  Interceptor.replyFunction ic = None ->
  Interceptor.fullReplyFunction ic = None ->
  isContentEncoded (Interceptor.headers ic) = true ->
  isStream (Interceptor.body ic) = false ->
  Interceptor.delayInMs ic <> 0 ->
  let w' := end_ r w in
  let request_event :=
    Scope_emit_request (Scope.id (Interceptor.scope ic)) r i (end_requestBody w r) in
  (trace w' = trace w ++ [request_event] /\
   nextTickQueue w' = nextTickQueue w ++ [T_error r unsupported_delay] /\
   microtaskQueue w' = microtaskQueue w /\
   immediateQueue w' = immediateQueue w /\
   timerQueue w' = timerQueue w) /\
  (idle w ->
   idle (run_next w') /\
   trace (run_next w') =
     trace w ++ [request_event; Req_emit_error r unsupported_delay]).
Proof.
  intros ic Hfind Hem Hrf Hfrf Hce Hst Hd w' request_event.
  assert (Hw' : w' = end_mocking r i (end_requestBody w r)
                       (end_isBinaryRequestBodyBuffer w r)
                       (update_request r (Request.set_interceptor (Some i))
                          (end_prepare r w))).
  { unfold w', end_. cbv zeta. by rewrite Hfind. }
  set (w2 := update_request r _ (end_prepare r w)) in Hw'.
  assert (Hf : only_requests_differ w w2).
  { eapply only_requests_differ_trans; [apply end_prepare_frame|].
    apply only_requests_differ_update_request. }
  assert (Hic : the_interceptor w2 i = ic) by (by apply the_interceptor_frame).
  pose proof (end_mocking_content_encoded_delay r i (end_requestBody w r)
                (end_isBinaryRequestBodyBuffer w r) w2) as Hm.
  cbv zeta in Hm. rewrite Hic, <- Hw' in Hm.
  specialize (Hm Hem Hrf Hfrf Hce Hst Hd).
  destruct Hf as (_ & _ & Hq1 & Hq2 & Hq3 & Hq4 & _ & Htr).
  rewrite Hq1, Hq2, Hq3, Hq4, Htr in Hm.
  split; [exact Hm|].
  destruct Hm as (Ht' & Hn' & Hm' & Hi' & Hti').
  intros (Hn & Hmi & Him & Hti).
  unfold run_next. rewrite Hn', Hn. simpl.
  unfold idle. simpl. rewrite Hm', Hi', Hti', Ht', <- app_assoc.
  by repeat split.
Qed.
End EncodedDelay.


Section UseCount.
Context {env : Env}.

Lemma splice_first_here (i : nat) (before after : list nat) :
  i ∉ before -> splice_first i (before ++ i :: after) = before ++ after.
Proof.
  induction before as [|b before IH]; intros Hnin; simpl.
  - by rewrite Nat.eqb_refl.
  - apply not_elem_of_cons in Hnin as [Hne Hnin].
    destruct (b =? i)%nat eqn:Hb; [apply Nat.eqb_eq in Hb; congruence|].
    by rewrite IH.
Qed.


Lemma scopes_at_splice (key key' : string) (i : nat) (w : World) :
  scopes_at
    (update_entry key
       (fun e => Entry.set_scopes (splice_first i (Entry.scopes e)) e) w) key' =
  if decide (key = key') then splice_first i (scopes_at w key')
  else scopes_at w key'.
Proof.
  unfold scopes_at, update_entry. simpl.
  destruct (decide (key = key')) as [->|Hne].
  - rewrite lookup_alter_eq. by destruct (allInterceptors w !! key').
  - by rewrite lookup_alter_ne.
Qed.




End UseCount.

Section UseCountRequests.
Context {env : Env}.






End UseCountRequests.

Section Loop.
Context {env : Env}.

Lemma count_and_remove_frame (i : nat) (w : World) :
  let w' := count_and_remove i w in
  requestObjects w' = requestObjects w /\
  nextTickQueue w' = nextTickQueue w /\
  microtaskQueue w' = microtaskQueue w /\
  immediateQueue w' = immediateQueue w /\
  timerQueue w' = timerQueue w /\
  now w' = now w /\
  trace w' = trace w.
Proof.
  unfold count_and_remove, remove.
  destruct (Scope.shouldPersist _); [by repeat split|].
  destruct (0 <? _); by repeat split.
Qed.

Lemma run_idle (m : nat) (w : World) : idle w -> run m w = w.
Proof.
  intros (Hn & Hmi & Him & Hti). induction m as [|m IH]; [done|].
  cbn [run]. unfold run_next. by rewrite Hn, Hmi, Him, Hti.
Qed.

Lemma run_add (m n : nat) (w : World) : run (m + n) w = run n (run m w).
Proof. revert w. induction m as [|m IH]; intros w; [done|]. cbn [run Nat.add]. apply IH. Qed.


Section Steps.
Variables (r i : nat) (ic : Interceptor.t).

Lemma looks_like_emit w ticks micro imm timers tr bs e :
  looks_like r i ic w ticks micro imm timers tr bs ->
  looks_like r i ic (emit e w) ticks micro imm timers (tr ++ [e]) bs.
Proof.
  intros (?&?&?&?&Htr&?&?&?). unfold looks_like. cbn. rewrite Htr. by repeat split.
Qed.

Lemma looks_like_setImmediate w ticks micro imm timers tr bs t :
  looks_like r i ic w ticks micro imm timers tr bs ->
  looks_like r i ic (setImmediate t w) ticks micro (imm ++ [t]) timers tr bs.
Proof.
  intros (?&?&Him&?&?&?&?&?). unfold looks_like. cbn. rewrite Him. by repeat split.
Qed.

Lemma looks_like_process_nextTick w ticks micro imm timers tr bs t :
  looks_like r i ic w ticks micro imm timers tr bs ->
  looks_like r i ic (process_nextTick t w) (ticks ++ [t]) micro imm timers tr bs.
Proof.
  intros (Hn&?&?&?&?&?&?&?). unfold looks_like. cbn. rewrite Hn. by repeat split.
Qed.

Lemma looks_like_setTimeout w ticks micro imm timers tr bs t ms :
  looks_like r i ic w ticks micro imm timers tr bs ->
  looks_like r i ic (setTimeout t ms w) ticks micro imm
    (timers ++ [(now w + Z.max 1 ms, t)]) tr bs.
Proof.
  intros (?&?&?&Hti&?&?&?&?). unfold looks_like. cbn. rewrite Hti. by repeat split.
Qed.

Lemma looks_like_set_responseBuffers w ticks micro imm timers tr bs bs' :
  looks_like r i ic w ticks micro imm timers tr bs ->
  looks_like r i ic (update_request r (Request.set_responseBuffers bs') w)
    ticks micro imm timers tr bs'.
Proof.
  intros (?&?&?&?&?&Hab&?&?). unfold looks_like, req_aborted in *.
  rewrite the_request_update_request. by repeat split.
Qed.

Lemma looks_like_update_response w ticks micro imm timers tr bs f :
  looks_like r i ic w ticks micro imm timers tr bs ->
  looks_like r i ic (update_response r f w) ticks micro imm timers tr bs.
Proof.
  intros (?&?&?&?&?&Hab&?&?). unfold looks_like, req_aborted in *.
  rewrite the_request_update_response. by repeat split.
Qed.

Lemma looks_like_scope w ticks micro imm timers tr bs :
  looks_like r i ic w ticks micro imm timers tr bs ->
  Interceptor.scope (the_interceptor w i) = Interceptor.scope ic /\
  Interceptor.socketDelayInMs (the_interceptor w i) = Interceptor.socketDelayInMs ic /\
  Interceptor.delayConnectionInMs (the_interceptor w i) = Interceptor.delayConnectionInMs ic.
Proof.
  intros (_&_&_&_&_&_&_&Hst).
  change (Interceptor.scope (static (the_interceptor w i)) = Interceptor.scope (static ic) /\
          Interceptor.socketDelayInMs (static (the_interceptor w i)) =
            Interceptor.socketDelayInMs (static ic) /\
          Interceptor.delayConnectionInMs (static (the_interceptor w i)) =
            Interceptor.delayConnectionInMs (static ic)).
  by rewrite Hst.
Qed.

Lemma emitChunk_cons (w : World) (b : value) (bs : list value) :
  Request.responseBuffers (the_request w r) = Some (b :: bs) ->
  truthy b = true ->
  emitChunk r i w =
  setImmediate (T_emitChunk r i)
    (emit (Response_push r b)
       (update_request r (Request.set_responseBuffers (Some bs)) w)).
Proof. intros Hbuf Hb. unfold emitChunk. rewrite Hbuf. simpl. by rewrite Hb. Qed.

Lemma emitChunk_nil (w : World) :
  Request.responseBuffers (the_request w r) = Some [] ->
  emitChunk r i w =
  emit (Scope_emit_replied (Scope.id (Interceptor.scope (the_interceptor w i))) r i)
    (update_response r (Response.set_complete true)
       (emit (Response_push r VNull)
          (update_request r (Request.set_responseBuffers (Some [])) w))).
Proof. intros Hbuf. unfold emitChunk. rewrite Hbuf. reflexivity. Qed.

Lemma run_next_immediate (w : World) (t : task) (rest : list task) :
  nextTickQueue w = [] -> microtaskQueue w = [] ->
  immediateQueue w = t :: rest ->
  run_next w = run_task t (set_immediateQueue rest w).
Proof. intros Hn Hmi Him. unfold run_next. by rewrite Hn, Hmi, Him. Qed.

Lemma run_next_tick (w : World) (t : task) (rest : list task) :
  nextTickQueue w = t :: rest ->
  run_next w = run_task t (set_nextTickQueue rest w).
Proof. intros Hn. unfold run_next. by rewrite Hn. Qed.

Lemma looks_like_set_immediateQueue w ticks micro imm timers tr bs imm' :
  looks_like r i ic w ticks micro imm timers tr bs ->
  looks_like r i ic (set_immediateQueue imm' w) ticks micro imm' timers tr bs.
Proof. intros (?&?&?&?&?&?&?&?). by repeat split. Qed.

Lemma looks_like_set_nextTickQueue w ticks micro imm timers tr bs ticks' :
  looks_like r i ic w ticks micro imm timers tr bs ->
  looks_like r i ic (set_nextTickQueue ticks' w) ticks' micro imm timers tr bs.
Proof. intros (?&?&?&?&?&?&?&?). by repeat split. Qed.

Lemma emitChunk_loop (bs : list value) :
  Forall (fun b => truthy b = true) bs ->
  forall (w : World) (tr : list event),
    looks_like r i ic w [] [] [T_emitChunk r i] [] tr (Some bs) ->
    looks_like r i ic (run (S (List.length bs)) w) [] [] [] []
      (tr ++ map (Response_push r) bs ++
       [Response_push r VNull;
        Scope_emit_replied (Scope.id (Interceptor.scope ic)) r i])
      (Some []).
Proof.
  induction 1 as [|b bs Hb Hbs IH]; intros w tr Hw.
  - cbn [List.length run map app].
    pose proof Hw as (Hn & Hmi & Him & _ & _ & _ & Hbuf & _).
    rewrite (run_next_immediate w _ _ Hn Hmi Him). cbn [run_task].
    apply (looks_like_set_immediateQueue _ _ _ _ _ _ _ []) in Hw.
    rewrite emitChunk_nil by exact Hbuf.
    destruct (looks_like_scope _ _ _ _ _ _ _ Hw) as (-> & _).
    replace (tr ++ [Response_push r VNull;
                    Scope_emit_replied (Scope.id (Interceptor.scope ic)) r i])
      with ((tr ++ [Response_push r VNull]) ++
            [Scope_emit_replied (Scope.id (Interceptor.scope ic)) r i])
      by (by rewrite <- app_assoc).
    apply looks_like_emit, looks_like_update_response, looks_like_emit.
    by eapply looks_like_set_responseBuffers.
  - cbn [List.length]. change (run (S (S (List.length bs))) w)
      with (run (S (List.length bs)) (run_next w)).
    pose proof Hw as (Hn & Hmi & Him & _ & _ & _ & Hbuf & _).
    rewrite (run_next_immediate w _ _ Hn Hmi Him). cbn [run_task].
    apply (looks_like_set_immediateQueue _ _ _ _ _ _ _ []) in Hw.
    rewrite (emitChunk_cons _ b bs) by done.
    cbn [map].
    match goal with
    | |- looks_like _ _ _ _ _ _ _ _ (tr ++ (?e :: ?l) ++ ?x) _ =>
        replace (tr ++ (e :: l) ++ x) with ((tr ++ [e]) ++ l ++ x)
          by (by rewrite <- app_assoc)
    end.
    apply IH.
    apply (looks_like_setImmediate _ _ _ [] _ _ _ _).
    apply looks_like_emit. by eapply looks_like_set_responseBuffers.
Qed.

Lemma looks_like_set_timer_fired w ticks micro imm timers tr bs t :
  looks_like r i ic w ticks micro imm timers tr bs ->
  looks_like r i ic (set_now t (set_timerQueue [] w)) ticks micro imm [] tr bs.
Proof. intros (?&?&?&?&?&?&?&?). by repeat split. Qed.






Lemma looks_like_count_and_remove w ticks micro imm timers tr bs :
  looks_like r i ic w ticks micro imm timers tr bs ->
  looks_like r i ic (count_and_remove i w) ticks micro imm timers tr bs.
Proof.
  intros (?&?&?&?&?&Hab&?&Hst).
  destruct (count_and_remove_frame i w) as (Hro & Hq1 & Hq2 & Hq3 & Hq4 & _ & Htr).
  unfold looks_like, req_aborted, the_request in *.
  rewrite Hro, Hq1, Hq2, Hq3, Hq4, Htr, static_count_and_remove.
  by repeat split.
Qed.



End Steps.
End Loop.

Section EncodedChunks.
Context {env : Env}.

End EncodedChunks.

(** ** Further properties of the two modules *)

Lemma follows_refl w : follows w w.
Proof.
  split; [done|]. split; [done|]. exists []. split; [by rewrite app_nil_r|].
  intros r res Hin. by apply elem_of_nil in Hin.
Qed.

Lemma req_aborted_follows w w' r :
  follows w w' -> req_aborted w' r = req_aborted w r.
Proof. intros (Hab & _). unfold req_aborted. by rewrite Hab. Qed.

Lemma follows_trans w1 w2 w3 : follows w1 w2 -> follows w2 w3 -> follows w1 w3.
Proof.
  intros H12 H23. pose proof H12 as (Hab1 & Hen1 & evs1 & Htr1 & Hres1).
  destruct H23 as (Hab2 & Hen2 & evs2 & Htr2 & Hres2).
  split; [intros r; by rewrite Hab2|]. split; [auto|].
  exists (evs1 ++ evs2). split; [by rewrite Htr2, Htr1, app_assoc|].
  intros r res [Hin|Hin]%elem_of_app; [eauto|].
  rewrite <- (req_aborted_follows w1 w2) by done. eauto.
Qed.

(** A step that leaves the requests and the trace alone. *)
Lemma follows_silent w w' :
  requestObjects w' = requestObjects w -> trace w' = trace w -> follows w w'.
Proof.
  intros Hro Htr. unfold follows, the_request. rewrite Hro.
  split; [done|]. split; [done|]. exists []. split; [by rewrite Htr, app_nil_r|].
  intros r res Hin. by apply elem_of_nil in Hin.
Qed.

Lemma follows_emit w0 w e :
  follows w0 w ->
  (forall r res, e = Req_emit_response r res -> req_aborted w r = false) ->
  follows w0 (emit e w).
Proof.
  intros H0 He. eapply follows_trans; [exact H0|].
  split; [done|]. split; [done|]. exists [e]. split; [done|].
  intros r res Hin. apply list_elem_of_singleton in Hin. eauto.
Qed.

Lemma follows_update_request w0 w r f :
  follows w0 w ->
  (forall q, Request.aborted (f q) = Request.aborted q) ->
  (forall q, Request.ended q = true -> Request.ended (f q) = true) ->
  follows w0 (update_request r f w).
Proof.
  intros H0 Hab Hen. eapply follows_trans; [exact H0|].
  split; [|split].
  - intros r'. destruct (decide (r = r')) as [->|Hne].
    + by rewrite the_request_update_request.
    + by rewrite the_request_update_request_ne.
  - intros r'. destruct (decide (r = r')) as [->|Hne].
    + rewrite the_request_update_request. auto.
    + by rewrite the_request_update_request_ne.
  - exists []. split; [by rewrite app_nil_r|].
    intros r' res Hin. by apply elem_of_nil in Hin.
Qed.

Lemma follows_update_response w0 w r f :
  follows w0 w -> follows w0 (update_response r f w).
Proof. intros H0. by apply follows_update_request. Qed.

Lemma follows_then w0 w w' :
  follows w0 w -> requestObjects w' = requestObjects w -> trace w' = trace w ->
  follows w0 w'.
Proof. intros H0 Hro Htr. eapply follows_trans; [exact H0|]. by apply follows_silent. Qed.

Lemma follows_count_and_remove w0 w i :
  follows w0 w -> follows w0 (count_and_remove i w).
Proof.
  intros H0. destruct (count_and_remove_frame i w) as (Hro & _ & _ & _ & _ & _ & Htr).
  by apply (follows_then w0 w).
Qed.

(** Peels the outermost operation of the world in the goal. *)
Ltac follows_step :=
  lazymatch goal with
  | |- follows ?w ?w => apply follows_refl
  | |- follows _ (emit _ _) => apply follows_emit; [|try (intros ? ? ?; discriminate)]
  | |- follows _ (update_response _ _ _) => apply follows_update_response
  | |- follows _ (update_request _ _ _) =>
      apply follows_update_request; [|try done; try (by intros [])..]
  | |- follows _ (count_and_remove _ _) => apply follows_count_and_remove
  | |- follows _ (process_nextTick _ ?w) => apply (follows_then _ w); [|reflexivity..]
  | |- follows _ (emitError _ _ ?w) => apply (follows_then _ w); [|reflexivity..]
  | |- follows _ (promise_then _ ?w) => apply (follows_then _ w); [|reflexivity..]
  | |- follows _ (setImmediate _ ?w) => apply (follows_then _ w); [|reflexivity..]
  | |- follows _ (setTimeout _ _ ?w) => apply (follows_then _ w); [|reflexivity..]
  | |- follows _ (update_interceptor _ _ ?w) => apply (follows_then _ w); [|reflexivity..]
  | |- follows _ (set_nextTickQueue _ ?w) => apply (follows_then _ w); [|reflexivity..]
  | |- follows _ (set_microtaskQueue _ ?w) => apply (follows_then _ w); [|reflexivity..]
  | |- follows _ (set_immediateQueue _ ?w) => apply (follows_then _ w); [|reflexivity..]
  | |- follows _ (set_timerQueue _ ?w) => apply (follows_then _ w); [|reflexivity..]
  | |- follows _ (set_now _ ?w) => apply (follows_then _ w); [|reflexivity..]
  end.

Section Follows.
Context {env : Env}.

Lemma follows_setHeader w0 w r name v :
  follows w0 w -> follows w0 (setHeader r name v w).
Proof.
  intros H0. unfold setHeader. destruct (String.eqb name "expect" && _); repeat follows_step; done.
Qed.

Lemma follows_setRequestHeaders w0 w r i :
  follows w0 w -> follows w0 (setRequestHeaders r i w).
Proof.
  intros H0. unfold setRequestHeaders. destruct (truthy _ && truthy _).
  - apply follows_setHeader. by follows_step.
  - destruct (Options.host _); [|done]. destruct (negb _ && negb _); [|done].
    by apply follows_setHeader.
Qed.

Lemma follows_setRequestHeaders_fold w0 w r l :
  follows w0 w ->
  follows w0 (foldl (fun w interceptor => setRequestHeaders r interceptor w) w l).
Proof.
  revert w. induction l as [|i l IH]; intros w H0; simpl; [done|].
  by apply IH, follows_setRequestHeaders.
Qed.

Lemma follows_emitChunk w0 w r i : follows w0 w -> follows w0 (emitChunk r i w).
Proof. intros H0. unfold emitChunk. destruct (truthy _); repeat follows_step; done. Qed.

Lemma follows__respond w0 w r i body : follows w0 w -> follows w0 (_respond r i body w).
Proof.
  intros H0. unfold _respond. destruct (req_aborted w r) eqn:Hab; [done|].
  destruct (isStream body); repeat follows_step; try done.
  all: by intros r' res [= -> _].
Qed.

Lemma follows_respond w0 w r i body : follows w0 w -> follows w0 (respond r i body w).
Proof.
  intros H0. unfold respond. destruct (req_aborted w r) eqn:Hab; [done|].
  destruct (negb _ && (0 <? Interceptor.delayConnectionInMs _)).
  - repeat follows_step. destruct (negb _ && _); repeat follows_step; done.
  - apply follows__respond. destruct (negb _ && _); repeat follows_step; done.
Qed.

Lemma follows_transformResponseBody w0 w r i body :
  follows w0 w -> follows w0 (snd (transformResponseBody r i body w)).
Proof.
  intros H0. unfold transformResponseBody.
  destruct body; simpl;
    repeat match goal with
           | |- context [if ?b then _ else _] => destruct b; simpl
           end;
    repeat follows_step; done.
Qed.

Lemma follows_continueWithResponseBody w0 w r i body :
  follows w0 w -> follows w0 (continueWithResponseBody r i body w).
Proof.
  intros H0. unfold continueWithResponseBody.
  pose proof (follows_transformResponseBody w0 w r i body H0) as Ht.
  destruct (transformResponseBody r i body w) as [body1 w1]. simpl in Ht.
  destruct (req_aborted _ r); repeat follows_step; done.
Qed.

Lemma follows_continueWithFullResponse w0 w r i v :
  follows w0 w -> follows w0 (continueWithFullResponse r i v w).
Proof.
  intros H0. unfold continueWithFullResponse.
  destruct (parseFullReplyResult _ v) as [[body|e] response].
  - apply follows_continueWithResponseBody. by follows_step.
  - repeat follows_step. done.
Qed.

Lemma follows_Promise_resolve_then_catch w0 w r i o k :
  follows w0 w -> follows w0 (Promise_resolve_then_catch r i o k w).
Proof.
  intros H0. unfold Promise_resolve_then_catch. destruct o; repeat follows_step; done.
Qed.

Lemma follows_end_mocking w0 w r i requestBody isBinary :
  follows w0 w -> follows w0 (end_mocking r i requestBody isBinary w).
Proof.
  intros H0. unfold end_mocking.
  set (w1 := update_request r _ (update_interceptor i _ (setRequestHeaders r i w))).
  assert (H1 : follows w0 w1).
  { unfold w1. follows_step. follows_step. by apply follows_setRequestHeaders. }
  clearbody w1. clear H0.
  set (ic := the_interceptor w1 i).
  assert (Herr : forall em, follows w0
            (setTimeout (T_emitError r (if isObject em then Thrown em
                                        else Error (String_of em) None None))
               (Interceptor.getTotalDelay
                  (the_interceptor
                     (count_and_remove i (emit (Scope_emit_request
                        (Scope.id (Interceptor.scope ic)) r i requestBody) w1)) i))
               (count_and_remove i (emit (Scope_emit_request
                  (Scope.id (Interceptor.scope ic)) r i requestBody) w1)))).
  { intros em. repeat follows_step. done. }
  destruct (Interceptor.errorMessage ic) eqn:Hem; try apply Herr.
  clear Herr.
  destruct (Interceptor.replyFunction ic) as [fn|];
    [apply follows_Promise_resolve_then_catch; repeat follows_step; done|].
  destruct (Interceptor.fullReplyFunction ic) as [fn|];
    [apply follows_Promise_resolve_then_catch; repeat follows_step; done|].
  destruct (isContentEncoded _ && negb _).
  - destruct (negb _); [repeat follows_step; done|].
    apply follows_continueWithResponseBody. repeat follows_step. done.
  - apply follows_continueWithResponseBody. repeat follows_step. done.
Qed.

Lemma follows_end_no_match w0 w r requestBody requestBodyBuffer :
  follows w0 w -> follows w0 (end_no_match r requestBody requestBodyBuffer w).
Proof.
  intros H0. unfold end_no_match. destruct (existsb _ _ && _); repeat follows_step; done.
Qed.

Lemma follows_end_prepare w0 w r : follows w0 w -> follows w0 (end_prepare r w).
Proof.
  intros H0. unfold end_prepare. apply follows_setRequestHeaders_fold.
  repeat follows_step. done.
Qed.

Lemma follows_end w0 w r : follows w0 w -> follows w0 (end_ r w).
Proof.
  intros H0. unfold end_. cbv zeta.
  destruct (find_interceptor _ r _) as [i|].
  - apply follows_end_mocking. follows_step. by apply follows_end_prepare.
  - apply follows_end_no_match. follows_step. by apply follows_end_prepare.
Qed.

Lemma follows_run_task w0 w t : follows w0 w -> follows w0 (run_task t w).
Proof.
  intros H0. destruct t; cbn [run_task].
  - destruct (Request.socket_authorized _); repeat follows_step; done.
  - repeat follows_step; done.
  - repeat follows_step; done.
  - repeat follows_step; done.
  - repeat follows_step; done.
  - by apply follows_continueWithResponseBody.
  - by apply follows_continueWithFullResponse.
  - by apply follows_respond.
  - by apply follows__respond.
  - by apply follows_emitChunk.
Qed.

Lemma follows_run_next w0 w : follows w0 w -> follows w0 (run_next w).
Proof.
  intros H0. unfold run_next.
  destruct (nextTickQueue w); [|apply follows_run_task; by follows_step].
  destruct (microtaskQueue w); [|apply follows_run_task; by follows_step].
  destruct (immediateQueue w); [|apply follows_run_task; by follows_step].
  destruct (next_timer _) as [[[due t] rest]|]; [|done].
  apply follows_run_task. repeat follows_step. done.
Qed.

Lemma follows_run n w0 w : follows w0 w -> follows w0 (run n w).
Proof.
  revert w. induction n as [|n IH]; intros w H0; [done|].
  cbn [run]. by apply IH, follows_run_next.
Qed.
End Follows.

Lemma responses_to_app r tr1 tr2 :
  responses_to r (tr1 ++ tr2) = responses_to r tr1 ++ responses_to r tr2.
Proof.
  induction tr1 as [|e tr1 IH]; [done|]. destruct e; simpl; try done.
  destruct (_ =? r)%nat; simpl; by rewrite IH.
Qed.

Lemma responses_to_none r evs :
  (forall res, Req_emit_response r res ∉ evs) -> responses_to r evs = [].
Proof.
  induction evs as [|e evs IH]; intros Hno; [done|].
  assert (Hrest : forall res, Req_emit_response r res ∉ evs).
  { intros res Hin. apply (Hno res). by apply list_elem_of_further. }
  destruct e; simpl; auto.
  destruct (r0 =? r)%nat eqn:Hr; [|auto].
  apply Nat.eqb_eq in Hr as ->. destruct (Hno res). apply list_elem_of_here.
Qed.

Section Abort.
Context {env : Env}.

Lemma follows_no_response w w' r :
  follows w w' -> req_aborted w r = true ->
  responses_to r (trace w') = responses_to r (trace w).
Proof.
  intros (_ & _ & evs & -> & Hres) Hab.
  rewrite responses_to_app, (responses_to_none r evs); [apply app_nil_r|].
  intros res Hin. apply Hres in Hin. congruence.
Qed.

(** The part of [req.abort] that follows the assignment of [req.aborted]. *)
Lemma req_abort_marked (r : nat) (w : World) :
  req_aborted w r = false ->
  let w1 := update_request r (Request.set_aborted (Some (now w))) w in
  req_aborted w1 r = true /\ trace w1 = trace w /\ follows w1 (req_abort r w).
Proof.
  intros Hab w1. split; [|split; [done|]].
  - unfold req_aborted, w1. by rewrite the_request_update_request.
  - unfold req_abort. rewrite Hab. fold w1.
    repeat follows_step; try done.
    destruct (negb _); [apply follows_end|]; apply follows_refl.
Qed.

Lemma req_aborted_req_abort (r : nat) (w : World) :
  req_aborted (req_abort r w) r = true.
Proof.
  destruct (req_aborted w r) eqn:Hab.
  - unfold req_abort. by rewrite Hab.
  - destruct (req_abort_marked r w Hab) as (H1 & _ & Hf).
    by rewrite (req_aborted_follows _ _ r Hf).
Qed.

(** X2. A second [req.abort()] does nothing: the first one marks the
    request, whatever [end] does in between. *)
Theorem abort_twice (r : nat) (w : World) :
  req_abort r (req_abort r w) = req_abort r w.
Proof. unfold req_abort at 1. by rewrite req_aborted_req_abort. Qed.

(** X1. Once [req.abort()] was called, no 'response' event is emitted for
    the request, however long the loop runs and whatever was scheduled for
    it before: the responses on the trace are those that were there. *)
Theorem no_response_after_abort (r : nat) (w : World) (n : nat) :
  responses_to r (trace (run n (req_abort r w))) = responses_to r (trace w).
Proof.
  destruct (req_aborted w r) eqn:Hab.
  - unfold req_abort. rewrite Hab.
    apply follows_no_response; [|done]. apply follows_run, follows_refl.
  - destruct (req_abort_marked r w Hab) as (H1 & Htr & Hf).
    rewrite <- Htr. apply follows_no_response; [|done]. by apply follows_run.
Qed.

(** X3. After [req.abort()], [req.write], [req.end] and
    [req.flushHeaders] only schedule the error 'Request aborted' ([write]
    also its 'drain' event, and it still returns false): nothing is added to
    the request body, no callback is called and [end] does not run. *)
Theorem aborted_request_refuses (r : nat) (w : World)
    (buffer encoding chunk callback : value) (cb : option (World -> World)) :
  let w' := req_abort r w in
  let aborted := Error "Request aborted" None None in
  req_write r buffer encoding cb w' =
    (false, setImmediate (T_drain r) (emitError r aborted w')) /\
  req_end r chunk encoding callback w' = emitError r aborted w' /\
  req_flushHeaders r w' = emitError r aborted w'.
Proof.
  intros w' aborted. pose proof (req_aborted_req_abort r w) as Hab. fold w' in Hab.
  split; [|split].
  - unfold req_write. by rewrite Hab.
  - unfold req_end.
    destruct chunk, encoding; cbn [negb andb]; rewrite ?Hab; cbn [negb andb]; by rewrite ?Hab.
  - unfold req_flushHeaders. rewrite Hab. cbn [negb andb]. by rewrite Hab.
Qed.

Lemma ended_end (r : nat) (w : World) : Request.ended (the_request (end_ r w) r) = true.
Proof.
  set (w1 := update_request r (Request.set_ended true) w).
  assert (Hf : follows w1 (end_ r w)).
  { unfold end_. cbv zeta.
    assert (Hp : follows w1 (end_prepare r w)).
    { unfold end_prepare. fold w1. apply follows_setRequestHeaders_fold.
      follows_step; [apply follows_refl|done..]. }
    destruct (find_interceptor _ r _) as [i|].
    - apply follows_end_mocking. by follows_step.
    - apply follows_end_no_match. by follows_step. }
  destruct Hf as (_ & Hen & _). apply Hen.
  unfold w1. by rewrite the_request_update_request.
Qed.

(** X4. [end] runs once: after a [req.end()] that was not aborted, a
    second [req.end()] and [req.flushHeaders()] leave everything as it is,
    whatever their arguments. *)
Theorem end_twice (r : nat) (w : World) (chunk encoding callback : value)
    (chunk' encoding' callback' : value) :
  let w' := req_end r chunk encoding callback w in
  req_aborted w' r = false ->
  req_end r chunk' encoding' callback' w' = w' /\
  req_flushHeaders r w' = w'.
Proof.
  intros w' Hab.
  assert (Hen : Request.ended (the_request w' r) = true).
  { unfold w', req_end in *.
    destruct (match chunk, encoding with
              | VFunction _, _ => (VNull, encoding, chunk)
              | _, VFunction _ => (chunk, VNull, encoding)
              | _, _ => (chunk, encoding, callback)
              end) as [[c e] cb].
    set (w2 := if negb (req_aborted w r) && negb (Request.ended (the_request w r))
               then _ else w) in *.
    assert (Hab2 : req_aborted w2 r = false).
    { destruct (req_aborted w2 r) eqn:H2; [|done].
      change (req_aborted w2 r = false) in Hab. congruence. }
    rewrite Hab2. unfold w2 in *.
    destruct (negb (req_aborted w r) && negb (Request.ended (the_request w r))) eqn:Hgo.
    - unfold req_write. apply andb_prop in Hgo as [Hna _]. rewrite Hna. cbn [snd].
      apply ended_end.
    - rewrite Hab2 in Hgo. by apply negb_false_iff in Hgo. }
  split.
  - unfold req_end.
    destruct chunk', encoding'; rewrite Hab, Hen; cbn [negb andb]; by rewrite ?Hab.
  - unfold req_flushHeaders. rewrite Hab, Hen. cbn [negb andb]. by rewrite Hab.
Qed.
End Abort.

Section Writing.
Context {env : Env}.

Lemma req_write_open (r : nat) (buffer encoding : value) (w : World) :
  req_aborted w r = false ->
  let w' := snd (req_write r buffer encoding None w) in
  req_aborted w' r = false /\
  Request.requestBodyBuffers (the_request w' r) =
    Request.requestBodyBuffers (the_request w r) ++
    (if truthy buffer
     then [match buffer with VBuffer b => b | _ => Buffer_from buffer encoding end]
     else []).
Proof.
  intros Hab. unfold req_write. rewrite Hab. cbn [negb snd].
  destruct (truthy buffer).
  - unfold req_aborted in *.
    change (the_request (setImmediate ?t ?w0) r) with (the_request w0 r).
    rewrite the_request_update_request. by split.
  - split; [done|]. by rewrite app_nil_r.
Qed.

(** X5. The request body that [end] sees is what was written, in the
    order of the writes: buffers are appended as they are, a non-empty
    string as [Buffer.from(chunk, encoding)], and an undefined, null or
    empty chunk adds nothing. *)
Theorem written_chunks_accumulate (r : nat) (w : World) :
  req_aborted w r = false ->
  (forall bs,
     end_requestBodyBuffer (write_buffers r bs w) r =
     end_requestBodyBuffer w r ++ List.concat bs) /\
  (forall (s : string) (encoding : value),
     s <> EmptyString ->
     end_requestBodyBuffer (snd (req_write r (VString s) encoding None w)) r =
     end_requestBodyBuffer w r ++ Buffer_from (VString s) encoding) /\
  (forall (chunk encoding : value),
     chunk = VUndefined \/ chunk = VNull \/ chunk = VString "" ->
     end_requestBodyBuffer (snd (req_write r chunk encoding None w)) r =
     end_requestBodyBuffer w r).
Proof.
  intros Hab. split; [|split].
  - intros bs. revert w Hab. induction bs as [|b bs IH]; intros w Hab.
    + by rewrite app_nil_r.
    + cbn [write_buffers foldl List.concat].
      destruct (req_write_open r (VBuffer b) VUndefined w Hab) as [Hab' Hbuf].
      fold (write_buffers r bs (snd (req_write r (VBuffer b) VUndefined None w))).
      rewrite IH by done. unfold end_requestBodyBuffer. rewrite Hbuf.
      cbn [truthy]. by rewrite concat_app, <- app_assoc, (app_nil_r b : List.concat [b] = b).
  - intros s encoding Hs.
    destruct (req_write_open r (VString s) encoding w Hab) as [_ Hbuf].
    unfold end_requestBodyBuffer. rewrite Hbuf. cbn [truthy].
    assert (String.eqb s "" = false) as -> by (by apply String.eqb_neq).
    cbn [negb]. rewrite concat_app. simpl. by rewrite app_nil_r.
  - intros chunk encoding Hc.
    destruct (req_write_open r chunk encoding w Hab) as [_ Hbuf].
    unfold end_requestBodyBuffer. rewrite Hbuf.
    destruct Hc as [->|[->| ->]]; cbn; by rewrite app_nil_r.
Qed.
End Writing.

Section Unmatched.
Context {env : Env}.

Lemma end_unmatched (r : nat) (w : World) :
  find_interceptor (end_prepare r w) r (end_requestBody w r) = None ->
  end_ r w =
  end_no_match r (end_requestBody w r) (end_requestBodyBuffer w r)
    (update_request r (Request.set_interceptor None) (end_prepare r w)).
Proof. intros Hfind. unfold end_. cbv zeta. by rewrite Hfind. Qed.

Lemma end_no_match_decision (r : nat) (w : World) :
  let w2 := update_request r (Request.set_interceptor None) (end_prepare r w) in
  only_requests_differ w w2 /\
  Request.options (the_request w2 r) = Request.options (the_request (end_prepare r w) r) /\
  existsb
    (fun i => Interceptor.matchHostName (the_interceptor (emit (GlobalEmitter_emit_no_match r) w2) i)
                (Request.options (the_request w2 r)) &&
              Interceptor.options_allowUnmocked
                (the_interceptor (emit (GlobalEmitter_emit_no_match r) w2) i))
    (interceptors_of (emit (GlobalEmitter_emit_no_match r) w2) r) = some_allowUnmocked r w /\
  Request.isClientRequest (the_request (emit (GlobalEmitter_emit_no_match r) w2) r) =
    Request.isClientRequest (the_request w r).
Proof.
  intros w2.
  assert (Hf : only_requests_differ w w2).
  { eapply only_requests_differ_trans; [apply end_prepare_frame|].
    apply only_requests_differ_update_request. }
  assert (Hsk : skeleton (the_request w2 r) = skeleton (the_request w r)).
  { unfold w2. rewrite skeleton_update_request by done. apply skeleton_end_prepare. }
  split; [done|]. split; [unfold w2; by rewrite the_request_update_request|].
  split.
  - unfold some_allowUnmocked.
    change (the_request (emit ?e w2) r) with (the_request w2 r).
    change (interceptors_of (emit ?e w2) r) with (interceptors_of w2 r).
    assert (Hc : interceptors_of w2 r = interceptors_of w r).
    { unfold interceptors_of, scopes_at. destruct Hf as (-> & _).
      change (Request.interceptors (the_request w2 r))
        with (Request.interceptors (skeleton (the_request w2 r))).
      by rewrite Hsk. }
    rewrite Hc. unfold w2 at 2. rewrite the_request_update_request.
    cbn [Request.options Request.set_interceptor].
    clear Hc. induction (interceptors_of w r) as [|i l IH]; [done|].
    cbn [existsb]. rewrite IH.
    change (the_interceptor (emit ?e w2) i) with (the_interceptor w2 i).
    by rewrite (the_interceptor_frame w w2).
  - change (the_request (emit ?e w2) r) with (the_request w2 r).
    change (Request.isClientRequest (skeleton (the_request w2 r)) =
            Request.isClientRequest (skeleton (the_request w r))).
    by rewrite Hsk.
Qed.

(** X6. A request that no interceptor accepts, when no interceptor for
    its host name allows unmocked requests (or the request is not a
    [ClientRequest]): [end] emits 'no match' and schedules one error,
    'Nock: No match for request ...' with status code 404, for the next
    tick; the registry and the interceptors are untouched, and from an idle
    loop the error is what is emitted next. *)
Theorem unmatched_request_fails_with_404 (r : nat) (w : World) :
  find_interceptor (end_prepare r w) r (end_requestBody w r) = None ->
  some_allowUnmocked r w && Request.isClientRequest (the_request w r) = false ->
  let w' := end_ r w in
  let error :=
    no_match_error (Request.options (the_request (end_prepare r w) r)) (end_requestBody w r) in
  (allInterceptors w' = allInterceptors w /\
   interceptorObjects w' = interceptorObjects w /\
   trace w' = trace w ++ [GlobalEmitter_emit_no_match r] /\
   nextTickQueue w' = nextTickQueue w ++ [T_error r error] /\
   microtaskQueue w' = microtaskQueue w /\
   immediateQueue w' = immediateQueue w /\
   timerQueue w' = timerQueue w) /\
  (idle w ->
   idle (run_next w') /\
   trace (run_next w') =
     trace w ++ [GlobalEmitter_emit_no_match r; Req_emit_error r error]).
Proof.
  intros Hfind Hno w' error.
  destruct (end_no_match_decision r w) as (Hf & Ho & Hex & Hcr).
  assert (Hw' : w' = emitError r error
                  (emit (GlobalEmitter_emit_no_match r)
                     (update_request r (Request.set_interceptor None) (end_prepare r w)))).
  { unfold w'. rewrite end_unmatched by done. unfold end_no_match.
    cbv zeta. rewrite Hex, Hcr, Hno. unfold error, no_match_error. by rewrite Ho. }
  remember (update_request r (Request.set_interceptor None) (end_prepare r w)) as w2 eqn:Ew2.
  clear Ew2. destruct Hf as (Ha & Hio & Hq1 & Hq2 & Hq3 & Hq4 & _ & Htr).
  assert (Hall : allInterceptors w' = allInterceptors w /\
                 interceptorObjects w' = interceptorObjects w /\
                 trace w' = trace w ++ [GlobalEmitter_emit_no_match r] /\
                 nextTickQueue w' = nextTickQueue w ++ [T_error r error] /\
                 microtaskQueue w' = microtaskQueue w /\
                 immediateQueue w' = immediateQueue w /\
                 timerQueue w' = timerQueue w).
  { rewrite Hw'. cbn. by rewrite Ha, Hio, Hq1, Hq2, Hq3, Hq4, Htr. }
  split; [exact Hall|].
  destruct Hall as (_ & _ & Ht' & Hn' & Hm' & Hi' & Hti').
  intros (Hn & Hmi & Him & Hti).
  unfold run_next. rewrite Hn', Hn. simpl.
  unfold idle. simpl. rewrite Hm', Hi', Hti', Ht', <- app_assoc.
  by repeat split.
Qed.

(** X7. A [ClientRequest] that no interceptor accepts, while an
    interceptor for its host name allows unmocked requests: after 'no match'
    the request is handed to a new [ClientRequest] with the options of the
    request and the body as it was written, byte for byte; no error is
    scheduled and the registry is untouched. *)
Theorem unmatched_request_passes_through (r : nat) (w : World) :
  find_interceptor (end_prepare r w) r (end_requestBody w r) = None ->
  some_allowUnmocked r w = true ->
  Request.isClientRequest (the_request w r) = true ->
  let w' := end_ r w in
  allInterceptors w' = allInterceptors w /\
  interceptorObjects w' = interceptorObjects w /\
  trace w' =
    trace w ++
    [GlobalEmitter_emit_no_match r;
     ClientRequest_end r (Request.options (the_request (end_prepare r w) r))
       (List.concat (Request.requestBodyBuffers (the_request w r)))] /\
  nextTickQueue w' = nextTickQueue w /\
  microtaskQueue w' = microtaskQueue w /\
  immediateQueue w' = immediateQueue w /\
  timerQueue w' = timerQueue w.
Proof.
  intros Hfind Hsome Hcr0 w'.
  destruct (end_no_match_decision r w) as (Hf & Ho & Hex & Hcr).
  assert (Hw' : w' = emit (ClientRequest_end r (Request.options (the_request (end_prepare r w) r))
                             (end_requestBodyBuffer w r))
                  (emit (GlobalEmitter_emit_no_match r)
                     (update_request r (Request.set_interceptor None) (end_prepare r w)))).
  { unfold w'. rewrite end_unmatched by done. unfold end_no_match.
    cbv zeta. rewrite Hex, Hcr, Hsome, Hcr0. cbn [andb]. by rewrite Ho. }
  remember (update_request r (Request.set_interceptor None) (end_prepare r w)) as w2 eqn:Ew2.
  clear Ew2. destruct Hf as (Ha & Hio & Hq1 & Hq2 & Hq3 & Hq4 & _ & Htr).
  rewrite Hw'. cbn. rewrite Ha, Hio, Hq1, Hq2, Hq3, Hq4, Htr, <- app_assoc.
  by repeat split.
Qed.
End Unmatched.

Section Bodies.
Context {env : Env}.
Variables (r i : nat) (ic : Interceptor.t).

Lemma _respond_step_body w ticks micro imm timers tr bs (body : value) :
  isStream body = false ->
  looks_like r i ic w ticks micro imm timers tr bs ->
  exists response,
    looks_like r i ic (_respond r i body w) ticks micro
      (imm ++ [T_emitChunk r i]) timers
      (tr ++ [Req_emit_response r response])
      (Some (default [] bs ++ match body with VUndefined => [] | _ => [body] end)).
Proof.
  intros Hst Hw. pose proof Hw as (_&_&_&_&_&Hab&Hbuf&_).
  unfold _respond. rewrite Hab, Hst.
  change (the_request (emit ?e w) r) with (the_request w r).
  rewrite Hbuf.
  eexists. apply looks_like_setImmediate.
  replace (Some (default [] bs ++ match body with VUndefined => [] | _ => [body] end))
    with (Some match body with
               | VUndefined => default [] bs
               | _ => default [] bs ++ [body]
               end)
    by (destruct body; by rewrite ?app_nil_r).
  eapply looks_like_set_responseBuffers. by apply looks_like_emit.
Qed.

Lemma respond_run_body w tr bs (body : value) :
  isStream body = false ->
  looks_like r i ic w [T_respond r i body] [] [] [] tr bs ->
  exists (n : nat) (delays : list event) (response : Response.t),
    (n <= 2)%nat /\ Forall (is_delay r) delays /\
    looks_like r i ic (run n w) [] [] [T_emitChunk r i] []
      (tr ++ delays ++ [Req_emit_response r response])
      (Some (default [] bs ++ match body with VUndefined => [] | _ => [body] end)).
Proof.
  intros Hstream Hw. pose proof Hw as (Hn&_).
  apply (looks_like_set_nextTickQueue _ _ _ _ _ _ _ _ _ _ []) in Hw.
  set (w0 := set_nextTickQueue [] w) in *.
  assert (Hrun : run_next w = respond r i body w0)
    by (by rewrite (run_next_tick w _ _ Hn)).
  destruct (looks_like_scope _ _ _ _ _ _ _ _ _ _ Hw) as (_ & Hsd & Hcd).
  pose proof Hw as (_&_&_&_&_&Hab&_).
  unfold respond in Hrun. rewrite Hab, Hsd, Hcd in Hrun.
  set (socket := negb (Interceptor.socketDelayInMs ic =? 0) &&
                 (0 <? Interceptor.socketDelayInMs ic)) in *.
  set (w1 := if socket
             then emit (Socket_applyDelay r (Interceptor.socketDelayInMs ic)) w0
             else w0) in *.
  set (delays1 := if socket
                  then [Socket_applyDelay r (Interceptor.socketDelayInMs ic)]
                  else []).
  assert (Hd1 : Forall (is_delay r) delays1).
  { unfold delays1. destruct socket; [|constructor].
    constructor; [by eexists|constructor]. }
  assert (Hw1 : looks_like r i ic w1 [] [] [] [] (tr ++ delays1) bs).
  { unfold w1, delays1. destruct socket.
    - by apply looks_like_emit.
    - by rewrite app_nil_r. }
  destruct (negb (Interceptor.delayConnectionInMs ic =? 0) &&
            (0 <? Interceptor.delayConnectionInMs ic)).
  - set (e := Socket_applyDelay r (Interceptor.delayConnectionInMs ic)) in *.
    apply (looks_like_emit _ _ _ _ _ _ _ _ _ _ e) in Hw1.
    apply (looks_like_setTimeout _ _ _ _ _ _ _ _ _ _ (T__respond r i body)
             (Interceptor.delayConnectionInMs ic)) in Hw1.
    rewrite <- Hrun in Hw1. cbn [app] in Hw1.
    pose proof Hw1 as (Hn2 & Hmi2 & Him2 & Hti2 & _).
    assert (Hrun2 : run_next (run_next w) =
                    _respond r i body
                      (set_now (Z.max (now (run_next w))
                                  (now (emit e w1) +
                                   Z.max 1 (Interceptor.delayConnectionInMs ic)))
                         (set_timerQueue [] (run_next w)))).
    { unfold run_next at 1. rewrite Hn2, Hmi2, Him2, Hti2. reflexivity. }
    apply (looks_like_set_timer_fired _ _ _ _ _ _ _ _ _ _
             (Z.max (now (run_next w))
                (now (emit e w1) + Z.max 1 (Interceptor.delayConnectionInMs ic))))
      in Hw1.
    destruct (_respond_step_body _ _ _ _ _ _ _ body Hstream Hw1) as [response Hw2].
    rewrite <- Hrun2 in Hw2.
    exists 2%nat, (delays1 ++ [e]), response.
    split; [lia|]. split.
    + apply Forall_app. split; [done|]. constructor; [by eexists|constructor].
    + cbn [run]. rewrite <- !app_assoc in Hw2. by rewrite <- !app_assoc.
  - destruct (_respond_step_body _ _ _ _ _ _ _ body Hstream Hw1) as [response Hw2].
    rewrite <- Hrun in Hw2.
    exists 1%nat, delays1, response.
    split; [lia|]. split; [done|].
    cbn [run]. by rewrite <- app_assoc in Hw2.
Qed.

(** The body once [continueWithResponseBody] is through with it, for a
    string or a buffer sent without a delay. *)
Lemma continueWithResponseBody_plain w ticks micro imm timers tr bs (body : value) :
  Interceptor.delayInMs ic = 0 ->
  (exists s, body = VString s) \/ (exists b, body = VBuffer b) ->
  looks_like r i ic w ticks micro imm timers tr bs ->
  looks_like r i ic (continueWithResponseBody r i body w)
    (ticks ++ [T_respond r i (body_chunk body)]) micro imm timers tr bs.
Proof.
  intros Hd Hbody Hw. unfold continueWithResponseBody.
  assert (Hdel : Interceptor.delayInMs (the_interceptor w i) = 0).
  { destruct Hw as (_&_&_&_&_&_&_&Hst).
    change (Interceptor.delayInMs (static (the_interceptor w i)) = 0).
    by rewrite Hst. }
  assert (Ht : transformResponseBody r i body w = (body_chunk body, w)).
  { unfold transformResponseBody.
    destruct Hbody as [[s ->]|[b ->]]; rewrite Hdel; reflexivity. }
  rewrite Ht.
  apply looks_like_count_and_remove in Hw.
  pose proof Hw as (_&_&_&_&_&Hab&_). rewrite Hab.
  apply looks_like_process_nextTick.
  by do 3 apply looks_like_update_response.
Qed.
End Bodies.

Section Matched.
Context {env : Env}.

Lemma end_start (r i : nat) (w : World) :
  find_interceptor (end_prepare r w) r (end_requestBody w r) = Some i ->
  exists w2,
    end_ r w = end_mocking r i (end_requestBody w r) (end_isBinaryRequestBodyBuffer w r) w2 /\
    only_requests_differ w w2 /\
    skeleton (the_request w2 r) = skeleton (the_request w r).
Proof.
  intros Hfind. eexists. split; [|split].
  - unfold end_. cbv zeta. rewrite Hfind. reflexivity.
  - eapply only_requests_differ_trans; [apply end_prepare_frame|].
    apply only_requests_differ_update_request.
  - rewrite skeleton_update_request by done. apply skeleton_end_prepare.
Qed.

Lemma end_mocking_start (r i : nat) (w0 w : World) :
  only_requests_differ w0 w ->
  skeleton (the_request w r) = skeleton (the_request w0 r) ->
  matched r i w0
    (update_request r (fun q => Request.set_headers (Request.outgoingHeaders q) q)
       (update_interceptor i (Interceptor.set_req (Some r)) (setRequestHeaders r i w))).
Proof.
  intros Hf0 Hsk0.
  pose proof (setRequestHeaders_frame r i w) as Hf.
  pose proof (skeleton_setRequestHeaders r i r w) as Hsk.
  set (wa := setRequestHeaders r i w) in *.
  pose proof (only_requests_differ_trans _ _ _ Hf0 Hf)
    as (Ha & Hio & Hq1 & Hq2 & Hq3 & Hq4 & Hnow & Htr).
  assert (Hs : skeleton (the_request
                 (update_request r (fun q => Request.set_headers (Request.outgoingHeaders q) q)
                    (update_interceptor i (Interceptor.set_req (Some r)) wa)) r)
               = skeleton (the_request w0 r)).
  { rewrite skeleton_update_request by done.
    change (the_request (update_interceptor ?j ?f wa) r) with (the_request wa r).
    congruence. }
  unfold matched. cbn. rewrite Ha, Hq1, Hq2, Hq3, Hq4, Hnow, Htr.
  unfold the_interceptor at 1. rewrite Hio.
  repeat split; try done.
  - unfold req_aborted.
    change (Request.aborted (the_request ?x r)) with (Request.aborted (skeleton (the_request x r))).
    by rewrite Hs.
  - change (Request.responseBuffers (the_request ?x r))
      with (Request.responseBuffers (skeleton (the_request x r))).
    by rewrite Hs.
  - change (Request.awaiting (the_request ?x r))
      with (Request.awaiting (skeleton (the_request x r))).
    by rewrite Hs.
Qed.

Lemma matched_interceptor (r i : nat) (w w' : World) :
  matched r i w w' ->
  the_interceptor w' i = Interceptor.set_req (Some r) (the_interceptor w i).
Proof.
  intros (_ & Hio & _). unfold the_interceptor at 1. rewrite Hio.
  apply lookup_total_insert_eq.
Qed.

Lemma matched_untouched (r i : nat) (w w' : World) :
  matched r i w w' -> untouched_registry w w'.
Proof.
  intros (Ha & Hio & _). split; [done|]. intros j.
  unfold the_interceptor at 1. rewrite Hio.
  destruct (decide (i = j)) as [->|Hne].
  - by rewrite lookup_total_insert_eq.
  - by rewrite lookup_total_insert_ne.
Qed.
End Matched.

(** [interceptor.interceptionCounter++; remove(interceptor)] depend on the
    registry and on the interceptor only. *)
Lemma count_and_remove_agree (r i : nat) (w w' : World) :
  allInterceptors w' = allInterceptors w ->
  the_interceptor w' i = Interceptor.set_req (Some r) (the_interceptor w i) ->
  allInterceptors (count_and_remove i w') = allInterceptors (remove i w) /\
  Interceptor.counter (the_interceptor (count_and_remove i w') i) =
    Interceptor.counter (the_interceptor (remove i w) i) /\
  Interceptor.interceptionCounter (the_interceptor (count_and_remove i w') i) =
    Interceptor.interceptionCounter (the_interceptor w i) + 1.
Proof.
  intros Ha Hic.
  unfold count_and_remove, remove.
  rewrite !the_interceptor_update_interceptor, Hic.
  cbn [Interceptor.__nock_scope Interceptor.counter Interceptor.basePath
       Interceptor.set_interceptionCounter Interceptor.set_req
       Interceptor.interceptionCounter].
  destruct (Scope.shouldPersist _).
  - rewrite the_interceptor_update_interceptor, Hic. cbn. rewrite ?Ha. split; [reflexivity|split; reflexivity].
  - destruct (0 <? _).
    + rewrite !the_interceptor_update_interceptor. cbn. rewrite ?Ha, ?Hic. by repeat split.
    + unfold update_entry. cbn. rewrite Ha.
      change (the_interceptor (set_allInterceptors ?a ?x) i) with (the_interceptor x i).
      rewrite !the_interceptor_update_interceptor. cbn. rewrite ?Hic. by repeat split.
Qed.

Ltac end_mocking_begin r i w Hfind wc Hm :=
  let w2 := fresh "w2" in
  let Hend := fresh "Hend" in
  let Hf := fresh "Hf" in
  let Hsk := fresh "Hsk" in
  destruct (end_start r i w Hfind) as (w2 & Hend & Hf & Hsk);
  pose proof (end_mocking_start r i w w2 Hf Hsk) as Hm;
  rewrite Hend; unfold end_mocking;
  set (wc := update_request r _ (update_interceptor i _ (setRequestHeaders r i w2))) in *;
  clearbody wc; clear Hend Hf Hsk; clear w2;
  rewrite (matched_interceptor r i w wc Hm);
  cbn [Interceptor.errorMessage Interceptor.replyFunction Interceptor.fullReplyFunction
       Interceptor.headers Interceptor.body Interceptor.delayInMs Interceptor.scope
       Interceptor.rawHeaders Interceptor.statusCode Interceptor.set_req].

Section ErrorReply.
Context {env : Env}.

End ErrorReply.

Section Callbacks.
Context {env : Env}.

Lemma run_next_emitError (r : nat) (error : exn) (w : World) :
  nextTickQueue w = [] ->
  run_next (emitError r error w) =
  emit (Req_emit_error r error) (set_nextTickQueue [] (emitError r error w)).
Proof. intros Hn. unfold run_next. cbn. by rewrite Hn. Qed.

(** [end] up to the call of the reply callback. *)
Lemma end_calls_back (r i : nat) (w : World) (fn : reply_fn) (k : continuation) :
  find_interceptor (end_prepare r w) r (end_requestBody w r) = Some i ->
  replies_with (the_interceptor w i) fn k ->
  exists (wc : World) (path : string) (parsedRequestBody : value),
    end_ r w = Promise_resolve_then_catch r i (fn_call fn path parsedRequestBody) k wc /\
    untouched_registry w wc /\
    nextTickQueue wc = nextTickQueue w /\
    microtaskQueue wc = microtaskQueue w /\
    immediateQueue wc = immediateQueue w /\
    timerQueue wc = timerQueue w /\
    trace wc = trace w ++ [request_event w r i] /\
    req_aborted wc r = req_aborted w r.
Proof.
  intros Hfind (Hem & Hk).
  end_mocking_begin r i w Hfind wc Hm. rewrite Hem.
  pose proof (matched_untouched r i w wc Hm) as Hu.
  destruct Hm as (_ & _ & Hq1 & Hq2 & Hq3 & Hq4 & _ & Htr & Hab & _).
  assert (Hab' : forall e f, req_aborted (update_response r f (emit e wc)) r = req_aborted w r).
  { intros e f. unfold req_aborted in *. by rewrite the_request_update_response. }
  destruct k.
  - rewrite Hk. eexists _, _, _. split; [reflexivity|].
    split; [exact Hu|]. cbn. rewrite Hq1, Hq2, Hq3, Hq4, Htr. repeat split; try done; apply Hab'.
  - destruct Hk as (-> & ->). eexists _, _, _. split; [reflexivity|].
    split; [exact Hu|]. cbn. rewrite Hq1, Hq2, Hq3, Hq4, Htr. repeat split; try done; apply Hab'.
Qed.

(** X9. When the promise of a reply callback is rejected, the request
    gets the rejection as its 'error' event, and the interceptor is not
    used up: the registry and the counters are as before the request. *)
Theorem rejected_reply_keeps_interceptor (r i : nat) (w : World)
    (fn : reply_fn) (k : continuation) (error : exn) :
  idle w ->
  find_interceptor (end_prepare r w) r (end_requestBody w r) = Some i ->
  replies_with (the_interceptor w i) fn k ->
  (forall path body, fn_call fn path body = Rejected error) ->
  let w' := run 2 (end_ r w) in
  idle w' /\
  trace w' = trace w ++ [request_event w r i; Req_emit_error r error] /\
  untouched_registry w w'.
Proof.
  intros (Hn & Hmi & Him & Hti) Hfind Hk Hfn w'.
  destruct (end_calls_back r i w fn k Hfind Hk)
    as (wc & path & body & Hend & (Ha & Hobj) & Hq1 & Hq2 & Hq3 & Hq4 & Htr & _).
  rewrite Hfn in Hend. cbn [Promise_resolve_then_catch] in Hend.
  assert (Hrun : w' = emit (Req_emit_error r error)
                   (set_nextTickQueue []
                      (emitError r error (set_microtaskQueue [] (promise_then (T_emitError r error) wc))))).
  { unfold w'. rewrite Hend. cbn [run].
    rewrite <- run_next_emitError by (cbn; by rewrite Hq1).
    f_equal. unfold run_next. cbn. by rewrite Hq1, Hq2, Hn, Hmi. }
  rewrite Hrun. unfold idle, untouched_registry. cbn.
  rewrite Hq3, Hq4, Htr, <- app_assoc. repeat split; try done.
Qed.

(** X10. When the result of a full reply callback is refused by
    [parseFullReplyResult], the request gets that error, and the
    interceptor is not used up. *)
Theorem invalid_full_reply_keeps_interceptor (r i : nat) (w : World)
    (fn : reply_fn) (result : value) (error : exn) :
  idle w ->
  find_interceptor (end_prepare r w) r (end_requestBody w r) = Some i ->
  replies_with (the_interceptor w i) fn K_fullResponse ->
  (forall path body, fn_call fn path body = Fulfilled result) ->
  (forall response, fst (parseFullReplyResult response result) = inr error) ->
  let w' := run 2 (end_ r w) in
  idle w' /\
  trace w' = trace w ++ [request_event w r i; Req_emit_error r error] /\
  untouched_registry w w'.
Proof.
  intros (Hn & Hmi & Him & Hti) Hfind Hk Hfn Hparse w'.
  destruct (end_calls_back r i w fn K_fullResponse Hfind Hk)
    as (wc & path & body & Hend & (Ha & Hobj) & Hq1 & Hq2 & Hq3 & Hq4 & Htr & _).
  rewrite Hfn in Hend. cbn [Promise_resolve_then_catch] in Hend.
  set (w1 := set_microtaskQueue [] (promise_then (T_continueWithFullResponse r i result) wc)).
  assert (H1 : run_next (end_ r w) = continueWithFullResponse r i result w1).
  { rewrite Hend. unfold run_next. cbn. by rewrite Hq1, Hq2, Hn, Hmi. }
  assert (H2 : exists response,
            continueWithFullResponse r i result w1 =
            emitError r error (update_response r (fun _ => response) w1)).
  { unfold continueWithFullResponse.
    pose proof (Hparse (Request.response (the_request w1 r))) as Hp.
    destruct (parseFullReplyResult _ result) as [res response]. cbn in Hp. subst res.
    by exists response. }
  destruct H2 as (response & H2).
  assert (Hrun : w' = emit (Req_emit_error r error)
                   (set_nextTickQueue []
                      (emitError r error (update_response r (fun _ => response) w1)))).
  { unfold w'. change (run 2 (end_ r w)) with (run_next (run_next (end_ r w))).
    rewrite H1, H2. apply run_next_emitError. cbn. by rewrite Hq1. }
  rewrite Hrun. unfold idle, untouched_registry, w1. cbn.
  rewrite Hq3, Hq4, Htr, <- app_assoc. repeat split; try done.
Qed.

(** X11. While the promise of a reply callback is pending, [end] has
    queued nothing and used nothing up; when the promise settles, exactly
    one reaction is queued: the continuation with the result, or the
    error. *)
Theorem pending_reply_waits (r i : nat) (w : World)
    (fn : reply_fn) (k : continuation) :
  find_interceptor (end_prepare r w) r (end_requestBody w r) = Some i ->
  replies_with (the_interceptor w i) fn k ->
  (forall path body, fn_call fn path body = Pending) ->
  let w' := end_ r w in
  (nextTickQueue w' = nextTickQueue w /\
   microtaskQueue w' = microtaskQueue w /\
   immediateQueue w' = immediateQueue w /\
   timerQueue w' = timerQueue w /\
   trace w' = trace w ++ [request_event w r i] /\
   untouched_registry w w') /\
  (forall result : value,
     microtaskQueue (reply_settles r (inl result) w') =
     microtaskQueue w ++
     [match k with
      | K_responseBody => T_continueWithResponseBody r i result
      | K_fullResponse => T_continueWithFullResponse r i result
      end]) /\
  (forall error : exn,
     microtaskQueue (reply_settles r (inr error) w') =
     microtaskQueue w ++ [T_emitError r error]).
Proof.
  intros Hfind Hk Hfn w'.
  destruct (end_calls_back r i w fn k Hfind Hk)
    as (wc & path & body & Hend & (Ha & Hobj) & Hq1 & Hq2 & Hq3 & Hq4 & Htr & _).
  rewrite Hfn in Hend. cbn [Promise_resolve_then_catch] in Hend.
  unfold w'. rewrite Hend. split; [|split].
  - unfold untouched_registry. cbn. by rewrite Hq1, Hq2, Hq3, Hq4, Htr.
  - intros result. unfold reply_settles. rewrite the_request_update_request.
    cbn. rewrite Hq2. by destruct k.
  - intros error. unfold reply_settles. rewrite the_request_update_request.
    cbn. by rewrite Hq2.
Qed.
End Callbacks.

Section PlainBody.
Context {env : Env}.

Lemma looks_like_matched (r i : nat) (ic : Interceptor.t) (w wc : World)
    ticks micro imm timers tr bs :
  ic = the_interceptor w i ->
  matched r i w wc ->
  looks_like r i ic w ticks micro imm timers tr bs ->
  looks_like r i ic wc ticks micro imm timers tr bs.
Proof.
  intros Hic Hm (?&?&?&?&?&?&?&?).
  pose proof (matched_interceptor r i w wc Hm) as Hi.
  destruct Hm as (_&_&Hq1&Hq2&Hq3&Hq4&_&Htr&Hab&Hbuf&_).
  unfold looks_like. rewrite Hq1, Hq2, Hq3, Hq4, Htr, Hab, Hbuf, Hi, <- Hic.
  by repeat split.
Qed.


End PlainBody.

Lemma count_and_remove_cong (i : nat) (w1 w2 : World) :
  allInterceptors w1 = allInterceptors w2 ->
  interceptorObjects w1 = interceptorObjects w2 ->
  allInterceptors (count_and_remove i w1) = allInterceptors (count_and_remove i w2) /\
  interceptorObjects (count_and_remove i w1) = interceptorObjects (count_and_remove i w2).
Proof.
  intros Ha Ho. unfold count_and_remove, remove, update_entry, update_interceptor, the_interceptor.
  cbn. rewrite Ho.
  destruct (Scope.shouldPersist _); [cbn; rewrite ?Ha, ?Ho; by split|].
  destruct (0 <? _); cbn; rewrite ?Ha, ?Ho; by split.
Qed.

Section AbortBeforeEnd.
Context {env : Env}.



End AbortBeforeEnd.

Section NewRequest.
Context {env : Env}.

Lemma setHeader_spec (r : nat) (name : string) (v : value) (w : World) :
  let w' := setHeader r name v w in
  Request.outgoingHeaders (the_request w' r) =
    <[toLowerCase name := v]> (Request.outgoingHeaders (the_request w r)) /\
  immediateQueue w' =
    immediateQueue w ++
    (if String.eqb name "expect" && expects_continue (Some v) then [T_continue r] else []) /\
  nextTickQueue w' = nextTickQueue w /\
  microtaskQueue w' = microtaskQueue w /\
  timerQueue w' = timerQueue w /\
  trace w' = trace w /\
  allInterceptors w' = allInterceptors w /\
  interceptorObjects w' = interceptorObjects w /\
  Request.set_outgoingHeaders ∅ (the_request w' r) =
    Request.set_outgoingHeaders ∅ (the_request w r).
Proof.
  unfold setHeader. cbn [expects_continue].
  destruct (String.eqb name "expect" && _).
  - change (the_request (setImmediate ?t ?x) r) with (the_request x r).
    rewrite the_request_update_request. by repeat split.
  - rewrite the_request_update_request. cbn. rewrite app_nil_r. by repeat split.
Qed.

Lemma setHeaders_forOwn_spec (r : nat) (h : gmap string value) (w : World) :
  (forall k, is_Some (h !! k) -> toLowerCase k = k) ->
  let w' := setHeaders_forOwn r h w in
  Request.outgoingHeaders (the_request w' r) =
    h ∪ Request.outgoingHeaders (the_request w r) /\
  immediateQueue w' =
    immediateQueue w ++ (if expects_continue (h !! "expect") then [T_continue r] else []) /\
  nextTickQueue w' = nextTickQueue w /\
  microtaskQueue w' = microtaskQueue w /\
  timerQueue w' = timerQueue w /\
  trace w' = trace w /\
  allInterceptors w' = allInterceptors w /\
  interceptorObjects w' = interceptorObjects w /\
  Request.set_outgoingHeaders ∅ (the_request w' r) =
    Request.set_outgoingHeaders ∅ (the_request w r).
Proof.
  unfold setHeaders_forOwn.
  apply (map_fold_weak_ind
           (fun (w' : World) (h : gmap string value) =>
              (forall k, is_Some (h !! k) -> toLowerCase k = k) ->
              Request.outgoingHeaders (the_request w' r) =
                h ∪ Request.outgoingHeaders (the_request w r) /\
              immediateQueue w' =
                immediateQueue w ++
                (if expects_continue (h !! "expect") then [T_continue r] else []) /\
              nextTickQueue w' = nextTickQueue w /\
              microtaskQueue w' = microtaskQueue w /\
              timerQueue w' = timerQueue w /\
              trace w' = trace w /\
              allInterceptors w' = allInterceptors w /\
              interceptorObjects w' = interceptorObjects w /\
              Request.set_outgoingHeaders ∅ (the_request w' r) =
                Request.set_outgoingHeaders ∅ (the_request w r))).
  - intros _. rewrite lookup_empty. cbn. rewrite app_nil_r, (left_id_L ∅ (∪)). by repeat split.
  - intros k v m w' Hk IH Hlow.
    destruct IH as (Ho & Him & Hn & Hmi & Hti & Htr & Ha & Hio & Hsk).
    { intros k' Hk'. apply Hlow. destruct (decide (k = k')) as [->|Hne].
      - rewrite lookup_insert_eq. by eexists.
      - by rewrite lookup_insert_ne. }
    destruct (setHeader_spec r k v w') as (Ho' & Him' & Hn' & Hmi' & Hti' & Htr' & Ha' & Hio' & Hsk').
    rewrite Ho', Him', Hn', Hmi', Hti', Htr', Ha', Hio', Hsk'.
    rewrite Ho, Him, Hn, Hmi, Hti, Htr, Ha, Hio, Hsk.
    assert (Hlk : toLowerCase k = k).
    { apply Hlow. rewrite lookup_insert_eq. by eexists. }
    rewrite Hlk, insert_union_l.
    repeat split; try done.
    rewrite <- app_assoc. f_equal.
    destruct (String.eqb k "expect") eqn:Ek.
    + apply String.eqb_eq in Ek. subst k. rewrite Hk, lookup_insert_eq. cbn [andb expects_continue].
      by destruct v as [| | | |s| | | | | |]; try done; destruct (String.eqb s _).
    + apply String.eqb_neq in Ek. rewrite lookup_insert_ne by done. cbn [andb].
      by rewrite app_nil_r.
Qed.

Lemma RequestOverrider_spec (r : nat) (isClientRequest : bool) (options : Options.t)
    (interceptors : string) (w : World) :
  (forall k, is_Some (option_headers options !! k) -> toLowerCase k = k) ->
  let w' := RequestOverrider r isClientRequest options interceptors w in
  Request.outgoingHeaders (the_request w' r) =
    match basic_auth options with
    | Some v => <["authorization" := v]> (option_headers options)
    | None => option_headers options
    end /\
  nextTickQueue w' = nextTickQueue w ++ [T_socket r] /\
  immediateQueue w' =
    immediateQueue w ++
    (if expects_continue (option_headers options !! "expect") then [T_continue r] else []) /\
  microtaskQueue w' = microtaskQueue w /\
  timerQueue w' = timerQueue w /\
  trace w' = trace w /\
  allInterceptors w' = allInterceptors w /\
  interceptorObjects w' = interceptorObjects w /\
  Request.socket_authorized (the_request w' r) = Socket_authorized (Options.proto options) /\
  Request.headers (the_request w' r) = ∅ /\
  Request.ended (the_request w' r) = false /\
  req_aborted w' r = false.
Proof.
  intros Hlow w'. unfold w', RequestOverrider. cbv zeta.
  set (q := Request.mk None ∅ _ _ ∅ _ _ options interceptors [] false Response.fresh
              None None None false false).
  set (w1 := set_requestObjects (<[r := q]> (requestObjects w)) w).
  assert (Hq : the_request w1 r = q) by apply lookup_total_insert_eq.
  set (w2 := match Options.headers options with
             | Some h => _
             | None => w1
             end).
  assert (H2 : Request.outgoingHeaders (the_request w2 r) = option_headers options /\
               immediateQueue w2 =
                 immediateQueue w ++
                 (if expects_continue (option_headers options !! "expect")
                  then [T_continue r] else []) /\
               nextTickQueue w2 = nextTickQueue w /\
               microtaskQueue w2 = microtaskQueue w /\
               timerQueue w2 = timerQueue w /\
               trace w2 = trace w /\
               allInterceptors w2 = allInterceptors w /\
               interceptorObjects w2 = interceptorObjects w /\
               Options.auth (Request.options (the_request w2 r)) = Options.auth options /\
               Options.headers (Request.options (the_request w2 r)) =
                 match Options.headers options with
                 | Some h => Some (headersFieldNamesToLowerCase h)
                 | None => None
                 end /\
               Request.socket_authorized (the_request w2 r) =
                 Socket_authorized (Options.proto options) /\
               Request.headers (the_request w2 r) = ∅ /\
               Request.ended (the_request w2 r) = false /\
               Request.aborted (the_request w2 r) = None).
  { unfold w2, option_headers in *. destruct (Options.headers options) as [h|] eqn:Eh.
    - set (w1' := update_request r _ w1).
      destruct (setHeaders_forOwn_spec r (headersFieldNamesToLowerCase h) w1' Hlow)
        as (Ho & Him & Hn & Hmi & Hti & Htr & Ha & Hio & Hsk).
      assert (Hfields : forall {A} (f : Request.t -> A),
                (forall q, f (Request.set_outgoingHeaders ∅ q) = f q) ->
                f (the_request (setHeaders_forOwn r (headersFieldNamesToLowerCase h) w1') r) =
                f (the_request w1' r)).
      { intros A f Hf. by rewrite <- Hf, Hsk, Hf. }
      rewrite Ho, Him, Hn, Hmi, Hti, Htr, Ha, Hio.
      rewrite (Hfields _ (fun q => Options.auth (Request.options q))) by done.
      rewrite (Hfields _ (fun q => Options.headers (Request.options q))) by done.
      rewrite (Hfields _ Request.socket_authorized) by done.
      rewrite (Hfields _ Request.headers) by done.
      rewrite (Hfields _ Request.ended) by done.
      rewrite (Hfields _ Request.aborted) by done.
      unfold w1'. rewrite the_request_update_request, Hq.
      cbn. rewrite (right_id_L ∅ (∪)). by repeat split.
    - rewrite Hq, lookup_empty. cbn. rewrite app_nil_r. by repeat split. }
  destruct H2 as (Ho & Him & Hn & Hmi & Hti & Htr & Ha & Hio & Hau & Hh & Hsa & Hhd & Hen & Hab).
  unfold req_aborted.
  clearbody w2. clear w1 Hq.
  change (the_request (process_nextTick ?t ?x) r) with (the_request x r).
  cbn [nextTickQueue immediateQueue microtaskQueue timerQueue trace allInterceptors
       interceptorObjects process_nextTick set_nextTickQueue].
  unfold basic_auth. rewrite Hau.
  destruct (Options.auth options) as [auth|].
  - assert (Hcond : match Options.headers (Request.options (the_request w2 r)) with
                    | None => true
                    | Some h => negb (truthy (default VUndefined (h !! "authorization")))
                    end
                    = negb (truthy (default VUndefined (option_headers options !! "authorization")))).
    { rewrite Hh. unfold option_headers. destruct (Options.headers options); [done|].
      by rewrite lookup_empty. }
    rewrite Hcond.
    destruct (negb (String.eqb auth "") && _).
    + set (basic := VString ("Basic " +:+
                            Buffer_toString (Buffer_from (VString auth) VUndefined) "base64")).
      destruct (setHeader_spec r "Authorization" basic w2)
        as (Ho' & Him' & Hn' & Hmi' & Hti' & Htr' & Ha' & Hio' & Hsk').
      assert (Hfields : forall {A} (f : Request.t -> A),
                (forall q, f (Request.set_outgoingHeaders ∅ q) = f q) ->
                f (the_request (setHeader r "Authorization" basic w2) r) =
                f (the_request w2 r)).
      { intros A f Hf. by rewrite <- Hf, Hsk', Hf. }
      rewrite Ho', Him', Hn', Hmi', Hti', Htr', Ha', Hio'.
      rewrite (Hfields _ Request.socket_authorized) by done.
      rewrite (Hfields _ Request.headers) by done.
      rewrite (Hfields _ Request.ended) by done.
      rewrite (Hfields _ Request.aborted) by done.
      rewrite Ho, Him, Hn, Hmi, Hti, Htr, Ha, Hio, Hsa, Hhd, Hen, Hab.
      cbn. rewrite app_nil_r. by repeat split.
    + rewrite Ho, Him, Hn, Hmi, Hti, Htr, Ha, Hio, Hsa, Hhd, Hen, Hab. by repeat split.
  - rewrite Ho, Him, Hn, Hmi, Hti, Htr, Ha, Hio, Hsa, Hhd, Hen, Hab. by repeat split.
Qed.

(** X16. The headers of a new request are the headers of the options
    under their lower-case names, plus [authorization: Basic ...] for
    [options.auth] when the options have no truthy authorization header of
    their own; the request is neither ended nor aborted, and creating it
    does not touch the registry. *)
Theorem new_request_headers (r : nat) (isClientRequest : bool) (options : Options.t)
    (interceptors : string) (w : World) :
  (forall k, is_Some (option_headers options !! k) -> toLowerCase k = k) ->
  let w' := RequestOverrider r isClientRequest options interceptors w in
  Request.outgoingHeaders (the_request w' r) =
    match basic_auth options with
    | Some v => <["authorization" := v]> (option_headers options)
    | None => option_headers options
    end /\
  Request.headers (the_request w' r) = ∅ /\
  Request.ended (the_request w' r) = false /\
  req_aborted w' r = false /\
  allInterceptors w' = allInterceptors w /\
  interceptorObjects w' = interceptorObjects w.
Proof.
  intros Hlow w'.
  destruct (RequestOverrider_spec r isClientRequest options interceptors w Hlow)
    as (Ho & _ & _ & _ & _ & _ & Ha & Hio & _ & Hhd & Hen & Hab).
  by repeat split.
Qed.

(** X17. A new request emits 'socket' and 'connect' ('secureConnect'
    too on an authorized socket) on the next tick, and 'continue' after
    them if and only if its [expect] header is [100-continue]; nothing else
    is queued by its creation. *)
Theorem continue_follows_the_socket_events (r : nat) (isClientRequest : bool)
    (options : Options.t) (interceptors : string) (w : World) :
  (forall k, is_Some (option_headers options !! k) -> toLowerCase k = k) ->
  idle w ->
  let w' := RequestOverrider r isClientRequest options interceptors w in
  let secureConnect :=
    if Socket_authorized (Options.proto options) then [Socket_emit_secureConnect r] else [] in
  let continue :=
    if expects_continue (option_headers options !! "expect")
    then [Req_emit_continue r] else [] in
  idle (run 2 w') /\
  trace (run 2 w') =
    trace w ++ [Req_emit_socket r; Socket_emit_connect r] ++ secureConnect ++ continue.
Proof.
  intros Hlow (Hn & Hmi & Him & Hti) w' secureConnect continue.
  destruct (RequestOverrider_spec r isClientRequest options interceptors w Hlow)
    as (_ & Hn' & Him' & Hmi' & Hti' & Htr' & _ & _ & Hsa & _).
  fold w' in Hn', Him', Hmi', Hti', Htr', Hsa. clearbody w'.
  rewrite Hn in Hn'. rewrite Him in Him'. rewrite Hmi in Hmi'. rewrite Hti in Hti'.
  cbn [app] in Hn', Him'.
  assert (H1 : run_next w' =
               (if Socket_authorized (Options.proto options)
                then emit (Socket_emit_secureConnect r) else id)
                 (emit (Socket_emit_connect r)
                    (emit (Req_emit_socket r) (set_nextTickQueue [] w')))).
  { unfold run_next. rewrite Hn'. cbn [run_task].
    change (the_request (emit ?e (emit ?e' (set_nextTickQueue [] w'))) r)
      with (the_request w' r).
    rewrite Hsa. by destruct (Socket_authorized _). }
  assert (F1 : nextTickQueue (run_next w') = [] /\ microtaskQueue (run_next w') = [] /\
               immediateQueue (run_next w') = immediateQueue w' /\
               timerQueue (run_next w') = [] /\
               trace (run_next w') =
                 trace w ++ [Req_emit_socket r; Socket_emit_connect r] ++ secureConnect).
  { rewrite H1. unfold secureConnect. destruct (Socket_authorized _); cbn;
      rewrite Hmi', Hti', Htr', <- ?app_assoc; by repeat split. }
  destruct F1 as (Fn & Fmi & Fim & Fti & Ftr).
  cbn [run]. unfold continue.
  destruct (expects_continue _).
  - assert (H2 : run_next (run_next w') =
                 emit (Req_emit_continue r) (set_immediateQueue [] (run_next w'))).
    { unfold run_next at 1. by rewrite Fn, Fmi, Fim, Him'. }
    rewrite H2. unfold idle. cbn. rewrite Fn, Fmi, Fti, Ftr, <- !app_assoc. by repeat split.
  - assert (H2 : run_next (run_next w') = run_next w').
    { unfold run_next at 1. by rewrite Fn, Fmi, Fim, Him', Fti. }
    rewrite H2. unfold idle. rewrite Fn, Fmi, Fim, Him', Fti, Ftr, app_nil_r. by repeat split.
Qed.
End NewRequest.

Lemma add_spec (key : string) (i : nat) (scope : Scope.t)
    (so : ScopeOptions.t) (host : value) (w : World) :
  let w' := add key i scope so host w in
  is_Some (allInterceptors w' !! key) /\
  (forall k, k <> key -> allInterceptors w' !! k = allInterceptors w !! k) /\
  entry_allowUnmocked w' key = ScopeOptions.allowUnmocked so || entry_allowUnmocked w key /\
  the_interceptor w' i = Interceptor.set_registration scope key so host (the_interceptor w i) /\
  (forall j, j <> i -> the_interceptor w' j = the_interceptor w j).
Proof.
  unfold add, entry_allowUnmocked, update_entry, update_interceptor, the_interceptor.
  destruct (allInterceptors w !! key) as [e|] eqn:He;
    destruct (ScopeOptions.allowUnmocked so); cbn;
    rewrite ?lookup_alter_eq, ?lookup_insert_eq, ?He; cbn;
    (split; [by eexists|]); (split; [|split; [done|split]]).
  all: try (intros k Hk; by rewrite ?lookup_alter_ne, ?lookup_insert_ne by done).
  all: try apply lookup_total_insert_eq.
  all: intros j Hj; by apply lookup_total_insert_ne.
Qed.

(** X18. Registering an interceptor for one use and removing it again
    leaves every list of interceptors as it was; what stays is the entry of
    the key, and its [allowUnmocked] flag once a scope had it set. *)
Theorem add_then_remove (key : string) (i : nat) (scope : Scope.t)
    (so : ScopeOptions.t) (host : value) (w : World) :
  let ic := the_interceptor w i in
  Interceptor.basePath ic = key ->
  Scope.shouldPersist scope = false ->
  Interceptor.counter ic <= 1 ->
  i ∉ scopes_at w key ->
  let w' := remove i (add key i scope so host w) in
  (forall k, scopes_at w' k = scopes_at w k) /\
  is_Some (allInterceptors w' !! key) /\
  entry_allowUnmocked w' key = ScopeOptions.allowUnmocked so || entry_allowUnmocked w key /\
  (forall k, k <> key -> allInterceptors w' !! k = allInterceptors w !! k) /\
  Interceptor.counter (the_interceptor w' i) = Interceptor.counter ic - 1 /\
  (forall j, j <> i -> the_interceptor w' j = the_interceptor w j).
Proof.
  intros ic Hbase Hpersist Hcount Hfresh w'.
  destruct (add_spec key i scope so host w) as (Hsome & Hother & Hflag & Hi & Hj).
  pose proof (scopes_at_add key i scope so host w) as Hscopes.
  set (wa := add key i scope so host w) in *.
  assert (Hw' : w' = update_entry key
                  (fun e => Entry.set_scopes (splice_first i (Entry.scopes e)) e)
                  (update_interceptor i (Interceptor.set_counter (Interceptor.counter ic - 1)) wa)).
  { unfold w', remove. rewrite Hi. cbn [Interceptor.__nock_scope Interceptor.set_registration
                                         Interceptor.counter Interceptor.basePath].
    fold ic. rewrite Hpersist, Hbase.
    by assert ((0 <? Interceptor.counter ic - 1) = false) as -> by lia. }
  clearbody wa w'. subst w'.
  repeat split.
  - intros k. rewrite scopes_at_splice.
    change (scopes_at (update_interceptor ?a ?b wa) k) with (scopes_at wa k).
    destruct (decide (key = k)) as [<-|Hne].
    + rewrite Hscopes. by rewrite (splice_first_here i (scopes_at w key) []), app_nil_r.
    + unfold scopes_at. by rewrite Hother.
  - unfold update_entry. cbn. rewrite lookup_alter_eq.
    destruct Hsome as [e ->]. by eexists.
  - rewrite <- Hflag. unfold entry_allowUnmocked, update_entry. cbn.
    rewrite lookup_alter_eq. by destruct (allInterceptors wa !! key).
  - intros k Hk. unfold update_entry. cbn. rewrite lookup_alter_ne by done. by apply Hother.
  - change (the_interceptor (update_entry ?k ?f ?x) i) with (the_interceptor x i).
    by rewrite the_interceptor_update_interceptor.
  - intros j Hne.
    change (the_interceptor (update_entry ?k ?f ?x) j) with (the_interceptor x j).
    rewrite the_interceptor_update_interceptor_ne by done. by apply Hj.
Qed.

Section CallbackBody.
Context {env : Env}.

Lemma end_calls_back_looks_like (r i : nat) (w : World) (fn : reply_fn) (k : continuation)
    ticks micro imm timers tr bs :
  let ic := the_interceptor w i in
  find_interceptor (end_prepare r w) r (end_requestBody w r) = Some i ->
  replies_with ic fn k ->
  looks_like r i ic w ticks micro imm timers tr bs ->
  exists (wc : World) (path : string) (parsedRequestBody : value),
    end_ r w = Promise_resolve_then_catch r i (fn_call fn path parsedRequestBody) k wc /\
    looks_like r i ic wc ticks micro imm timers (tr ++ [request_event w r i]) bs /\
    allInterceptors wc = allInterceptors w /\
    the_interceptor wc i = Interceptor.set_req (Some r) ic.
Proof.
  intros ic Hfind (Hem & Hk) Hw.
  end_mocking_begin r i w Hfind wc Hm. fold ic. rewrite Hem.
  apply (looks_like_matched r i ic w wc) in Hw; [|done|done].
  apply (looks_like_emit r i ic _ _ _ _ _ _ _ (request_event w r i)) in Hw.
  apply (looks_like_update_response r i ic _ _ _ _ _ _ _
           (fun res => Response.set_rawHeaders (Interceptor.rawHeaders ic)
                         (Response.set_statusCode (Interceptor.statusCode ic) res))) in Hw.
  pose proof (matched_interceptor r i w wc Hm) as Hi.
  destruct Hm as (Ha & _).
  destruct k.
  - rewrite Hk. eexists _, _, _. split; [reflexivity|]. split; [exact Hw|]. by split.
  - destruct Hk as (-> & ->). eexists _, _, _. split; [reflexivity|].
    split; [exact Hw|]. by split.
Qed.

Lemma looks_like_promise_then_run (r i : nat) (ic : Interceptor.t) (w : World) (t : task)
    tr bs :
  looks_like r i ic w [] [] [] [] tr bs ->
  run_next (promise_then t w) = run_task t (set_microtaskQueue [] (promise_then t w)) /\
  looks_like r i ic (set_microtaskQueue [] (promise_then t w)) [] [] [] [] tr bs.
Proof.
  intros (Hn & Hmi & Him & Hti & Htr & Hab & Hbuf & Hst). split.
  - unfold run_next. cbn. by rewrite Hn, Hmi.
  - by repeat split.
Qed.

(** X13. A reply callback that resolves to a string: [end] itself uses
    nothing up, the interceptor is used up in the first turn of the loop
    (the promise reaction), and the request gets the response, the string
    as one buffer, the end of the body and 'replied'. *)
Theorem callback_body_sent_as_one_chunk (r i : nat) (w : World)
    (fn : reply_fn) (s : string) :
  let ic := the_interceptor w i in
  idle w ->
  req_aborted w r = false ->
  Request.responseBuffers (the_request w r) = None ->
  find_interceptor (end_prepare r w) r (end_requestBody w r) = Some i ->
  replies_with ic fn K_responseBody ->
  (forall path body, fn_call fn path body = Fulfilled (VString s)) ->
  Interceptor.delayInMs ic = 0 ->
  untouched_registry w (end_ r w) /\
  allInterceptors (run 1 (end_ r w)) = allInterceptors (remove i w) /\
  exists (delays : list event) (response : Response.t),
    Forall (is_delay r) delays /\
    forall m : nat,
      (5 <= m)%nat ->
      idle (run m (end_ r w)) /\
      trace (run m (end_ r w)) =
        trace w ++ [request_event w r i] ++ delays ++
        [Req_emit_response r response;
         Response_push r (VBuffer (Buffer_from (VString s) VUndefined));
         Response_push r VNull;
         Scope_emit_replied (Scope.id (Interceptor.scope ic)) r i].
Proof.
  intros ic (Hn & Hmi & Him & Hti) Hab Hbuf Hfind Hk Hfn Hd.
  assert (Hw : looks_like r i ic w [] [] [] [] (trace w) None) by (by repeat split).
  destruct (end_calls_back_looks_like r i w fn K_responseBody _ _ _ _ _ _ Hfind Hk Hw)
    as (wc & path & body & Hend & Hwc & Ha & Hi).
  rewrite Hfn in Hend. cbn [Promise_resolve_then_catch] in Hend.
  destruct (looks_like_promise_then_run r i ic wc
              (T_continueWithResponseBody r i (VString s)) _ _ Hwc) as (Hrun & Hw1).
  set (w1 := set_microtaskQueue [] _) in *.
  cbn [run_task] in Hrun.
  split; [|split].
  - rewrite Hend. split; [exact Ha|]. intros j.
    change (the_interceptor (promise_then ?t wc) j) with (the_interceptor wc j).
    destruct (end_calls_back r i w fn K_responseBody Hfind Hk)
      as (wc' & path' & body' & Hend' & (_ & Hobj) & _).
    rewrite Hfn in Hend'. cbn [Promise_resolve_then_catch] in Hend'.
    rewrite Hend in Hend'.
    assert (Hio : interceptorObjects wc = interceptorObjects wc').
    { change (interceptorObjects (promise_then (T_continueWithResponseBody r i (VString s)) wc) =
              interceptorObjects (promise_then (T_continueWithResponseBody r i (VString s)) wc')).
      by rewrite Hend'. }
    unfold the_interceptor at 1. rewrite Hio. apply Hobj.
  - cbn [run]. rewrite Hend, Hrun. unfold continueWithResponseBody.
    pose proof (transformResponseBody_request r i (VString s) w1) as (Hio & Hta & _).
    destruct (transformResponseBody r i (VString s) w1) as [body' w2]. cbn [snd] in *.
    assert (Hreg : allInterceptors (count_and_remove i w2) = allInterceptors (remove i w)).
    { destruct (count_and_remove_cong i w2 w1 Hta Hio) as (-> & _).
      by destruct (count_and_remove_agree r i w w1 Ha Hi) as (-> & _). }
    destruct (req_aborted (count_and_remove i w2) r); exact Hreg.
  - apply (continueWithResponseBody_plain r i ic _ _ _ _ _ _ _ (VString s)) in Hw1;
      [|done|left; by eexists].
    rewrite <- Hrun in Hw1. cbn [app body_chunk] in Hw1.
    destruct (respond_run_body r i ic _ _ _ (VBuffer (Buffer_from (VString s) VUndefined)) eq_refl Hw1)
      as (n & delays & response & Hle & Hdel & Hw2).
    cbn [default from_option id app] in Hw2.
    apply (emitChunk_loop r i ic [_]) in Hw2; [|by repeat constructor].
    rewrite <- run_add in Hw2.
    exists delays, response. split; [done|].
    intros m Hm.
    assert (Hsplit : run m (end_ r w) =
                     run (m - (n + 2) - 1) (run (n + 2) (run_next (end_ r w)))).
    { rewrite <- run_add. change (run ?k (run_next ?x)) with (run (S k) x).
      f_equal. cbn [List.length] in *. lia. }
    rewrite Hsplit, Hend.
    destruct Hw2 as (Hn1 & Hmi1 & Him1 & Hti1 & Htr1 & _).
    cbn [List.length] in *.
    rewrite run_idle by (by repeat split).
    split; [by repeat split|].
    rewrite Htr1. by rewrite <- !app_assoc.
Qed.
End CallbackBody.

Section StreamBody.
Context {env : Env}.
Variables (r i : nat) (ic : Interceptor.t).

Lemma looks_like_set_flowing w ticks micro imm timers tr bs b :
  looks_like r i ic w ticks micro imm timers tr bs ->
  looks_like r i ic (update_request r (Request.set_flowing b) w) ticks micro imm timers tr bs.
Proof.
  intros (?&?&?&?&?&Hab&?&?). unfold looks_like, req_aborted in *.
  rewrite the_request_update_request. by repeat split.
Qed.

Lemma looks_like_set_piping w ticks micro imm timers tr bs b :
  looks_like r i ic w ticks micro imm timers tr bs ->
  looks_like r i ic (update_request r (Request.set_piping b) w) ticks micro imm timers tr bs.
Proof.
  intros (?&?&?&?&?&Hab&?&?). unfold looks_like, req_aborted in *.
  rewrite the_request_update_request. by repeat split.
Qed.

Lemma _respond_step_stream w ticks micro imm timers tr bs (body : value) :
  isStream body = true ->
  Request.piping (the_request w r) = true ->
  looks_like r i ic w ticks micro imm timers tr bs ->
  exists response,
    looks_like r i ic (_respond r i body w) ticks micro imm timers
      (tr ++ [Req_emit_response r response; Body_resume r]) bs /\
    Request.piping (the_request (_respond r i body w) r) = true /\
    Request.flowing (the_request (_respond r i body w) r) = true.
Proof.
  intros Hst Hp Hw. pose proof Hw as (_&_&_&_&_&Hab&_).
  unfold _respond. rewrite Hab, Hst.
  eexists. split; [|split].
  - apply looks_like_set_flowing.
    replace (tr ++ [Req_emit_response r (Request.response (the_request w r)); Body_resume r])
      with ((tr ++ [Req_emit_response r (Request.response (the_request w r))]) ++ [Body_resume r])
      by (by rewrite <- app_assoc).
    by do 2 apply looks_like_emit.
  - rewrite the_request_update_request. exact Hp.
  - by rewrite the_request_update_request.
Qed.

Lemma respond_run_stream w tr bs (body : value) :
  isStream body = true ->
  Request.piping (the_request w r) = true ->
  looks_like r i ic w [T_respond r i body] [] [] [] tr bs ->
  exists (n : nat) (delays : list event) (response : Response.t),
    (n <= 2)%nat /\ Forall (is_delay r) delays /\
    looks_like r i ic (run n w) [] [] [] []
      (tr ++ delays ++ [Req_emit_response r response; Body_resume r]) bs /\
    Request.piping (the_request (run n w) r) = true /\
    Request.flowing (the_request (run n w) r) = true.
Proof.
  intros Hstream Hp Hw. pose proof Hw as (Hn&_).
  apply (looks_like_set_nextTickQueue _ _ _ _ _ _ _ _ _ _ []) in Hw.
  set (w0 := set_nextTickQueue [] w) in *.
  assert (Hrun : run_next w = respond r i body w0)
    by (by rewrite (run_next_tick w _ _ Hn)).
  destruct (looks_like_scope _ _ _ _ _ _ _ _ _ _ Hw) as (_ & Hsd & Hcd).
  pose proof Hw as (_&_&_&_&_&Hab&_).
  unfold respond in Hrun. rewrite Hab, Hsd, Hcd in Hrun.
  set (socket := negb (Interceptor.socketDelayInMs ic =? 0) &&
                 (0 <? Interceptor.socketDelayInMs ic)) in *.
  set (w1 := if socket
             then emit (Socket_applyDelay r (Interceptor.socketDelayInMs ic)) w0
             else w0) in *.
  set (delays1 := if socket
                  then [Socket_applyDelay r (Interceptor.socketDelayInMs ic)]
                  else []).
  assert (Hd1 : Forall (is_delay r) delays1).
  { unfold delays1. destruct socket; [|constructor].
    constructor; [by eexists|constructor]. }
  assert (Hw1 : looks_like r i ic w1 [] [] [] [] (tr ++ delays1) bs).
  { unfold w1, delays1. destruct socket.
    - by apply looks_like_emit.
    - by rewrite app_nil_r. }
  assert (Hp1 : Request.piping (the_request w1 r) = true).
  { unfold w1. by destruct socket. }
  destruct (negb (Interceptor.delayConnectionInMs ic =? 0) &&
            (0 <? Interceptor.delayConnectionInMs ic)).
  - set (e := Socket_applyDelay r (Interceptor.delayConnectionInMs ic)) in *.
    apply (looks_like_emit _ _ _ _ _ _ _ _ _ _ e) in Hw1.
    apply (looks_like_setTimeout _ _ _ _ _ _ _ _ _ _ (T__respond r i body)
             (Interceptor.delayConnectionInMs ic)) in Hw1.
    rewrite <- Hrun in Hw1. cbn [app] in Hw1.
    assert (Hp2 : Request.piping (the_request (run_next w) r) = true)
      by (by rewrite Hrun).
    pose proof Hw1 as (Hn2 & Hmi2 & Him2 & Hti2 & _).
    assert (Hrun2 : run_next (run_next w) =
                    _respond r i body
                      (set_now (Z.max (now (run_next w))
                                  (now (emit e w1) +
                                   Z.max 1 (Interceptor.delayConnectionInMs ic)))
                         (set_timerQueue [] (run_next w)))).
    { unfold run_next at 1. rewrite Hn2, Hmi2, Him2, Hti2. reflexivity. }
    apply (looks_like_set_timer_fired _ _ _ _ _ _ _ _ _ _
             (Z.max (now (run_next w))
                (now (emit e w1) + Z.max 1 (Interceptor.delayConnectionInMs ic))))
      in Hw1.
    eapply (_respond_step_stream _ _ _ _ _ _ _ body Hstream) in Hw1
      as (response & Hw2 & Hp3 & Hf3); [|exact Hp2].
    rewrite <- Hrun2 in Hw2, Hp3, Hf3.
    exists 2%nat, (delays1 ++ [e]), response.
    split; [lia|]. split; [|split].
    + apply Forall_app. split; [done|]. constructor; [by eexists|constructor].
    + cbn [run]. rewrite <- !app_assoc in Hw2. by rewrite <- !app_assoc.
    + by split.
  - destruct (_respond_step_stream _ _ _ _ _ _ _ body Hstream Hp1 Hw1)
      as (response & Hw2 & Hp3 & Hf3).
    rewrite <- Hrun in Hw2, Hp3, Hf3.
    exists 1%nat, delays1, response.
    split; [lia|]. split; [done|]. split; [|by split].
    cbn [run]. by rewrite <- app_assoc in Hw2.
Qed.

Lemma continueWithResponseBody_stream w ticks micro imm timers tr bs (body : value) :
  body <> VUndefined ->
  isStream body = true \/ Interceptor.delayInMs ic <> 0 ->
  looks_like r i ic w ticks micro imm timers tr bs ->
  exists body',
    isStream body' = true /\
    looks_like r i ic (continueWithResponseBody r i body w)
      (ticks ++ [T_respond r i body']) micro imm timers (tr ++ [Body_pause r]) bs /\
    Request.piping (the_request (continueWithResponseBody r i body w) r) = true.
Proof.
  intros Hdef Hs Hw. unfold continueWithResponseBody.
  assert (Hdel : Interceptor.delayInMs (the_interceptor w i) = Interceptor.delayInMs ic).
  { destruct Hw as (_&_&_&_&_&_&_&Hst).
    change (Interceptor.delayInMs (static (the_interceptor w i)) =
            Interceptor.delayInMs (static ic)).
    by rewrite Hst. }
  assert (Ht : exists body',
            isStream body' = true /\
            transformResponseBody r i body w =
            (body', update_request r (Request.set_piping true) (emit (Body_pause r) w))).
  { unfold transformResponseBody. rewrite Hdel.
    destruct (Interceptor.delayInMs ic =? 0) eqn:Ed.
    - destruct Hs as [Hs|Hs]; [|lia]. exists body. split; [done|].
      cbn [negb]. rewrite Hs. by destruct body.
    - eexists. split; [|destruct body; try done; reflexivity]. done. }
  destruct Ht as (body' & Hst' & ->).
  exists body'. split; [done|].
  apply (looks_like_emit _ _ _ _ _ _ _ _ _ _ (Body_pause r)) in Hw.
  apply (looks_like_set_piping _ _ _ _ _ _ _ true) in Hw.
  apply looks_like_count_and_remove in Hw.
  pose proof Hw as (_&_&_&_&_&Hab&_). rewrite Hab.
  split.
  - apply looks_like_process_nextTick.
    by do 3 apply looks_like_update_response.
  - change (the_request (process_nextTick ?t ?x) r) with (the_request x r).
    rewrite !the_request_update_response. cbn [Request.piping Request.set_response].
    rewrite the_request_count_and_remove, the_request_update_request. done.
Qed.
End StreamBody.

Section StreamReply.
Context {env : Env}.

(** X14. A reply whose body is a stream, or is delayed (and so wrapped
    into a [DelayedBody]): the stream is paused when [end] runs and resumed
    right after the 'response' event; from then on its data is pushed to
    the response and its end completes it. The scope's 'replied' event is
    not emitted for such a reply. *)
Theorem stream_body_is_resumed_after_the_response (r i : nat) (w : World) :
  let ic := the_interceptor w i in
  idle w ->
  req_aborted w r = false ->
  find_interceptor (end_prepare r w) r (end_requestBody w r) = Some i ->
  replies_plainly ic ->
  streams ic ->
  exists (delays : list event) (response : Response.t),
    Forall (is_delay r) delays /\
    forall m : nat,
      (3 <= m)%nat ->
      let w' := run m (end_ r w) in
      idle w' /\
      trace w' =
        trace w ++ [request_event w r i; Body_pause r] ++ delays ++
        [Req_emit_response r response; Body_resume r] /\
      (forall d, body_emits_data r d w' = emit (Response_push r d) w') /\
      body_emits_end r w' =
        update_response r (Response.set_complete true) (emit (Response_push r VNull) w').
Proof.
  intros ic (Hn & Hmi & Him & Hti) Hab Hfind (Hem & Hrf & Hfrf) Hstreams.
  assert (Hw : looks_like r i ic w [] [] [] [] (trace w)
                 (Request.responseBuffers (the_request w r))) by (by repeat split).
  assert (Hend : exists body',
            isStream body' = true /\
            looks_like r i ic (end_ r w) [T_respond r i body'] [] [] []
              (trace w ++ [request_event w r i; Body_pause r])
              (Request.responseBuffers (the_request w r)) /\
            Request.piping (the_request (end_ r w) r) = true).
  { end_mocking_begin r i w Hfind wc Hm. fold ic. rewrite Hem, Hrf, Hfrf.
    apply (looks_like_matched r i ic w wc) in Hw; [|done|done].
    apply (looks_like_emit r i ic _ _ _ _ _ _ _ (request_event w r i)) in Hw.
    apply (looks_like_update_response r i ic _ _ _ _ _ _ _
             (fun res => Response.set_rawHeaders (Interceptor.rawHeaders ic)
                           (Response.set_statusCode (Interceptor.statusCode ic) res))) in Hw.
    assert (Hce : isContentEncoded (Interceptor.headers ic) &&
                  negb (isStream (Interceptor.body ic)) = false).
    { destruct Hstreams as [->|(-> & _)]; [apply andb_false_r|done]. }
    rewrite Hce. cbv zeta.
    set (body := match Interceptor.body ic with
                 | VString s => _
                 | _ => Interceptor.body ic
                 end).
    assert (Hbody : body <> VUndefined /\
                    (isStream body = true \/ Interceptor.delayInMs ic <> 0)).
    { unfold body. destruct Hstreams as [Hs|(_ & Hd & Hdef)].
      - split; [|left]; by destruct (Interceptor.body ic).
      - split; [|by right].
        destruct (Interceptor.body ic); try done.
        destruct (end_isBinaryRequestBodyBuffer w r); [|done].
        cbv zeta.
        match goal with |- (if ?c then _ else _) <> _ => destruct c end; discriminate. }
    destruct Hbody as (Hdef & Hs).
    destruct (continueWithResponseBody_stream r i ic _ _ _ _ _ _ _ body Hdef Hs Hw)
      as (body' & Hst & Hw' & Hp).
    exists body'. split; [done|]. rewrite <- app_assoc in Hw'. by split. }
  destruct Hend as (body' & Hst & Hw' & Hp).
  destruct (respond_run_stream r i ic _ _ _ body' Hst Hp Hw')
    as (n & delays & response & Hle & Hdel & Hw2 & Hp2 & Hf2).
  exists delays, response. split; [done|].
  intros m Hm w'.
  assert (Hsplit : w' = run (m - n) (run n (end_ r w))).
  { unfold w'. rewrite <- run_add. f_equal. lia. }
  destruct Hw2 as (Hn1 & Hmi1 & Him1 & Hti1 & Htr1 & _).
  rewrite run_idle in Hsplit by (by repeat split).
  clearbody w'. subst w'.
  split; [by repeat split|]. split; [rewrite Htr1; by rewrite <- !app_assoc|].
  unfold body_emits_data, body_emits_end. rewrite Hp2, Hf2. by split.
Qed.
End StreamReply.

Section InterceptorsFor.
Context {env : Env} {lib : Lib}.

Lemma find_existsb {A} (f : A -> bool) (l : list A) :
  existsb f l = match List.find f l with Some _ => true | None => false end.
Proof. induction l as [|a l IH]; simpl; [done|]. by destruct (f a). Qed.

Lemma interceptorsFor_each_miss (keys : list string) (basePath : string) (w : World) :
  (forall k, k ∈ keys -> hits w basePath k = false) ->
  interceptorsFor_each keys basePath w = (None, w).
Proof.
  induction keys as [|key keys IH]; intros Hmiss; [done|].
  cbn [interceptorsFor_each].
  pose proof (Hmiss key (list_elem_of_here _ _)) as Hk. unfold hits in Hk.
  assert (IH' : interceptorsFor_each keys basePath w = (None, w)).
  { apply IH. intros k Hin. apply Hmiss. by apply list_elem_of_further. }
  destruct (allInterceptors w !! key) as [e|]; [|done].
  apply orb_false_iff in Hk as [Hf Hm].
  rewrite find_existsb in Hf.
  destruct (List.find _ (Entry.scopes e)); [done|]. by rewrite Hm.
Qed.

Lemma interceptorsFor_each_skip (before keys : list string) (basePath : string) (w : World) :
  (forall k, k ∈ before -> hits w basePath k = false) ->
  interceptorsFor_each (before ++ keys) basePath w = interceptorsFor_each keys basePath w.
Proof.
  induction before as [|key before IH]; intros Hmiss; [done|].
  cbn [app interceptorsFor_each].
  pose proof (Hmiss key (list_elem_of_here _ _)) as Hk. unfold hits in Hk.
  assert (IH' : interceptorsFor_each (before ++ keys) basePath w =
                interceptorsFor_each keys basePath w).
  { apply IH. intros k Hin. apply Hmiss. by apply list_elem_of_further. }
  destruct (allInterceptors w !! key) as [e|]; [|done].
  apply orb_false_iff in Hk as [Hf Hm].
  rewrite find_existsb in Hf.
  destruct (List.find _ (Entry.scopes e)); [done|]. by rewrite Hm.
Qed.

(** X19. [interceptorsFor] answers with the first entry, in the order of
    the keys, that is hit: it returns nothing (and changes nothing) exactly
    when no entry is hit; otherwise the entries before the first hit are
    passed over, whether or not a later entry has a filtering scope that
    accepts, and the answer is the [scopes] array of that entry, or the
    made-up array when the entry was hit by its key, has no interceptor
    left and allows unmocked requests. Only a filtering hit changes
    something: the interceptor whose filter accepted is marked. *)
Theorem interceptorsFor_first_hit (keys : list string) (basePath : string) (w : World) :
  (interceptorsFor_each keys basePath w = (None, w) <->
   forall k, k ∈ keys -> hits w basePath k = false) /\
  forall (before after : list string) (key : string) (e : Entry.t),
    keys = before ++ key :: after ->
    (forall k, k ∈ before -> hits w basePath k = false) ->
    allInterceptors w !! key = Some e ->
    hits w basePath key = true ->
    interceptorsFor_each keys basePath w =
    match List.find (filteringScope_accepts w basePath) (Entry.scopes e) with
    | Some scope => (Some (Scopes_of key), mark_filtered scope w)
    | None =>
        (Some (if (List.length (Entry.scopes e) =? 0)%nat && Entry.allowUnmocked e
               then Only_allowUnmocked else Scopes_of key), w)
    end.
Proof.
  split.
  - split; [|apply interceptorsFor_each_miss].
    induction keys as [|key keys IH]; intros Hnone k Hin; [by apply elem_of_nil in Hin|].
    cbn [interceptorsFor_each] in Hnone. unfold hits.
    destruct (allInterceptors w !! key) as [e|] eqn:He.
    + destruct (List.find _ (Entry.scopes e)) eqn:Hf; [done|].
      destruct (matchStringOrRegexp basePath (Entry.key e)) eqn:Hm;
        [by destruct (_ && _)|].
      apply elem_of_cons in Hin as [->|Hin].
      * rewrite He, find_existsb, Hf, Hm. done.
      * by apply IH.
    + apply elem_of_cons in Hin as [->|Hin]; [by rewrite He|]. by apply IH.
  - intros before after key e -> Hbefore He Hhit.
    rewrite interceptorsFor_each_skip by done.
    cbn [interceptorsFor_each]. rewrite He.
    unfold hits in Hhit. rewrite He, find_existsb in Hhit.
    destruct (List.find _ (Entry.scopes e)); [done|].
    cbn [orb] in Hhit. rewrite Hhit. by destruct (_ && _).
Qed.

Lemma mark_filtered_frame (s : nat) (w : World) :
  allInterceptors (mark_filtered s w) = allInterceptors w /\
  requestObjects (mark_filtered s w) = requestObjects w /\
  the_interceptor (mark_filtered s w) s =
    Interceptor_set___nock_filteredScope
      (Interceptor.__nock_scopeKey (the_interceptor w s)) (the_interceptor w s) /\
  forall j, j <> s -> the_interceptor (mark_filtered s w) j = the_interceptor w j.
Proof.
  unfold mark_filtered. repeat split.
  - by rewrite the_interceptor_update_interceptor.
  - intros j Hj. by apply the_interceptor_update_interceptor_ne.
Qed.

(** X20. A request that reaches a scope through its filtering function is
    given the host of the scope: [interceptorsFor] marks the first
    interceptor of the entry whose filter accepts the base path (and
    nothing else changes), and for a marked interceptor with a scope key
    and a scope host, [setRequestHeaders] sets the [host] header of the
    request, and of the headers of its options, to the host of the scope,
    whatever the request was made for. *)
Theorem filtered_scope_sets_host_header (keys before after : list string) (key : string)
    (e : Entry.t) (basePath : string) (scope : nat) (w : World) :
  keys = before ++ key :: after ->
  (forall k, k ∈ before -> hits w basePath k = false) ->
  allInterceptors w !! key = Some e ->
  List.find (filteringScope_accepts w basePath) (Entry.scopes e) = Some scope ->
  let ic := the_interceptor w scope in
  let w' := snd (interceptorsFor_each keys basePath w) in
  fst (interceptorsFor_each keys basePath w) = Some (Scopes_of key) /\
  allInterceptors w' = allInterceptors w /\
  (forall j, j <> scope -> the_interceptor w' j = the_interceptor w j) /\
  Interceptor.__nock_filteredScope (the_interceptor w' scope) = Interceptor.__nock_scopeKey ic /\
  (truthy (Interceptor.__nock_scopeKey ic) = true ->
   truthy (Interceptor.__nock_scopeHost ic) = true ->
   forall r headers,
     Options.headers (Request.options (the_request w r)) = Some headers ->
     getHeader (setRequestHeaders r scope w') r "host" = Interceptor.__nock_scopeHost ic /\
     Options.headers (Request.options (the_request (setRequestHeaders r scope w') r)) =
       Some (<["host" := Interceptor.__nock_scopeHost ic]> headers)).
Proof.
  intros -> Hbefore He Hfind ic w'.
  assert (Hrun : interceptorsFor_each (before ++ key :: after) basePath w =
                 (Some (Scopes_of key), mark_filtered scope w)).
  { rewrite interceptorsFor_each_skip by done.
    cbn [interceptorsFor_each]. by rewrite He, Hfind. }
  unfold w'. rewrite Hrun. cbn [fst snd].
  destruct (mark_filtered_frame scope w) as (Ha & Hro & Hs & Hj).
  split; [done|]. split; [done|]. split; [done|].
  split; [by rewrite Hs|].
  intros Hkey Hhost r headers Hheaders.
  assert (Hq : the_request (mark_filtered scope w) r = the_request w r).
  { unfold the_request. by rewrite Hro. }
  unfold setRequestHeaders. rewrite Hs.
  cbn [Interceptor.__nock_filteredScope Interceptor.__nock_scopeHost
       Interceptor_set___nock_filteredScope].
  fold ic. rewrite Hkey, Hhost. cbn [andb].
  unfold getHeader, setHeader. cbn [String.eqb Ascii.eqb Bool.eqb andb].
  rewrite !the_request_update_request, Hq.
  cbn [Request.outgoingHeaders Request.set_outgoingHeaders Request.set_options
       Request.options Options.headers Options.set_headers].
  split.
  - change (toLowerCase "host") with "host". by rewrite lookup_insert_eq.
  - by rewrite Hheaders.
Qed.
End InterceptorsFor.

Section RemoveInterceptor.
Context {lib : Lib}.

Lemma splice_key_here (w : World) (key : string) (before after : list nat) (i : nat) :
  (forall j, j ∈ before -> Interceptor__key (the_interceptor w j) <> key) ->
  Interceptor__key (the_interceptor w i) = key ->
  splice_key w key (before ++ i :: after) = before ++ after.
Proof.
  intros Hbefore Hi. induction before as [|b before IH]; cbn [app splice_key].
  - by rewrite Hi, String.eqb_refl.
  - assert (Hb : String.eqb (Interceptor__key (the_interceptor w b)) key = false).
    { apply String.eqb_neq. apply Hbefore. apply list_elem_of_here. }
    rewrite Hb, IH; [done|]. intros j Hj. apply Hbefore. by apply list_elem_of_further.
Qed.

Lemma splice_key_absent (w : World) (key : string) (l : list nat) :
  (forall j, j ∈ l -> Interceptor__key (the_interceptor w j) <> key) ->
  splice_key w key l = l.
Proof.
  intros Hl. induction l as [|b l IH]; [done|]. cbn [splice_key].
  assert (Hb : String.eqb (Interceptor__key (the_interceptor w b)) key = false).
  { apply String.eqb_neq. apply Hl. apply list_elem_of_here. }
  rewrite Hb, IH; [done|]. intros j Hj. apply Hl. by apply list_elem_of_further.
Qed.

(** X21. [removeInterceptor] answers true exactly when the entry of the
    base URL it looks for has interceptors, whether or not one of them has
    the key it looks for. What it removes is the first interceptor of that
    entry with the key, one at most, which need not be the interceptor that
    was passed in; the other entries, the interceptor objects and their
    counters, the requests and the loop are untouched. *)
Theorem removeInterceptor_removes_first_with_key (options : nat + Options.t) (w : World) :
  let baseUrl := fst (removeInterceptor_target options w) in
  let key := snd (removeInterceptor_target options w) in
  let removed := fst (removeInterceptor options w) in
  let w' := snd (removeInterceptor options w) in
  removed = negb (List.length (scopes_at w baseUrl) =? 0)%nat /\
  (forall k, k <> baseUrl -> allInterceptors w' !! k = allInterceptors w !! k) /\
  interceptorObjects w' = interceptorObjects w /\
  requestObjects w' = requestObjects w /\
  trace w' = trace w /\
  (forall before after j,
     scopes_at w baseUrl = before ++ j :: after ->
     (forall j', j' ∈ before -> Interceptor__key (the_interceptor w j') <> key) ->
     Interceptor__key (the_interceptor w j) = key ->
     scopes_at w' baseUrl = before ++ after) /\
  ((forall j, j ∈ scopes_at w baseUrl -> Interceptor__key (the_interceptor w j) <> key) ->
   scopes_at w' baseUrl = scopes_at w baseUrl).
Proof.
  unfold removeInterceptor.
  destruct (removeInterceptor_target options w) as [baseUrl key]. cbn [fst snd].
  unfold scopes_at.
  destruct (allInterceptors w !! baseUrl) as [e|] eqn:He.
  - destruct (Entry.scopes e) as [|s0 scopes] eqn:Hsc.
    + cbn. rewrite He, Hsc. repeat split; try done.
      intros before after j Hnil. by destruct before.
    + cbn [List.length Nat.ltb Nat.leb Nat.eqb negb fst snd].
      unfold update_entry. cbn. rewrite lookup_alter_eq, He. cbn. rewrite Hsc.
      repeat split; try done.
      * intros k Hk. by rewrite lookup_alter_ne.
      * intros before after j Heq Hbefore Hj. rewrite Heq.
        by apply splice_key_here.
      * intros Hnone. by apply splice_key_absent.
  - cbn. rewrite He. repeat split; try done.
    intros before after j Hnil. by destruct before.
Qed.
End RemoveInterceptor.

Section RealRequests.
Context {env : Env} {lib : Lib}.

(** X22. When nock is on and the first entry hit by a request is one that
    was hit by its key, has no interceptor left and allows unmocked
    requests, the request is a real one: the request function of the
    module is called with the normalized options (for https with the
    original [ClientRequest] in place), 'no match' is emitted for the
    request, and nothing is changed. *)
Theorem used_up_allowUnmocked_entry_passes_requests (keys before after : list string)
    (key : string) (e : Entry.t) (NOCK_OFF : option string)
    (allowNetConnect : option netConnectMatcher) (r : nat) (proto : string)
    (options : Options.t) (w : World) :
  let options' := normalizeRequestOptions (Options_set_proto proto options) in
  isOn NOCK_OFF = true ->
  keys = before ++ key :: after ->
  (forall k, k ∈ before -> hits w (basePath_of options') k = false) ->
  allInterceptors w !! key = Some e ->
  Entry.scopes e = [] ->
  Entry.allowUnmocked e = true ->
  matchStringOrRegexp (basePath_of options') (Entry.key e) = true ->
  activate_request keys NOCK_OFF allowNetConnect r proto options w =
  (Real_request options' (String.eqb proto "https"), Some No_match_for_request, w).
Proof.
  intros options' Hon -> Hbefore He Hsc Hal Hm.
  unfold activate_request, interceptorsFor. fold options'.
  rewrite interceptorsFor_each_skip by done.
  cbn [interceptorsFor_each]. rewrite He, Hsc. cbn [List.find]. rewrite Hm, Hal.
  cbn. by rewrite Hon.
Qed.

(** X23. When nock is on and the first entry hit by a request has an
    interceptor, or has none left and does not allow unmocked requests, and
    no filtering scope is involved: the request is a real one only if no
    interceptor of the entry matches its address while one of them allows
    unmocked requests; otherwise it is made with nock's [ClientRequest],
    whatever [enableNetConnect] was given. An entry that was used up
    without [allowUnmocked] therefore keeps its requests from the
    network. *)
Theorem registered_host_is_mocked (keys before after : list string)
    (key : string) (e : Entry.t) (NOCK_OFF : option string)
    (allowNetConnect : option netConnectMatcher) (r : nat) (proto : string)
    (options : Options.t) (w : World) :
  let options' := normalizeRequestOptions (Options_set_proto proto options) in
  isOn NOCK_OFF = true ->
  keys = before ++ key :: after ->
  (forall k, k ∈ before -> hits w (basePath_of options') k = false) ->
  allInterceptors w !! key = Some e ->
  (forall i, i ∈ Entry.scopes e -> filteringScope_accepts w (basePath_of options') i = false) ->
  matchStringOrRegexp (basePath_of options') (Entry.key e) = true ->
  Entry.scopes e <> [] \/ Entry.allowUnmocked e = false ->
  let matches := existsb (fun i => matchAddress (the_interceptor w i) options') (Entry.scopes e) in
  let allowUnmocked :=
    existsb (fun i => Interceptor.options_allowUnmocked (the_interceptor w i)) (Entry.scopes e) in
  activate_request keys NOCK_OFF allowNetConnect r proto options w =
  if negb matches && allowUnmocked
  then (Real_request options' (String.eqb proto "https"), Some No_match_for_request, w)
  else (Mocked_request options', None, w).
Proof.
  intros options' Hon -> Hbefore He Hfilter Hm Hne matches allowUnmocked.
  unfold activate_request, interceptorsFor. fold options'.
  rewrite interceptorsFor_each_skip by done.
  cbn [interceptorsFor_each]. rewrite He.
  assert (Hfind : List.find (filteringScope_accepts w (basePath_of options')) (Entry.scopes e)
                  = None).
  { destruct (List.find _ (Entry.scopes e)) as [s|] eqn:Hf; [|done].
    apply find_some in Hf as [Hin Hacc]. apply list_elem_of_In in Hin.
    by rewrite Hfilter in Hacc. }
  rewrite Hfind, Hm.
  assert (Hsentinel : (List.length (Entry.scopes e) =? 0)%nat && Entry.allowUnmocked e = false).
  { destruct Hne as [Hne| ->]; [|apply andb_false_r].
    by destruct (Entry.scopes e). }
  rewrite Hsentinel, Hon. unfold scopes_at. rewrite He.
  fold matches allowUnmocked. by destruct (negb matches && allowUnmocked).
Qed.

(** X24. A request whose base path hits no entry, or any request while
    nock is off: 'no match' is emitted with the options, and the request is
    a real one if nock is off or [allowNetConnect] is set and accepts the
    host. Otherwise it is a request that fails, on the next tick, with
    'Nock: Disallowed net connect for "<host><path>"' and the code
    ENETUNREACH; that is the case for every host after
    [disableNetConnect()], and for none after [enableNetConnect()] without
    a matcher. *)
Theorem unregistered_host_follows_net_connect (keys : list string) (NOCK_OFF : option string)
    (allowNetConnect : option netConnectMatcher) (r : nat) (proto : string)
    (options : Options.t) (w : World) :
  let options' := normalizeRequestOptions (Options_set_proto proto options) in
  let options'' := normalizeRequestOptions options' in
  let error := NetConnectNotAllowedError options'' in
  isOff NOCK_OFF = true \/ (forall k, k ∈ keys -> hits w (basePath_of options') k = false) ->
  let '(made, event, w') := activate_request keys NOCK_OFF allowNetConnect r proto options w in
  event = Some No_match_for_options /\
  (isOff NOCK_OFF = true -> made = Real_request options' false /\ allInterceptors w' = allInterceptors w) /\
  (isOff NOCK_OFF = false ->
   w' = (if fst (isEnabledForNetConnect allowNetConnect options')
         then w else ErroringClientRequest r error w) /\
   made = (if fst (isEnabledForNetConnect allowNetConnect options')
           then Real_request options'' false else Failing_request error) /\
   (allowNetConnect = disableNetConnect ->
    made = Failing_request error /\
    (idle w -> idle (run_next w') /\ trace (run_next w') = trace w ++ [Req_emit_error r error])) /\
   (forall matcher,
      allowNetConnect = enableNetConnect matcher ->
      (forall s, matcher <> VString s) -> has_test_function matcher = false ->
      made = Real_request options'' false)).
Proof.
  intros options' options'' error Hcase.
  unfold activate_request, interceptorsFor. fold options'.
  destruct (interceptorsFor_each keys (basePath_of options') w) as [found w1] eqn:Hfor.
  assert (Hnone : (if isOn NOCK_OFF then found else None) = None /\
                  (isOff NOCK_OFF = false -> w1 = w) /\
                  allInterceptors w1 = allInterceptors w).
  { assert (Hreg : allInterceptors w1 = allInterceptors w).
    { clear Hcase. revert Hfor. induction keys as [|key keys IH]; cbn [interceptorsFor_each].
      - by intros [= _ <-].
      - destruct (allInterceptors w !! key) as [e|]; [|exact IH].
        destruct (List.find _ (Entry.scopes e)); [by intros [= _ <-]|].
        destruct (matchStringOrRegexp _ _); [|exact IH].
        by destruct (_ && _); intros [= _ <-]. }
    unfold isOn. destruct Hcase as [Hoff|Hmiss].
    - rewrite Hoff. cbn. split; [done|]. split; [done|exact Hreg].
    - rewrite interceptorsFor_each_miss in Hfor by done. injection Hfor as <- <-.
      split; [by destruct (negb _)|]. by split. }
  destruct Hnone as (-> & Hw1 & Hreg).
  unfold isEnabledForNetConnect. fold options''. cbn [fst].
  destruct (isOff NOCK_OFF) eqn:Hoff.
  - split; [done|]. split; [by split|]. done.
  - rewrite (Hw1 eq_refl).
    set (enabled := match allowNetConnect with
                    | Some m => netConnectMatcher_test m options''
                    | None => false
                    end).
    assert (Hmade : (let '(made, event, w') :=
                       if enabled
                       then (Real_request options'' false, Some No_match_for_options, w)
                       else (Failing_request error, Some No_match_for_options,
                             ErroringClientRequest r error w) in
                     event = Some No_match_for_options /\
                     w' = (if enabled then w else ErroringClientRequest r error w) /\
                     made = (if enabled then Real_request options'' false
                             else Failing_request error))).
    { by destruct enabled. }
    destruct (if enabled then _ else _) as [[made event] w'].
    destruct Hmade as (-> & -> & ->).
    split; [done|]. split; [done|]. intros _.
    split; [done|]. split; [done|]. split.
    + intros ->. unfold enabled, disableNetConnect. split; [done|].
      intros (Hn & Hmi & Him & Hti). unfold ErroringClientRequest, run_next, idle. cbn.
      rewrite Hn. cbn. by rewrite Hmi, Him, Hti.
    + intros matcher -> Hns Hnt. unfold enabled, enableNetConnect.
      destruct matcher; try (by rewrite ?Hnt).
      by destruct (Hns s).
Qed.
End RealRequests.


Section Clock.
Context {env : Env}.

Lemma now_setHeader r name v w : now (setHeader r name v w) = now w.
Proof. unfold setHeader. by destruct (String.eqb name "expect" && _). Qed.










End Clock.

Section HostHeader.
Context {env : Env}.

Lemma setRequestHeaders_unfiltered (r i : nat) (w : World) :
  unfiltered w i ->
  setRequestHeaders r i w =
  match Options.host (Request.options (the_request w r)) with
  | Some host =>
      if negb (String.eqb host "") && negb (truthy (getHeader w r "host"))
      then setHeader r "host"
             (VString (default_host_header (Request.options (the_request w r)) host)) w
      else w
  | None => w
  end.
Proof. intros Hu. unfold setRequestHeaders. by rewrite Hu. Qed.

Lemma setHeader_host (r : nat) (v : value) (w : World) :
  setHeader r "host" v w =
  update_request r
    (fun q => Request.set_outgoingHeaders (<["host" := v]> (Request.outgoingHeaders q)) q) w.
Proof. reflexivity. Qed.

Lemma host_pass_step (r i : nat) (host : string) (w0 w : World) :
  let o := Request.options (the_request w0 r) in
  Options.host o = Some host ->
  unfiltered w0 i ->
  host_pass r (VString (default_host_header o host)) w0 w ->
  host_pass r (VString (default_host_header o host)) w0 (setRequestHeaders r i w) /\
  (truthy (getHeader w r "host") = true -> setRequestHeaders r i w = w) /\
  (truthy (getHeader w r "host") = false -> host <> "" ->
   Request.outgoingHeaders (the_request (setRequestHeaders r i w) r) =
     <["host" := VString (default_host_header o host)]>
       (Request.outgoingHeaders (the_request w0 r))).
Proof.
  intros o Hhost Hu (Hio & Ha & Ho & Hout).
  assert (Hu' : unfiltered w i).
  { unfold unfiltered, the_interceptor in *. by rewrite Hio. }
  rewrite (setRequestHeaders_unfiltered r i w Hu'), Ho. fold o. rewrite Hhost.
  destruct (negb (String.eqb host "") && negb (truthy (getHeader w r "host"))) eqn:Hc.
  - rewrite setHeader_host. apply andb_true_iff in Hc as [Hne Hab].
    apply negb_true_iff in Hab. split; [|split].
    + unfold host_pass. rewrite the_request_update_request. cbn.
      repeat split; try done. right.
      destruct Hout as [-> | ->]; [done|]. by rewrite insert_insert_eq.
    + intros Ht. congruence.
    + intros _ _. rewrite the_request_update_request. cbn.
      destruct Hout as [-> | ->]; [done|]. by rewrite insert_insert_eq.
  - split; [by repeat split|]. split; [done|].
    intros Hab Hne. apply andb_false_iff in Hc as [Hc|Hc].
    + apply negb_false_iff, String.eqb_eq in Hc. done.
    + rewrite Hab in Hc. done.
Qed.

Lemma host_pass_fold (r : nat) (host : string) (l : list nat) (w0 w : World) :
  let o := Request.options (the_request w0 r) in
  let hostHeader := VString (default_host_header o host) in
  Options.host o = Some host ->
  (forall i, i ∈ l -> unfiltered w0 i) ->
  host_pass r hostHeader w0 w ->
  let w' := foldl (fun w i => setRequestHeaders r i w) w l in
  host_pass r hostHeader w0 w' /\
  (truthy (getHeader w r "host") = true -> w' = w) /\
  (truthy (getHeader w r "host") = false -> host <> "" -> l <> [] ->
   Request.outgoingHeaders (the_request w' r) =
     <["host" := hostHeader]> (Request.outgoingHeaders (the_request w0 r))).
Proof.
  intros o hostHeader Hhost. revert w.
  induction l as [|i l IH]; intros w Hl Hp; cbn [foldl].
  - split; [done|]. split; [done|]. by intros _ _ [].
  - assert (Hi : unfiltered w0 i) by (apply Hl, list_elem_of_here).
    assert (Hl' : forall j, j ∈ l -> unfiltered w0 j)
      by (intros j Hj; by apply Hl, list_elem_of_further).
    destruct (host_pass_step r i host w0 w Hhost Hi Hp) as (Hp1 & Hsame & Hset).
    destruct (IH (setRequestHeaders r i w) Hl' Hp1) as (Hp2 & Hsame2 & Hset2).
    split; [exact Hp2|]. split.
    + intros Ht. rewrite (Hsame Ht) in *. by apply Hsame2.
    + intros Hab Hne _.
      set (w1 := setRequestHeaders r i w) in *.
      destruct Hp2 as (_ & _ & _ & [Hout| ->]); [|done].
      destruct (truthy (getHeader w1 r "host")) eqn:Ht1.
      * rewrite (Hsame2 eq_refl). by apply Hset.
      * destruct l as [|j l]; [by apply Hset|]. by apply Hset2.
Qed.

(** X27. The [host] header that the interceptors are matched against,
    when none of the candidates was reached through a filtering scope: a
    truthy [host] header of the request is kept as it is, and [end] then
    changes nothing of the request but its options; without one, and with
    a host in the options and a candidate, the header is the host of the
    options, cut at the first colon if the port is 80 or 443. In both cases
    the headers of the options are the headers of the request. *)
Theorem host_header_for_matching (r : nat) (w : World) :
  let o := Request.options (the_request w r) in
  let outgoing := Request.outgoingHeaders (the_request w r) in
  (forall i, i ∈ interceptors_of w r -> unfiltered w i) ->
  let w' := end_prepare r w in
  (truthy (getHeader w r "host") = true ->
   Request.outgoingHeaders (the_request w' r) = outgoing /\
   Options.headers (Request.options (the_request w' r)) = Some outgoing) /\
  (forall host,
     truthy (getHeader w r "host") = false ->
     Options.host o = Some host -> host <> "" ->
     interceptors_of w r <> [] ->
     getHeader w' r "host" = VString (default_host_header o host) /\
     Request.outgoingHeaders (the_request w' r) =
       <["host" := VString (default_host_header o host)]> outgoing /\
     Options.headers (Request.options (the_request w' r)) = Some outgoing).
Proof.
  intros o outgoing Hu w'. unfold w', end_prepare.
  set (w0 := update_request r _ (update_request r (Request.set_ended true) w)).
  assert (Hq0 : the_request w0 r =
                Request.set_options
                  (Options.set_protocol (Some (Options.proto o +:+ ":"))
                     (Options.set_headers (Some outgoing)
                        (Options.set_path (Request.path (the_request w r)) o)))
                  (Request.set_ended true (the_request w r))).
  { unfold w0. by rewrite !the_request_update_request. }
  assert (Hc0 : interceptors_of w0 r = interceptors_of w r).
  { unfold interceptors_of. rewrite Hq0. reflexivity. }
  assert (Hu0 : forall i, i ∈ interceptors_of w0 r -> unfiltered w0 i).
  { intros i Hi. rewrite Hc0 in Hi. exact (Hu i Hi). }
  assert (Hget0 : getHeader w0 r "host" = getHeader w r "host").
  { unfold getHeader. by rewrite Hq0. }
  assert (Hout0 : Request.outgoingHeaders (the_request w0 r) = outgoing)
    by (by rewrite Hq0).
  assert (Hport : forall host, default_host_header (Request.options (the_request w0 r)) host =
                               default_host_header o host).
  { intros host. by rewrite Hq0. }
  split.
  - intros Ht.
    destruct (Options.host (Request.options (the_request w0 r))) as [host|] eqn:Hhost.
    + destruct (host_pass_fold r host (interceptors_of w0 r) w0 w0 Hhost Hu0)
        as (_ & Hsame & _); [by repeat split; try left|].
      rewrite Hsame by (by rewrite Hget0). by rewrite Hq0.
    + assert (Hfold : forall l w1,
                (forall i, i ∈ l -> unfiltered w1 i) ->
                Options.host (Request.options (the_request w1 r)) = None ->
                foldl (fun w i => setRequestHeaders r i w) w1 l = w1).
      { induction l as [|i l IH]; intros w1 Hl Hnone; cbn [foldl]; [done|].
        rewrite (setRequestHeaders_unfiltered r i w1) by (apply Hl, list_elem_of_here).
        rewrite Hnone. apply IH; [|done]. intros j Hj. by apply Hl, list_elem_of_further. }
      rewrite Hfold by done. by rewrite Hq0.
  - intros host Hab Hhost Hne Hcand.
    assert (Hhost0 : Options.host (Request.options (the_request w0 r)) = Some host)
      by (by rewrite Hq0).
    destruct (host_pass_fold r host (interceptors_of w0 r) w0 w0 Hhost0 Hu0)
      as ((_ & _ & Hopt & _) & _ & Hset); [by repeat split; try left|].
    rewrite Hget0, Hport, Hout0 in Hset.
    specialize (Hset Hab Hne ltac:(by rewrite Hc0)).
    split; [|split].
    + unfold getHeader. rewrite Hset. change (toLowerCase "host") with "host".
      by rewrite lookup_insert_eq.
    + exact Hset.
    + rewrite Hopt, Hq0. reflexivity.
Qed.
End HostHeader.

Section EmittedResponse.
Context {env : Env}.
Variables (r i : nat) (ic : Interceptor.t).



End EmittedResponse.

Section StatusAndHeaders.
Context {env : Env}.



End StatusAndHeaders.

Section JsonReply.
Context {env : Env}.

Lemma continueWithResponseBody_serialized (r i : nat) (ic : Interceptor.t) (w : World)
    ticks micro imm timers tr bs (body : value) :
  Interceptor.delayInMs ic = 0 ->
  serialized body = true ->
  looks_like r i ic w ticks micro imm timers tr bs ->
  looks_like r i ic (continueWithResponseBody r i body w)
    (ticks ++ [T_respond r i (JSON_stringify body)]) micro imm timers tr bs.
Proof.
  intros Hd Hbody Hw. unfold continueWithResponseBody.
  assert (Hdel : Interceptor.delayInMs (the_interceptor w i) = 0).
  { destruct Hw as (_&_&_&_&_&_&_&Hst).
    change (Interceptor.delayInMs (static (the_interceptor w i)) = 0).
    by rewrite Hst. }
  assert (Ht : transformResponseBody r i body w =
               (JSON_stringify body,
                update_response r
                  (fun res => Response.set_rawHeaders
                     (Response.rawHeaders res ++ [("Content-Type", VString "application/json")])
                     res) w)).
  { unfold transformResponseBody. rewrite Hdel. by destruct body. }
  rewrite Ht.
  apply (looks_like_update_response r i ic _ _ _ _ _ _ _
           (fun res => Response.set_rawHeaders
              (Response.rawHeaders res ++ [("Content-Type", VString "application/json")])
              res)) in Hw.
  apply looks_like_count_and_remove in Hw.
  pose proof Hw as (_&_&_&_&_&Hab&_). rewrite Hab.
  apply looks_like_process_nextTick.
  by do 3 apply looks_like_update_response.
Qed.

(** X29. A recorded body that is neither a string, a buffer nor a stream
    (an object, say), without encoding and body delay: it is sent as one
    chunk, the text that [JSON.stringify] makes of it, a string where a
    string body would be sent as a buffer; the events are the scope's
    'request', the socket delays if there are, the response, the text, the
    end of the body and 'replied'. *)
Theorem serialized_body_sent_as_text (r i : nat) (w : World) :
  let ic := the_interceptor w i in
  idle w ->
  req_aborted w r = false ->
  Request.responseBuffers (the_request w r) = None ->
  find_interceptor (end_prepare r w) r (end_requestBody w r) = Some i ->
  replies_plainly ic ->
  isContentEncoded (Interceptor.headers ic) = false ->
  Interceptor.delayInMs ic = 0 ->
  serialized (Interceptor.body ic) = true ->
  forall text : string,
    JSON_stringify (Interceptor.body ic) = VString text -> text <> "" ->
    exists (delays : list event) (response : Response.t),
      Forall (is_delay r) delays /\
      forall m : nat,
        (4 <= m)%nat ->
        idle (run m (end_ r w)) /\
        trace (run m (end_ r w)) =
          trace w ++ [request_event w r i] ++ delays ++
          [Req_emit_response r response; Response_push r (VString text);
           Response_push r VNull;
           Scope_emit_replied (Scope.id (Interceptor.scope ic)) r i].
Proof.
  intros ic (Hn & Hmi & Him & Hti) Hab Hbuf Hfind (Hem & Hrf & Hfrf) Hce Hd Hser text Htext Hne.
  assert (Hw : looks_like r i ic w [] [] [] [] (trace w) None) by (by repeat split).
  assert (Hend : looks_like r i ic (end_ r w) [T_respond r i (VString text)] [] [] []
                   (trace w ++ [request_event w r i]) None).
  { end_mocking_begin r i w Hfind wc Hm. fold ic. rewrite Hem, Hrf, Hfrf, Hce.
    cbn [andb]. cbv zeta.
    apply (looks_like_matched r i ic w wc) in Hw; [|done|done].
    apply (looks_like_emit r i ic _ _ _ _ _ _ _ (request_event w r i)) in Hw.
    apply (looks_like_update_response r i ic _ _ _ _ _ _ _
             (fun res => Response.set_rawHeaders (Interceptor.rawHeaders ic)
                           (Response.set_statusCode (Interceptor.statusCode ic) res))) in Hw.
    assert (Hbody : match Interceptor.body ic with
                    | VString s =>
                        if end_isBinaryRequestBodyBuffer w r
                        then
                          if (0 <? String.length s)%nat &&
                             (List.length (Buffer_from (Interceptor.body ic) (VString "hex")) =? 0)%nat
                          then VBuffer (Buffer_from (Interceptor.body ic) (VString "utf8"))
                          else VBuffer (Buffer_from (Interceptor.body ic) (VString "hex"))
                        else Interceptor.body ic
                    | _ => Interceptor.body ic
                    end = Interceptor.body ic).
    { by destruct (Interceptor.body ic). }
    rewrite Hbody, <- Htext.
    by apply (continueWithResponseBody_serialized r i ic _ [] [] [] [] _ _
                (Interceptor.body ic)). }
  destruct (respond_run_body r i ic _ _ _ (VString text) eq_refl Hend)
    as (n & delays & response & Hle & Hdel & Hw1).
  cbn [default from_option id app] in Hw1.
  assert (Hall : Forall (fun b => truthy b = true) [VString text]).
  { constructor; [|constructor]. cbn. apply negb_true_iff. by apply String.eqb_neq. }
  apply (emitChunk_loop r i ic [VString text] Hall) in Hw1.
  rewrite <- run_add in Hw1.
  exists delays, response. split; [done|].
  intros m Hm.
  replace m with ((n + 2) + (m - (n + 2)))%nat by lia.
  rewrite run_add.
  destruct Hw1 as (Hn1 & Hmi1 & Him1 & Hti1 & Htr1 & _).
  cbn [List.length] in *.
  rewrite run_idle by (by repeat split).
  split; [by repeat split|].
  rewrite Htr1. by rewrite <- !app_assoc.
Qed.
End JsonReply.

(** ** Scenarios in the reference environment *)

Import Reference.

(** C1. Two requests for the same target are ended in the same turn, and the
    only interceptor, for a single use, replies through a callback: when the
    first request has matched and the callback has been called, the record
    is still registered, the second request matches it too, and both are
    given a response. With a static reply the record is gone when the second
    request ends. *)
Theorem single_use_record_matched_twice :
  let first_ended :=
    ended 1 (request 2 (request 1 (world_with (callback_reply (VString "ok") 1)))) in
  let both_ended := ended 2 first_ended in
  (* the first request matched, the reply callback was called, and the record is still registered *)
  Request.interceptor (the_request first_ended 1) = Some 0%nat /\
  microtaskQueue first_ended = [T_continueWithResponseBody 1 0 (VString "ok")] /\
  scopes_at first_ended "http://x.test" = [0%nat] /\
  (* the second request matches the same record *)
  Request.interceptor (the_request both_ended 2) = Some 0%nat /\
  responded (trace (run 20 both_ended)) = [1%nat; 2%nat] /\
  Interceptor.counter (the_interceptor (run 20 both_ended) 0) = -1 /\
  (* with a static reply the record is gone when the second request ends *)
  let static_ended :=
    ended 2 (ended 1 (request 2 (request 1 (world_with (static_reply (VString "ok") 1))))) in
  Request.interceptor (the_request static_ended 2) = None /\
  responded (trace (run 20 static_ended)) = [1%nat].
Proof. vm_compute. repeat split. Qed.

(** Three requests against an interceptor for two uses, each ended when the
    loop is idle again: the first two are given a response, the third is
    unmatched. *)
Example two_uses_three_requests :
  let served_1 := run 20 (ended 1 (request 1 (world_with (static_reply (VString "ok") 2)))) in
  let served_2 := run 20 (ended 2 (request 2 served_1)) in
  let served_3 := run 20 (ended 3 (request 3 served_2)) in
  scopes_at served_1 "http://x.test" = [0%nat] /\
  scopes_at served_2 "http://x.test" = [] /\
  responded (trace served_3) = [1%nat; 2%nat] /\
  Request.interceptor (the_request served_3 3) = None /\
  last (trace served_3) =
    Some (Req_emit_drain 3) /\
  Req_emit_error 3 (Error "Nock: No match for request GET /a" None (Some 404))
    ∈ trace served_3.
Proof.
  vm_compute. repeat split. apply list_elem_of_In. vm_compute. tauto.
Qed.

(** C2. A content-encoded reply of two chunks: the request is aborted after
    the response event and the first chunk; [emitChunk] still pushes the
    second chunk and the end of the body. *)
Theorem chunk_pushed_after_abort :
  let chunks := VArray [VString "1f8b"; VString "0000"] in
  let streaming := run 3 (ended 1 (one_request (encoded_reply chunks 0))) in
  let aborted := run 10 (req_abort 1 streaming) in
  pushed 1 (trace streaming) = [VBuffer [Byte.x1f; Byte.x8b]] /\
  immediateQueue streaming = [T_emitChunk 1 0] /\
  idle aborted /\
  since_abort 1 (trace aborted) =
    [Req_emit_abort 1;
     Req_emit_error 1 (Error "socket hang up" (Some "ECONNRESET") None);
     Response_push 1 (VBuffer [Byte.x00; Byte.x00]);
     Response_push 1 VNull;
     Scope_emit_replied 0 1 0].
Proof. vm_compute. repeat split. Qed.

(** C9, as stated, fails: the reply callback returns an object while the
    interceptor already has a [Content-Type] header, and a second one is
    appended. *)
Lemma content_type_appended_to_existing_one :
  let reply := Some {| fn_length := 2; fn_call := fun _ _ => Fulfilled (VObject []) |} in
  let interceptor :=
    interceptor_for scope0 [("Content-Type", VString "text/plain")] reply None VUndefined 0 1 in
  let w := ended 1 (one_request interceptor) in
  microtaskQueue w = [T_continueWithResponseBody 1 0 (VObject [])] /\
  header_present "content-type" (rawHeaders_of w 1) /\
  rawHeaders_of (snd (transformResponseBody 1 0 (VObject []) w)) 1 =
    [("Content-Type", VString "text/plain"); ("Content-Type", VString "application/json")] /\
  rawHeaders_of (run 10 w) 1 =
    [("Content-Type", VString "text/plain"); ("Content-Type", VString "application/json")].
Proof.
  split; [vm_compute; reflexivity|].
  split; [exists "Content-Type", (VString "text/plain"); split; [vm_compute; apply list_elem_of_here|reflexivity]|].
  split; vm_compute; reflexivity.
Qed.

(** The amended C9 on a reply that has no header yet: the object [{}] is
    serialized and the content type is appended. *)
Lemma json_body_content_type_witness :
  let w := one_request (static_reply (VString "ok") 1) in
  fst (transformResponseBody 1 0 (VObject []) w) = VString "{}" /\
  rawHeaders_of (snd (transformResponseBody 1 0 (VObject []) w)) 1 =
    [("Content-Type", VString "application/json")].
Proof.
  exact (json_body_content_type 1 0 (VObject []) (one_request (static_reply (VString "ok") 1))
           ltac:(discriminate) eq_refl eq_refl ltac:(discriminate) eq_refl).
Defined.

(** C5 on a result of four elements and on [[201, "created", {x: "y"}]]. *)
Lemma full_reply_result_witness :
  (exists e,
     parseFullReplyResult Response.fresh
       (VArray [VInt 200; VString "a"; VUndefined; VString "extra"]) = (inr e, Response.fresh)) /\
  parseFullReplyResult Response.fresh
    (VArray [VInt 201; VString "created"; VObject [("x", VString "y")]]) =
  (inl (VString "created"), Response.mk (VInt 201) [("x", VString "y")] ∅ false).
Proof.
  split.
  - destruct (full_reply_result Response.fresh
                (VArray [VInt 200; VString "a"; VUndefined; VString "extra"])) as [Hbad _].
    destruct Hbad as (e & He & _).
    + right. eexists. split; [reflexivity|]. left. simpl. lia.
    + by exists e.
  - destruct (full_reply_result Response.fresh
                (VArray [VInt 201; VString "created"; VObject [("x", VString "y")]])) as [_ Hgood].
    destruct (Hgood _ [("x", VString "y")] eq_refl) as [Hparse _];
      [simpl; lia|reflexivity|reflexivity|exact Hparse].
Defined.

(** C4 on two interceptors that both accept [GET /a]: the one registered
    first is found. *)
Lemma matcher_first_registered_witness :
  let w := request 1 (world_with_two (static_reply (VString "first") 1)
                                     (static_reply (VString "second") 1)) in
  find_interceptor (end_prepare 1 w) 1 "" = Some 0%nat.
Proof.
  destruct (matcher_first_registered
              (end_prepare 1 (request 1 (world_with_two (static_reply (VString "first") 1)
                                                        (static_reply (VString "second") 1))))
              1 "") as (_ & _ & Hfirst & _).
  apply (Hfirst 0%nat 1%nat [] [] []).
  - vm_compute. reflexivity.
  - intros j Hj. by apply elem_of_nil in Hj.
  - vm_compute. reflexivity.
  - vm_compute. reflexivity.
Defined.

(** C7 on a gzip reply of two chunks with a body delay of 100 ms. *)
Lemma content_encoded_with_delay_is_an_error_witness :
  let w := one_request (encoded_reply (VArray [VString "1f8b"; VString "0000"]) 100) in
  trace (run_next (end_ 1 w)) =
    trace w ++ [Scope_emit_request 0 1 0 ""; Req_emit_error 1 unsupported_delay] /\
  idle (run_next (end_ 1 w)).
Proof.
  destruct (content_encoded_with_delay_is_an_error 1 0
              (one_request (encoded_reply (VArray [VString "1f8b"; VString "0000"]) 100)))
    as [_ Hidle]; try (vm_compute; reflexivity).
  - vm_compute. discriminate.
  - destruct Hidle as [Hi Ht]; [by vm_compute|]. split; [exact Ht|exact Hi].
Defined.



(** C8 on a response that has [x-powered-by] while the scope defaults are
    [X-Powered-By] and [Server]: the existing pair stays first. *)
Lemma header_finalization_witness :
  let scope := Scope.mk 0 false [("X-Powered-By", VString "nock"); ("Server", VString "mock")] in
  let interceptor :=
    interceptor_for scope [("x-powered-by", VString "mine")] None None (VString "ok") 0 1 in
  let w := update_response 1 (Response.set_rawHeaders [("x-powered-by", VString "mine")])
             (one_request interceptor) in
  exists v',
    rawHeaders_of (continueWithResponseBody 1 0 (VBuffer []) w) 1 !! 0%nat =
      Some ("x-powered-by", v') /\ v' = VString "mine".
Proof.
  intros scope interceptor w.
  destruct (header_finalization 1 0 (VBuffer []) w) as (Hkeep & _).
  destruct (Hkeep 0%nat "x-powered-by" (VString "mine") eq_refl) as (v' & Hv' & Heq).
  exists v'. split; [exact Hv'|]. apply Heq. discriminate.
Defined.

(** ** The further properties on cases *)

Import Cases.
Import Registry.

(** A second [req.end()] on a request that was ended. *)
Lemma end_twice_witness :
  let w := req_end 1 VUndefined VUndefined VUndefined
             (one_request (static_reply (VString "ok") 1)) in
  req_end 1 VUndefined VUndefined VUndefined w = w /\ req_flushHeaders 1 w = w.
Proof.
  apply (end_twice 1 (one_request (static_reply (VString "ok") 1))
           VUndefined VUndefined VUndefined VUndefined VUndefined VUndefined).
  vm_compute. reflexivity.
Defined.

(** Two writes of one byte each. *)
Lemma written_chunks_accumulate_witness :
  let w := one_request (static_reply (VString "ok") 1) in
  end_requestBodyBuffer (write_buffers 1 [[Byte.x61]; [Byte.x62]] w) 1 =
  end_requestBodyBuffer w 1 ++ [Byte.x61; Byte.x62].
Proof.
  destruct (written_chunks_accumulate 1 (one_request (static_reply (VString "ok") 1))
              ltac:(vm_compute; reflexivity)) as [Hall _].
  exact (Hall [[Byte.x61]; [Byte.x62]]).
Defined.

(** [GET /b] when only [GET /a] is mocked. *)
Lemma unmatched_request_fails_with_404_witness :
  let w := one_request_b (static_reply (VString "ok") 1) in
  idle (run_next (end_ 1 w)) /\
  trace (run_next (end_ 1 w)) =
    trace w ++
    [GlobalEmitter_emit_no_match 1;
     Req_emit_error 1
       (no_match_error (Request.options (the_request (end_prepare 1 w) 1))
          (end_requestBody w 1))].
Proof.
  destruct (unmatched_request_fails_with_404 1 (one_request_b (static_reply (VString "ok") 1))
              ltac:(vm_compute; reflexivity) ltac:(vm_compute; reflexivity)) as [_ Hrun].
  apply Hrun. by vm_compute.
Defined.

(** [GET /b] when [GET /a] is mocked by a scope that allows unmocked
    requests. *)
Lemma unmatched_request_passes_through_witness :
  let w := one_request_b (unmocked_reply (VString "ok")) in
  trace (end_ 1 w) =
    trace w ++
    [GlobalEmitter_emit_no_match 1;
     ClientRequest_end 1 (Request.options (the_request (end_prepare 1 w) 1))
       (List.concat (Request.requestBodyBuffers (the_request w 1)))] /\
  nextTickQueue (end_ 1 w) = nextTickQueue w.
Proof.
  destruct (unmatched_request_passes_through 1 (one_request_b (unmocked_reply (VString "ok")))
              ltac:(vm_compute; reflexivity) ltac:(vm_compute; reflexivity)
              ltac:(vm_compute; reflexivity)) as (_ & _ & Ht & Hn & _).
  split; [exact Ht|exact Hn].
Defined.


(** A reply callback whose promise is rejected. *)
Lemma rejected_reply_keeps_interceptor_witness :
  let w := one_request (body_callback (Rejected (Error "no" None None))) in
  trace (run 2 (end_ 1 w)) =
    trace w ++ [request_event w 1 0; Req_emit_error 1 (Error "no" None None)] /\
  untouched_registry w (run 2 (end_ 1 w)).
Proof.
  destruct (rejected_reply_keeps_interceptor 1 0
              (one_request (body_callback (Rejected (Error "no" None None))))
              (replying (Rejected (Error "no" None None))) K_responseBody (Error "no" None None)
              ltac:(by vm_compute) ltac:(vm_compute; reflexivity)
              ltac:(split; vm_compute; reflexivity) ltac:(reflexivity))
    as (_ & Ht & Hu).
  split; [exact Ht|exact Hu].
Defined.

(** A full reply callback that returns a string. *)
Lemma invalid_full_reply_keeps_interceptor_witness :
  let w := one_request (full_callback (Fulfilled (VString "ok"))) in
  trace (run 2 (end_ 1 w)) =
    trace w ++
    [request_event w 1 0;
     Req_emit_error 1
       (Error "A single function provided to .reply MUST return an array" None None)] /\
  untouched_registry w (run 2 (end_ 1 w)).
Proof.
  destruct (invalid_full_reply_keeps_interceptor 1 0
              (one_request (full_callback (Fulfilled (VString "ok"))))
              (replying (Fulfilled (VString "ok"))) (VString "ok")
              (Error "A single function provided to .reply MUST return an array" None None)
              ltac:(by vm_compute) ltac:(vm_compute; reflexivity)
              ltac:(repeat split; vm_compute; reflexivity) ltac:(reflexivity)
              ltac:(reflexivity))
    as (_ & Ht & Hu).
  split; [exact Ht|exact Hu].
Defined.

(** A reply callback whose promise is pending when [end] returns. *)
Lemma pending_reply_waits_witness :
  let w := one_request (body_callback Pending) in
  microtaskQueue (end_ 1 w) = microtaskQueue w /\
  microtaskQueue (reply_settles 1 (inl (VString "ok")) (end_ 1 w)) =
    microtaskQueue w ++ [T_continueWithResponseBody 1 0 (VString "ok")].
Proof.
  destruct (pending_reply_waits 1 0 (one_request (body_callback Pending))
              (replying Pending) K_responseBody
              ltac:(vm_compute; reflexivity)
              ltac:(split; vm_compute; reflexivity) ltac:(reflexivity))
    as ((_ & Hmi & _) & Hok & _).
  split; [exact Hmi|exact (Hok (VString "ok"))].
Defined.



Lemma get_a_expecting_headers :
  option_headers get_a_expecting = {[ "expect" := VString "100-continue" ]}.
Proof. vm_compute. reflexivity. Qed.

Lemma get_a_expecting_lower_case (k : string) :
  is_Some (option_headers get_a_expecting !! k) -> toLowerCase k = k.
Proof.
  rewrite get_a_expecting_headers. intros [v Hk].
  apply lookup_singleton_Some in Hk as [<- _]. reflexivity.
Qed.

(** A request with [Expect: 100-continue] and [auth]. *)
Lemma new_request_headers_witness :
  let w := RequestOverrider 1 true get_a_expecting "http://x.test"
             (world_with (static_reply (VString "ok") 1)) in
  Request.outgoingHeaders (the_request w 1) =
    match basic_auth get_a_expecting with
    | Some v => <["authorization" := v]> (option_headers get_a_expecting)
    | None => option_headers get_a_expecting
    end.
Proof.
  destruct (new_request_headers 1 true get_a_expecting "http://x.test"
              (world_with (static_reply (VString "ok") 1)) get_a_expecting_lower_case)
    as (Ho & _).
  exact Ho.
Defined.

(** The same request: 'socket', 'connect', 'secureConnect', then
    'continue'. *)
Lemma continue_follows_the_socket_events_witness :
  let w0 := world_with (static_reply (VString "ok") 1) in
  let w := RequestOverrider 1 true get_a_expecting "http://x.test" w0 in
  trace (run 2 w) =
    trace w0 ++ [Req_emit_socket 1; Socket_emit_connect 1] ++
    (if Socket_authorized (Options.proto get_a_expecting)
     then [Socket_emit_secureConnect 1] else []) ++
    (if expects_continue (option_headers get_a_expecting !! "expect")
     then [Req_emit_continue 1] else []).
Proof.
  destruct (continue_follows_the_socket_events 1 true get_a_expecting "http://x.test"
              (world_with (static_reply (VString "ok") 1)) get_a_expecting_lower_case
              ltac:(by vm_compute))
    as (_ & Ht).
  exact Ht.
Defined.

(** An interceptor for one use is registered and removed. *)
Lemma add_then_remove_witness :
  let w := unregistered (static_reply (VString "ok") 1) in
  let w' := remove 0 (add "http://x.test" 0 scope0 (ScopeOptions.mk false None)
                        (VString "x.test") w) in
  (forall k, scopes_at w' k = scopes_at w k) /\
  is_Some (allInterceptors w' !! "http://x.test").
Proof.
  destruct (add_then_remove "http://x.test" 0 scope0 (ScopeOptions.mk false None)
              (VString "x.test") (unregistered (static_reply (VString "ok") 1)))
    as (Hs & He & _).
  - vm_compute. reflexivity.
  - reflexivity.
  - vm_compute. discriminate.
  - vm_compute. apply not_elem_of_nil.
  - split; [exact Hs|exact He].
Defined.

(** [.reply(200, () => "ok")]. *)
Lemma callback_body_sent_as_one_chunk_witness :
  let w := one_request (body_callback (Fulfilled (VString "ok"))) in
  allInterceptors (run 1 (end_ 1 w)) = allInterceptors (remove 0 w) /\
  exists delays response,
    trace (run 5 (end_ 1 w)) =
      trace w ++ [request_event w 1 0] ++ delays ++
      [Req_emit_response 1 response;
       Response_push 1 (VBuffer (Buffer_from (VString "ok") VUndefined));
       Response_push 1 VNull; Scope_emit_replied 0 1 0].
Proof.
  destruct (callback_body_sent_as_one_chunk 1 0
              (one_request (body_callback (Fulfilled (VString "ok"))))
              (replying (Fulfilled (VString "ok"))) "ok"
              ltac:(by vm_compute) ltac:(vm_compute; reflexivity)
              ltac:(vm_compute; reflexivity) ltac:(vm_compute; reflexivity)
              ltac:(split; vm_compute; reflexivity) ltac:(reflexivity)
              ltac:(vm_compute; reflexivity))
    as (_ & Ha & delays & response & _ & Hrun).
  split; [exact Ha|].
  exists delays, response. destruct (Hrun 5%nat ltac:(lia)) as [_ Ht]. exact Ht.
Defined.

(** [.reply(200, <stream>)]. *)
Lemma stream_body_is_resumed_after_the_response_witness :
  let w := one_request (static_reply (VStream 0) 1) in
  exists delays response,
    trace (run 3 (end_ 1 w)) =
      trace w ++ [request_event w 1 0; Body_pause 1] ++ delays ++
      [Req_emit_response 1 response; Body_resume 1] /\
    body_emits_data 1 (VString "chunk") (run 3 (end_ 1 w)) =
      emit (Response_push 1 (VString "chunk")) (run 3 (end_ 1 w)).
Proof.
  destruct (stream_body_is_resumed_after_the_response 1 0
              (one_request (static_reply (VStream 0) 1))
              ltac:(by vm_compute) ltac:(vm_compute; reflexivity)
              ltac:(vm_compute; reflexivity)
              ltac:(repeat split; vm_compute; reflexivity)
              ltac:(left; vm_compute; reflexivity))
    as (delays & response & _ & Hrun).
  exists delays, response.
  destruct (Hrun 3%nat ltac:(lia)) as (_ & Ht & Hd & _).
  split; [exact Ht|exact (Hd (VString "chunk"))].
Defined.

(** One entry, hit by its key. *)
Lemma interceptorsFor_first_hit_witness :
  let w := registered (ScopeOptions.mk false None) (static_reply (VString "ok") 1) in
  interceptorsFor_each ["http://x.test"] "http://x.test" w =
  (Some (Scopes_of "http://x.test"), w).
Proof.
  destruct (interceptorsFor_first_hit ["http://x.test"] "http://x.test"
              (registered (ScopeOptions.mk false None) (static_reply (VString "ok") 1)))
    as [_ Hhit].
  apply (Hhit [] [] "http://x.test" (Entry.mk "http://x.test" [0%nat] false)).
  - reflexivity.
  - intros k Hk. by apply elem_of_nil in Hk.
  - vm_compute. reflexivity.
  - vm_compute. reflexivity.
Defined.

(** A request for [http://y.test] reaches the scope of [http://x.test]
    through its filtering function. *)
Lemma filtered_scope_sets_host_header_witness :
  let w := end_prepare 1 (request 1 (registered also_y (static_reply (VString "ok") 1))) in
  let w' := snd (interceptorsFor_each ["http://x.test"] "http://y.test" w) in
  fst (interceptorsFor_each ["http://x.test"] "http://y.test" w) =
    Some (Scopes_of "http://x.test") /\
  getHeader (setRequestHeaders 1 0 w') 1 "host" =
    Interceptor.__nock_scopeHost (the_interceptor w 0).
Proof.
  destruct (filtered_scope_sets_host_header ["http://x.test"] [] [] "http://x.test"
              (Entry.mk "http://x.test" [0%nat] false) "http://y.test" 0
              (end_prepare 1 (request 1 (registered also_y (static_reply (VString "ok") 1)))))
    as (Hfound & _ & _ & _ & Hhost).
  - reflexivity.
  - intros k Hk. by apply elem_of_nil in Hk.
  - vm_compute. reflexivity.
  - vm_compute. reflexivity.
  - split; [exact Hfound|].
    destruct (Hhost ltac:(vm_compute; reflexivity) ltac:(vm_compute; reflexivity) 1%nat ∅
                ltac:(vm_compute; reflexivity))
      as [Hget _].
    exact Hget.
Defined.

(** [removeInterceptor({ host: 'x.test', path: '/a', method: 'get' })]
    removes the interceptor of [GET http://x.test/a]. *)
Lemma removeInterceptor_removes_first_with_key_witness :
  let w := registered (ScopeOptions.mk false None) (static_reply (VString "ok") 1) in
  let options := inr (Options.mk None None "/a" "get" (Some "x.test") (VInt 80) "" None) in
  fst (removeInterceptor options w) =
    negb (List.length (scopes_at w (fst (removeInterceptor_target options w))) =? 0)%nat /\
  scopes_at (snd (removeInterceptor options w)) (fst (removeInterceptor_target options w)) =
    [] ++ [].
Proof.
  intros w options.
  destruct (removeInterceptor_removes_first_with_key options w)
    as (Hr & _ & _ & _ & _ & Hfirst & _).
  split; [exact Hr|].
  apply (Hfirst [] [] 0%nat).
  - vm_compute. reflexivity.
  - intros j Hj. by apply elem_of_nil in Hj.
  - vm_compute. reflexivity.
Defined.

(** A request for a host whose only interceptor, of a scope with
    [allowUnmocked], was used. *)
Lemma used_up_allowUnmocked_entry_passes_requests_witness :
  let w := used_up (ScopeOptions.mk true None) (unmocked_reply (VString "ok")) in
  activate_request ["http://x.test"] None disableNetConnect 1 "http" get_a w =
  (Real_request (normalizeRequestOptions (Options_set_proto "http" get_a))
     (String.eqb "http" "https"),
   Some No_match_for_request, w).
Proof.
  apply (used_up_allowUnmocked_entry_passes_requests ["http://x.test"] [] [] "http://x.test"
           (Entry.mk "http://x.test" [] true)).
  - reflexivity.
  - reflexivity.
  - intros k Hk. by apply elem_of_nil in Hk.
  - vm_compute. reflexivity.
  - reflexivity.
  - reflexivity.
  - vm_compute. reflexivity.
Defined.

(** A request that the interceptor of its host matches. *)
Lemma registered_host_is_mocked_witness :
  let w := registered (ScopeOptions.mk false None) (static_reply (VString "ok") 1) in
  let options' := normalizeRequestOptions (Options_set_proto "http" get_a) in
  activate_request ["http://x.test"] None (enableNetConnect VUndefined) 1 "http" get_a w =
  if negb (existsb (fun i => matchAddress (the_interceptor w i) options') [0%nat]) &&
     existsb (fun i => Interceptor.options_allowUnmocked (the_interceptor w i)) [0%nat]
  then (Real_request options' (String.eqb "http" "https"), Some No_match_for_request, w)
  else (Mocked_request options', None, w).
Proof.
  apply (registered_host_is_mocked ["http://x.test"] [] [] "http://x.test"
           (Entry.mk "http://x.test" [0%nat] false)).
  - reflexivity.
  - reflexivity.
  - intros k Hk. by apply elem_of_nil in Hk.
  - vm_compute. reflexivity.
  - intros i Hi. apply list_elem_of_singleton in Hi as ->. vm_compute. reflexivity.
  - vm_compute. reflexivity.
  - left. discriminate.
Defined.

(** A request while nothing is registered and net connect is disabled. *)
Lemma unregistered_host_follows_net_connect_witness :
  let options' := normalizeRequestOptions (Options_set_proto "http" get_a) in
  let error := NetConnectNotAllowedError (normalizeRequestOptions options') in
  let '(made, event, w') :=
    activate_request [] None disableNetConnect 1 "http" get_a empty_world in
  event = Some No_match_for_options /\ made = Failing_request error /\
  trace (run_next w') = trace empty_world ++ [Req_emit_error 1 error].
Proof.
  intros options' error.
  pose proof (unregistered_host_follows_net_connect [] None disableNetConnect 1 "http"
                get_a empty_world) as H.
  cbv zeta in H. fold options' in H. fold error in H.
  destruct (activate_request [] None disableNetConnect 1 "http" get_a empty_world)
    as [[made event] w'].
  destruct H as (He & _ & Hon).
  - right. intros k Hk. by apply elem_of_nil in Hk.
  - destruct (Hon eq_refl) as (_ & _ & Hdis & _).
    destruct (Hdis eq_refl) as [Hmade Hrun].
    destruct (Hrun ltac:(by repeat split)) as [_ Ht].
    split; [exact He|]. split; [exact Hmade|exact Ht].
Defined.



(** [GET http://x.test/a] on port 80, without a host header. *)
Lemma host_header_for_matching_witness :
  let w := one_request (static_reply (VString "ok") 1) in
  getHeader (end_prepare 1 w) 1 "host" =
    VString (default_host_header (Request.options (the_request w 1)) "x.test").
Proof.
  destruct (host_header_for_matching 1 (one_request (static_reply (VString "ok") 1)))
    as [_ Hdefault].
  - intros i Hi. vm_compute in Hi. apply list_elem_of_singleton in Hi as ->.
    vm_compute. reflexivity.
  - destruct (Hdefault "x.test") as [Hget _].
    + vm_compute. reflexivity.
    + vm_compute. reflexivity.
    + discriminate.
    + vm_compute. discriminate.
    + exact Hget.
Defined.


(** [.reply(200, {})]: the body is sent as the text [{}]. *)
Lemma serialized_body_sent_as_text_witness :
  let w := one_request (static_reply (VObject []) 1) in
  exists delays response,
    trace (run 4 (end_ 1 w)) =
      trace w ++ [request_event w 1 0] ++ delays ++
      [Req_emit_response 1 response; Response_push 1 (VString "{}");
       Response_push 1 VNull; Scope_emit_replied 0 1 0].
Proof.
  destruct (serialized_body_sent_as_text 1 0 (one_request (static_reply (VObject []) 1)))
    with (text := "{}") as (delays & response & _ & Hrun).
  - by vm_compute.
  - vm_compute. reflexivity.
  - vm_compute. reflexivity.
  - vm_compute. reflexivity.
  - repeat split; vm_compute; reflexivity.
  - vm_compute. reflexivity.
  - vm_compute. reflexivity.
  - vm_compute. reflexivity.
  - vm_compute. reflexivity.
  - discriminate.
  - exists delays, response. destruct (Hrun 4%nat ltac:(lia)) as [_ Ht]. exact Ht.
Defined.
